(** * Project-Delay-Risk-AI: simulator, pipeline, rule engine, hybrid scorer
      and what-if engine, embedded from the Python sources.

    Python [float] is IEEE-754 binary64, which is Rocq's primitive [float];
    Python [int] is [Z]; [str] is [string]; [None]-able fields are [option].
    A feature record (dict / pandas Series with unique labels) is a
    [gmap string Z]; where the code does arithmetic on the values of an
    integer Series (the what-if engine), they are numpy [int64] numbers and
    the arithmetic wraps around.  Exceptions are the [Raise] results of
    [Res]. *)

From Stdlib Require Import ZArith Lia Bool.
From Stdlib Require Import QArith.QArith_base QArith.Qround.
From Stdlib Require Import Floats.PrimFloat Floats.SpecFloat Floats.FloatOps.
From stdpp Require Import base option list strings gmap sorting.

Local Open Scope Z_scope.
Set Warnings "-inexact-float".

(* ===================================================================== *)
(** * Python runtime: exceptions, numbers, the [random] module *)
(* ===================================================================== *)

(** The exceptions the modelled code can raise. *)
Inductive PyError : Type :=
| KeyError (key : string)
| ValueError (msg : string)
| ZeroDivisionError
| OverflowError.

Inductive Res (A : Type) : Type :=
| Ok (a : A)
| Raise (e : PyError).
Arguments Ok {A} a.
Arguments Raise {A} e.

(** int -> float conversion (exact for |z| <= 2^53, which covers every
    integer the modelled code converts: complexity 1..5, scores 0..100). *)
Fixpoint float_of_pos (p : positive) : float :=
  match p with
  | xH => 1%float
  | xO q => (2 * float_of_pos q)%float
  | xI q => (2 * float_of_pos q + 1)%float
  end.

Definition float_of_Z (z : Z) : float :=
  match z with
  | Z0 => 0%float
  | Zpos p => float_of_pos p
  | Zneg p => (- float_of_pos p)%float
  end.

(** The value of a finite binary64 number [(-1)^s * m * 2^e], rounded to an
    integer towards zero ([sf_trunc]) and towards minus infinity
    ([sf_floor]); [None] on NaN and the infinities. *)
Definition sf_trunc (x : spec_float) : option Z :=
  match x with
  | S754_zero _ => Some 0
  | S754_finite s m e =>
      let a := match e with
               | Zneg k => Z.pos m / 2 ^ Z.pos k
               | _ => Z.pos m * 2 ^ e
               end in
      Some (if s then - a else a)
  | S754_infinity _ | S754_nan => None
  end.

Definition sf_floor (x : spec_float) : option Z :=
  match x with
  | S754_zero _ => Some 0
  | S754_finite s m e =>
      Some (match e with
            | Zneg k => (if s then Z.neg m else Z.pos m) / 2 ^ Z.pos k
            | _ => (if s then Z.neg m else Z.pos m) * 2 ^ e
            end)
  | S754_infinity _ | S754_nan => None
  end.

(** [math.floor] of a float, where it is a number. *)
Definition float_floor (x : float) : option Z := sf_floor (Prim2SF x).

(** Python's [int(x)] on a float: truncation towards zero; [ValueError] on
    NaN, [OverflowError] on an infinity. *)
Definition py_int (x : float) : Res Z :=
  match sf_trunc (Prim2SF x) with
  | Some z => Ok z
  | None => if is_nan x then Raise (ValueError "cannot convert float NaN to integer")
            else Raise OverflowError
  end.

(** The number that a finite binary64 value stands for, as a fraction;
    [None] on NaN and the infinities. *)
Definition sf_value (x : spec_float) : option Q :=
  match x with
  | S754_zero _ => Some (inject_Z 0)
  | S754_finite s m e =>
      let v := match e with
               | Zneg k => Qmake (Z.pos m) (2 ^ k)
               | _ => inject_Z (Z.pos m * 2 ^ e)
               end in
      Some (if s then Qopp v else v)
  | S754_infinity _ | S754_nan => None
  end.

Definition float_value (x : float) : option Q := sf_value (Prim2SF x).

(** numpy's [int64], the dtype of an integer pandas Series.  A sum or a
    difference that leaves the range [-2^63, 2^63) wraps around modulo
    2^64 (numpy warns, and goes on). *)
Definition INT64_MIN : Z := - 2 ^ 63.
Definition INT64_MAX : Z := 2 ^ 63 - 1.

Definition int64_wrap (z : Z) : Z := (z - INT64_MIN) mod 2 ^ 64 + INT64_MIN.

(** Python dicts with string keys, in insertion order *)

(** [d[k] = v]: replaces the value of an existing key in place, appends a
    new key at the end. *)
Fixpoint dict_set {V : Type} (k : string) (v : V) (d : list (string * V))
  : list (string * V) :=
  match d with
  | [] => [(k, v)]
  | (k', v') :: d' =>
      if String.eqb k k' then (k', v) :: d' else (k', v') :: dict_set k v d'
  end.

Fixpoint dict_get {V : Type} (k : string) (d : list (string * V)) : option V :=
  match d with
  | [] => None
  | (k', v') :: d' => if String.eqb k k' then Some v' else dict_get k d'
  end.

(** The process-wide generator of Python's [random] module.  The Mersenne
    Twister itself is library code: the development is generic in it. *)
Class PyRandom : Type := {
  rng_state : Type;
  (** [random.seed(n)]: the generator state determined by [n]. *)
  rng_seed : Z -> rng_state;
  (** [random.random()]: a float in [0,1) and the next state. *)
  rng_random : rng_state -> float * rng_state;
  (** [random.randint(a, b)] for [a <= b]. *)
  rng_randint : Z -> Z -> rng_state -> Z * rng_state
}.

(* ===================================================================== *)
(** * project_simulator/entities.py *)
(* ===================================================================== *)

Module TaskStatus.
Inductive t : Type := NOT_STARTED | IN_PROGRESS | BLOCKED | COMPLETED.
Definition eqb (a b : t) : bool :=
  match a, b with
  | NOT_STARTED, NOT_STARTED | IN_PROGRESS, IN_PROGRESS
  | BLOCKED, BLOCKED | COMPLETED, COMPLETED => true
  | _, _ => false
  end.
#[global] Instance eq_dec : EqDecision t.
Proof. solve_decision. Defined.
End TaskStatus.

Module Priority.
Inductive t : Type := HIGH | MEDIUM | LOW.
End Priority.

Module EventType.
Inductive t : Type := START | PROGRESS | BLOCKED | REWORK | COMPLETE.
Definition eqb (a b : t) : bool :=
  match a, b with
  | START, START | PROGRESS, PROGRESS | BLOCKED, BLOCKED
  | REWORK, REWORK | COMPLETE, COMPLETE => true
  | _, _ => false
  end.
#[global] Instance eq_dec : EqDecision t.
Proof. solve_decision. Defined.
End EventType.

Module Task.
Record t : Type := mk {
  task_id : string;
  planned_duration : Z;
  complexity : Z;
  priority : Priority.t;
  required_skill : string;
  dependencies : list string;
  actual_start : option Z;
  actual_end : option Z;
  progress : float;
  status : TaskStatus.t
}.
Definition set_status (s : TaskStatus.t) (x : t) : t :=
  mk (task_id x) (planned_duration x) (complexity x) (priority x)
     (required_skill x) (dependencies x) (actual_start x) (actual_end x)
     (progress x) s.
Definition set_actual_start (d : option Z) (x : t) : t :=
  mk (task_id x) (planned_duration x) (complexity x) (priority x)
     (required_skill x) (dependencies x) d (actual_end x)
     (progress x) (status x).
Definition set_actual_end (d : option Z) (x : t) : t :=
  mk (task_id x) (planned_duration x) (complexity x) (priority x)
     (required_skill x) (dependencies x) (actual_start x) d
     (progress x) (status x).
Definition set_progress (p : float) (x : t) : t :=
  mk (task_id x) (planned_duration x) (complexity x) (priority x)
     (required_skill x) (dependencies x) (actual_start x) (actual_end x)
     p (status x).
End Task.

Module Resource.
Record t : Type := mk {
  resource_id : string;
  skill_type : string;
  efficiency : float;
  availability : Z;
  assigned_task : option string
}.
Definition set_assigned_task (a : option string) (x : t) : t :=
  mk (resource_id x) (skill_type x) (efficiency x) (availability x) a.
End Resource.

Module EventLog.
Record t : Type := mk {
  day : Z;
  task_id : string;
  event_type : EventType.t;
  reason : option string
}.
(** The dataclass constructor followed by [__post_init__]: a negative day
    or an empty task id is a [ValueError].  (The event type is one of the
    enum's values by typing.) *)
Definition new (d : Z) (tid : string) (ty : EventType.t) (r : option string)
  : Res t :=
  if d <? 0 then Raise (ValueError "day must be non-negative")
  else if String.eqb tid "" then Raise (ValueError "task_id must be a non-empty string")
  else Ok (mk d tid ty r).
End EventLog.

(* ===================================================================== *)
(** * project_simulator/utils.py and simulator.py *)
(* ===================================================================== *)

Module Simulator.

(** The noise configuration dict, with its five keys. *)
Record NoiseConfig : Type := mkNoise {
  disruption_prob : float;
  rework_prob : float;
  external_block_prob : float;
  log_drop_prob : float;
  log_delay_range : Z * Z
}.

Definition default_noise : NoiseConfig :=
  mkNoise 0.1%float 0.05%float 0.05%float 0.15%float (1, 3).

(** The fields of a [ProjectSimulator] object.  [tasks] is the dict built
    by the comprehension of [__init__], in insertion order; the entries of
    [resources] are distinct objects, one per position of the list. *)
Record t : Type := mk {
  tasks : list (string * Task.t);
  resources : list Resource.t;
  logs : list EventLog.t;
  delayed_logs : list EventLog.t;
  day : Z;
  noise : NoiseConfig
}.

Definition set_tasks (x : list (string * Task.t)) (s : t) : t :=
  mk x (resources s) (logs s) (delayed_logs s) (day s) (noise s).
Definition set_resources (x : list Resource.t) (s : t) : t :=
  mk (tasks s) x (logs s) (delayed_logs s) (day s) (noise s).
Definition set_logs (x : list EventLog.t) (s : t) : t :=
  mk (tasks s) (resources s) x (delayed_logs s) (day s) (noise s).
Definition set_delayed_logs (x : list EventLog.t) (s : t) : t :=
  mk (tasks s) (resources s) (logs s) x (day s) (noise s).
Definition set_day (x : Z) (s : t) : t :=
  mk (tasks s) (resources s) (logs s) (delayed_logs s) x (noise s).

(** [{t.task_id: t for t in tasks}] *)
Definition tasks_dict (ts : list Task.t) : list (string * Task.t) :=
  fold_left (fun d x => dict_set (Task.task_id x) x d) ts [].

Section WithRandom.
Context {G : PyRandom}.

(** ** The state the code runs in: the simulator object and the module-level
       generator of [random], which is outside the object. *)
Record World : Type := mkWorld {
  sim : t;
  rng : rng_state
}.

(** State-and-exception monad over [World]. *)
Definition M (A : Type) : Type := World -> Res (A * World).

Definition ret {A : Type} (a : A) : M A := fun w => Ok (a, w).
Definition bind {A B : Type} (m : M A) (f : A -> M B) : M B := fun w =>
  match m w with
  | Ok (a, w') => f a w'
  | Raise e => Raise e
  end.

Notation "'do' x <- m ; k" := (bind m (fun x => k))
  (at level 10, x name, m at level 100, k at level 200).

Definition raise {A : Type} (e : PyError) : M A := fun _ => Raise e.
Definition lift_res {A : Type} (r : Res A) : M A := fun w =>
  match r with Ok a => Ok (a, w) | Raise e => Raise e end.
Definition get_sim : M t := fun w => Ok (sim w, w).
Definition modify_sim (f : t -> t) : M unit := fun w =>
  Ok (tt, mkWorld (f (sim w)) (rng w)).
Definition draw {A : Type} (f : rng_state -> A * rng_state) : M A := fun w =>
  let (a, g) := f (rng w) in Ok (a, mkWorld (sim w) g).

(** [for x in xs: body(x)] *)
Fixpoint for_each {A : Type} (xs : list A) (body : A -> M unit) : M unit :=
  match xs with
  | [] => ret tt
  | x :: xs' => do _ <- body x; for_each xs' body
  end.

(** ** utils.py *)

(** [random.uniform(a, b)] is [a + (b - a) * random()]. *)
Definition uniform (a b : float) : M float :=
  do u <- draw rng_random; ret (a + (b - a) * u)%float.

(** [random.randint(a, b)]: an empty range is a [ValueError]. *)
Definition randint (a b : Z) : M Z :=
  if b <? a then raise (ValueError "empty range for randrange()")
  else draw (rng_randint a b).

Definition chance (prob : float) : M bool :=
  do u <- draw rng_random; ret (u <? prob)%float.

Definition random_delay (min_days max_days : Z) : M Z :=
  randint min_days max_days.

(** [max(0.0, x)] *)
Definition max_zero (x : float) : float :=
  if (0 <? x)%float then x else 0%float.

Definition regress_progress (current : float) (max_regression : float) : M float :=
  do regression <- uniform 0.05%float max_regression;
  ret (max_zero (current - regression)%float).

(** ** ProjectSimulator *)

(** [ProjectSimulator(tasks, resources, seed, noise_config)], called when
    the module-level generator is in state [g]: builds the object and
    re-seeds the generator with [random.seed(seed)]. *)
Definition init (ts : list Task.t) (rs : list Resource.t) (seed : Z)
    (noise_config : option NoiseConfig) (g : rng_state) : World :=
  mkWorld
    (mk (tasks_dict ts) rs [] [] 0
        (match noise_config with Some n => n | None => default_noise end))
    (rng_seed seed).

(** [self.tasks[key]] *)
Definition get_task (key : string) : M Task.t :=
  do s <- get_sim;
  match dict_get key (tasks s) with
  | Some x => ret x
  | None => raise (KeyError key)
  end.

(** An attribute assignment on the task object stored under [key]. *)
Definition update_task (key : string) (f : Task.t -> Task.t) : M unit :=
  do x <- get_task key;
  modify_sim (fun s => set_tasks (dict_set key (f x) (tasks s)) s).

(** [all(self.tasks[dep].status == "completed" for dep in deps)]: stops at
    the first dependency that is not completed; an unknown id is a
    [KeyError] when it is reached. *)
Fixpoint all_completed (deps : list string) : M bool :=
  match deps with
  | [] => ret true
  | dep :: deps' =>
      do d <- get_task dep;
      if TaskStatus.eqb (Task.status d) TaskStatus.COMPLETED
      then all_completed deps'
      else ret false
  end.

Definition dependencies_completed (task : Task.t) : M bool :=
  all_completed (Task.dependencies task).

(** The index of the first resource with no assigned task. *)
Fixpoint first_idle (rs : list Resource.t) (i : nat) : option (nat * Resource.t) :=
  match rs with
  | [] => None
  | r :: rs' =>
      match Resource.assigned_task r with
      | None => Some (i, r)
      | Some _ => first_idle rs' (S i)
      end
  end.

Definition find_resource_for_task (task : Task.t) : M (option (nat * Resource.t)) :=
  do s <- get_sim; ret (first_idle (resources s) 0%nat).

Definition release_resources : M unit :=
  modify_sim (fun s =>
    set_resources (map (Resource.set_assigned_task None) (resources s)) s).

(** [resource.assigned_task = task.task_id] on the resource at index [i]. *)
Definition assign_resource (i : nat) (tid : string) : M unit :=
  modify_sim (fun s =>
    set_resources
      (list_alter (Resource.set_assigned_task (Some tid)) i (resources s)) s).

(** [log_event]: drop, delay or append. *)
Definition log_event (event : EventLog.t) : M unit :=
  do s <- get_sim;
  do dropped <- chance (log_drop_prob (noise s));
  if dropped then ret tt
  else
    do delayed <- chance 0.3%float;
    if delayed then
      do delay_days <- random_delay (fst (log_delay_range (noise s)))
                                (snd (log_delay_range (noise s)));
      do delayed_event <- lift_res
        (EventLog.new (EventLog.day event + delay_days)
           (EventLog.task_id event) (EventLog.event_type event)
           (EventLog.reason event));
      modify_sim (fun s => set_delayed_logs (delayed_logs s ++ [delayed_event]) s)
    else
      modify_sim (fun s => set_logs (logs s ++ [event]) s).

(** [self.log_event(EventLog(day, task_id, event_type, reason))] *)
Definition emit (d : Z) (tid : string) (ty : EventType.t) (r : option string)
  : M unit :=
  do event <- lift_res (EventLog.new d tid ty r);
  log_event event.

(** [x / c] with a float [x] and an int [c]. *)
Definition float_div_int (x : float) (c : Z) : M float :=
  if c =? 0 then raise ZeroDivisionError
  else ret (x / float_of_Z c)%float.

(** The body of the loop of [simulate_day] for the task stored under [key];
    every [continue] is the end of a branch. *)
Definition process_task (key : string) : M unit :=
  do task <- get_task key;
  if TaskStatus.eqb (Task.status task) TaskStatus.COMPLETED then ret tt
  else
    do s <- get_sim;
    let today := day s in
    let tid := Task.task_id task in
    (* External random block *)
    do ext <- chance (external_block_prob (noise s));
    if ext then
      do _ <- update_task key (Task.set_status TaskStatus.BLOCKED);
      emit today tid EventType.BLOCKED (Some "external_block")
    else
      (* Dependency block *)
      do deps_ok <- dependencies_completed task;
      if negb deps_ok then
        do _ <- update_task key (Task.set_status TaskStatus.BLOCKED);
        emit today tid EventType.BLOCKED (Some "dependencies")
      else
        (* Start task (or resume from blocked) *)
        do _ <-
          (match Task.status task with
           | TaskStatus.NOT_STARTED =>
               do _ <- (match Task.actual_start task with
                        | None => update_task key (Task.set_actual_start (Some today))
                        | Some _ => ret tt
                        end);
               do _ <- emit today tid EventType.START None;
               update_task key (Task.set_status TaskStatus.IN_PROGRESS)
           | TaskStatus.BLOCKED =>
               update_task key (Task.set_status TaskStatus.IN_PROGRESS)
           | _ => ret tt
           end);
        (* Resource allocation *)
        do found <- find_resource_for_task task;
        match found with
        | None =>
            do _ <- update_task key (Task.set_status TaskStatus.BLOCKED);
            emit today tid EventType.BLOCKED (Some "no_resource_available")
        | Some (i, resource) =>
            do _ <- assign_resource i tid;
            (* Skill mismatch *)
            let mismatch :=
              negb (String.eqb (Resource.skill_type resource)
                               (Task.required_skill task)) in
            let skill_penalty := if mismatch then 0.5%float else 1%float in
            let reason := if mismatch then Some "skill_mismatch" else None in
            (* Random disruption *)
            do disrupted <- chance (disruption_prob (noise s));
            if disrupted then
              emit today tid EventType.BLOCKED (Some "random_disruption")
            else
              (* Progress update *)
              do base_progress <- uniform 0.05%float 0.15%float;
              do increment <-
                float_div_int
                  (base_progress * Resource.efficiency resource * skill_penalty)%float
                  (Task.complexity task);
              do _ <- update_task key
                        (fun x => Task.set_progress (Task.progress x + increment)%float x);
              do _ <- emit today tid EventType.PROGRESS reason;
              (* Rework (progress regression) *)
              do rework <- chance (rework_prob (noise s));
              do _ <-
                (if rework then
                   do x <- get_task key;
                   do p <- regress_progress (Task.progress x) 0.2%float;
                   do _ <- update_task key (Task.set_progress p);
                   emit today tid EventType.REWORK (Some "rework")
                 else ret tt);
              (* Completion *)
              do x <- get_task key;
              if (1 <=? Task.progress x)%float then
                do _ <- (match Task.actual_start x with
                         | None => update_task key (Task.set_actual_start (Some today))
                         | Some _ => ret tt
                         end);
                do _ <- update_task key (Task.set_status TaskStatus.COMPLETED);
                do _ <- update_task key (Task.set_actual_end (Some today));
                emit today tid EventType.COMPLETE None
              else ret tt
        end.

(** The first three statements of [simulate_day]: advance the day and
    release the delayed logs whose day has come. *)
Definition flush_delayed : M unit :=
  do _ <- modify_sim (fun s => set_day (day s + 1) s);
  modify_sim (fun s =>
    let ready_logs := filter (fun l => EventLog.day l <= day s) (delayed_logs s) in
    let waiting := filter (fun l => EventLog.day l > day s) (delayed_logs s) in
    set_logs (logs s ++ ready_logs) (set_delayed_logs waiting s)).

Definition simulate_day : M unit :=
  do _ <- flush_delayed;
  do s <- get_sim;
  do _ <- for_each (map fst (tasks s)) process_task;
  release_resources.

Definition all_tasks_completed (s : t) : bool :=
  forallb (fun kv => TaskStatus.eqb (Task.status (snd kv)) TaskStatus.COMPLETED)
          (tasks s).

(** [for _ in range(n)]: a day, then [break] when every task is completed. *)
Fixpoint run_loop (n : nat) : M unit :=
  match n with
  | O => ret tt
  | S n' =>
      do _ <- simulate_day;
      do s <- get_sim;
      if all_tasks_completed s then ret tt else run_loop n'
  end.

Definition run (max_days : Z) : M unit := run_loop (Z.to_nat max_days).

(** One whole use of the simulator, as the callers and the tests write it:
    [sim = ProjectSimulator(ts, rs, seed, noise_config); sim.run(max_days)],
    started when the module-level generator is in state [g]. *)
Definition simulate (ts : list Task.t) (rs : list Resource.t) (seed : Z)
    (noise_config : option NoiseConfig) (max_days : Z) (g : rng_state)
  : Res (unit * World) :=
  run max_days (init ts rs seed noise_config g).

(** Two simulators with equal inputs, both constructed before either runs:
    [a = ProjectSimulator(ts, rs, seed, noise_config);
     b = ProjectSimulator(ts, rs, seed, noise_config);
     a.run(max_days); b.run(max_days)],
    each constructor on its own copies of the tasks and resources.  Both
    constructors seed the one generator of the process; the run of [a]
    draws from it, and the run of [b] goes on from the state that the run
    of [a] has left it in.  The result is the two objects after their
    runs. *)
Definition simulate_both (ts : list Task.t) (rs : list Resource.t) (seed : Z)
    (noise_config : option NoiseConfig) (max_days : Z) (g : rng_state)
  : Res (t * t) :=
  let a := init ts rs seed noise_config g in
  let b := init ts rs seed noise_config (rng a) in
  match run max_days (mkWorld (sim a) (rng b)) with
  | Raise e => Raise e
  | Ok (_, wa) =>
      match run max_days (mkWorld (sim b) (rng wa)) with
      | Raise e => Raise e
      | Ok (_, wb) => Ok (sim wa, sim wb)
      end
  end.

End WithRandom.
End Simulator.

(** A concrete generator to run the simulator on: it deals the draws of a
    fixed tape of floats, over and over.  It stands in for the Mersenne
    Twister in the executable examples only; every theorem is stated for
    any [PyRandom]. *)
Module Tape.
Definition draws : list float :=
  [0.62; 0.91; 0.07; 0.33; 0.58; 0.02; 0.77; 0.45; 0.12; 0.85; 0.27; 0.96;
   0.51]%float.
(** The seed decides where on the tape the dealing starts. *)
Definition seed (n : Z) : list float :=
  rotate (Z.to_nat (Z.abs n)) draws.
Definition random (tape : list float) : float * list float :=
  match tape with
  | [] => (0.5%float, [])
  | x :: rest => (x, rest ++ [x])
  end.
Definition randint (a b : Z) (tape : list float) : Z * list float :=
  let (x, rest) := random tape in
  ((if (x <? 0.5)%float then a else b), rest).
Definition gen : PyRandom :=
  {| rng_state := list float; rng_seed := seed; rng_random := random;
     rng_randint := randint |}.
End Tape.

(* ===================================================================== *)
(** * data_pipeline/ingest.py, normalize.py, features.py *)
(* ===================================================================== *)

Module TaskRow.
Record t : Type := mk {
  task_id : string;
  planned_duration : Z;
  complexity : Z;
  priority : Priority.t;
  required_skill : string;
  num_dependencies : Z;
  actual_start : option Z;
  actual_end : option Z;
  status : TaskStatus.t;
  progress : float
}.
End TaskRow.

Module EventRow.
Record t : Type := mk {
  day : Z;
  task_id : string;
  event_type : EventType.t;
  reason : option string;
  observed_day : Z;
  is_delayed_log : bool
}.
Definition set_is_delayed_log (b : bool) (x : t) : t :=
  mk (day x) (task_id x) (event_type x) (reason x) (observed_day x) b.
End EventRow.

(** [DataFrame.sort_values(column)] of pandas, library code: the rows of the
    frame, reordered so that the column ascends.  Which of two rows with
    the same key comes first is the library's business. *)
Class FrameSort : Type := {
  sort_values : (EventRow.t -> Z) -> list EventRow.t -> list EventRow.t;
  sort_values_perm : forall key rows, sort_values key rows ≡ₚ rows;
  sort_values_sorted : forall key rows,
    Sorted (fun a b => key a <= key b) (sort_values key rows)
}.

Module Pipeline.

Record Raw : Type := mkRaw {
  raw_tasks : list TaskRow.t;
  raw_events : list EventRow.t
}.

Definition ingest_simulation (simulator : Simulator.t) : Raw :=
  mkRaw
    (map (fun kv =>
            let task := snd kv in
            TaskRow.mk (Task.task_id task) (Task.planned_duration task)
              (Task.complexity task) (Task.priority task)
              (Task.required_skill task)
              (Z.of_nat (length (Task.dependencies task)))
              (Task.actual_start task) (Task.actual_end task)
              (Task.status task) (Task.progress task))
         (Simulator.tasks simulator))
    (map (fun event =>
            EventRow.mk (EventLog.day event) (EventLog.task_id event)
              (EventLog.event_type event) (EventLog.reason event)
              (EventLog.day event) false)
         (Simulator.logs simulator)).

(** [normalize_events(pd.DataFrame(raw["events"]))].  A frame built from an
    empty list of records has no columns, and selecting ["observed_day"]
    from it is a [KeyError]. *)
Definition normalize_events {FS : FrameSort} (events : list EventRow.t)
  : Res (list EventRow.t) :=
  match events with
  | [] => Raise (KeyError "observed_day")
  | _ =>
      let flagged :=
        map (fun r => EventRow.set_is_delayed_log
                        (EventRow.day r <? EventRow.observed_day r) r) events in
      Ok (sort_values EventRow.observed_day flagged)
  end.

(** The sorted distinct labels of a group-by key. *)
Fixpoint insert_label (k : string) (ks : list string) : list string :=
  match ks with
  | [] => [k]
  | k' :: ks' =>
      match String.compare k k' with
      | Eq => ks
      | Lt => k :: ks
      | Gt => k' :: insert_label k ks'
      end
  end.

Definition group_labels (ks : list string) : list string :=
  fold_right insert_label [] ks.

(** The reason vocabulary whose columns [compute_block_features] ensures. *)
Definition REASON_COLUMNS : list string :=
  ["dependencies"; "no_resource_available"; "skill_mismatch";
   "external_block"; "random_disruption"].

(** One row of the frame [compute_block_features] returns: the task, its
    count per reason column, and the total. *)
Record BlockRow : Type := mkBlockRow {
  block_task_id : string;
  block_counts : gmap string Z;
  total_blocked_events : Z
}.

(** The size of the group [(tid, r)]. *)
Definition group_size (rows : list EventRow.t) (tid r : string) : Z :=
  Z.of_nat (length (filter (fun e => EventRow.task_id e = tid /\
                                     EventRow.reason e = Some r) rows)).

(** "Ensure consistent columns": [if col not in block_counts.columns:
    block_counts[col] = 0], on one row. *)
Definition ensure_column (counts : gmap string Z) (col : string) : gmap string Z :=
  match counts !! col with
  | Some _ => counts
  | None => <[col := 0]> counts
  end.

Definition compute_block_features (events : list EventRow.t) : list BlockRow :=
  let blocked :=
    filter (fun e => EventRow.event_type e = EventType.BLOCKED) events in
  (* groupby drops the rows whose key is null *)
  let grouped := filter (fun e => EventRow.reason e <> None) blocked in
  let task_ids := group_labels (map EventRow.task_id grouped) in
  let reasons := group_labels (omap EventRow.reason grouped) in
  map (fun tid =>
         (* size().unstack(fill_value=0) *)
         let counts : gmap string Z :=
           list_to_map (map (fun r => (r, group_size grouped tid r)) reasons) in
         let counts := fold_left ensure_column REASON_COLUMNS counts in
         mkBlockRow tid counts
           (fold_left (fun acc col => acc + default 0 (counts !! col))
                      REASON_COLUMNS 0))
      task_ids.

(** The first merge of [build_task_features]: the left merge of the tasks
    with the block features on [task_id]; the cell of column [col] in the row
    of task [tid], a missing cell read as the 0 that the final [fillna(0)]
    writes into it.  (Whether [build_task_features] gets as far as returning
    the frame is [Features.build_task_features_block].) *)
Definition merged_block_feature (block_features : list BlockRow)
    (tid col : string) : Z :=
  match List.find (fun r => String.eqb (block_task_id r) tid) block_features with
  | Some r => default 0 (block_counts r !! col)
  | None => 0
  end.

End Pipeline.

(* ===================================================================== *)
(** * models/rules.py *)
(* ===================================================================== *)

Module Rules.

Record Rule : Type := mkRule {
  field : string;
  threshold : Z;
  score : Z;
  severity : string;
  reason : string;
  rationale : string
}.

Definition RULES : list Rule := [
  mkRule "total_blocked_events" 3 25 "critical"
    "Frequent task blocking (3+ events)"
    "Recurring blocks indicate systemic issues beyond random disruptions";
  mkRule "dependencies" 2 15 "warning"
    "Heavy dependency constraints (2+ deps)"
    "High coupling increases coordination overhead and failure propagation";
  mkRule "no_resource_available" 1 20 "critical"
    "Insufficient resource availability"
    "Resource bottlenecks are a primary cause of project delays";
  mkRule "rework_count" 2 15 "warning"
    "Repeated rework events (2+ occurrences)"
    "Rework indicates quality issues or requirement instability";
  mkRule "max_progress_gap" 4 15 "warning"
    "Long progress stagnation (4+ days)"
    "Large gaps often hide problems or indicate blocked work"
].

(** An entry of the returned reasons: [{"text": ..., "severity": ...}]. *)
Record Reason : Type := mkReason {
  reason_text : string;
  reason_severity : string
}.

(** The loop of [rule_based_risk] from the accumulators [(score, reasons)]. *)
Definition apply_rules (rules : list Rule) (row : gmap string Z)
    (acc : Z * list Reason) : Z * list Reason :=
  fold_left
    (fun '(total, reasons) rule =>
       let field_value := default 0 (row !! field rule) in
       if threshold rule <=? field_value
       then (total + score rule, reasons ++ [mkReason (reason rule) (severity rule)])
       else (total, reasons))
    rules acc.

Definition rule_based_risk (row : gmap string Z) : Z * list Reason :=
  let '(total, reasons) := apply_rules RULES row (0, []) in
  (Z.min total 100, reasons).

End Rules.

(* ===================================================================== *)
(** * models/hybrid_risk.py *)
(* ===================================================================== *)

Module HybridRisk.

Definition DEFAULT_RULE_WEIGHT : float := 0.6%float.
Definition DEFAULT_ML_WEIGHT : float := 0.4%float.
Definition DEFAULT_HIGH_THRESHOLD : Z := 70.
Definition DEFAULT_MEDIUM_THRESHOLD : Z := 40.

(** The two sub-dicts of the configuration that the scorer reads; a key
    that is absent is [None]. *)
Record RiskWeights : Type := mkRiskWeights {
  cfg_rule_weight : option float;
  cfg_ml_weight : option float
}.
Record RiskThresholds : Type := mkRiskThresholds {
  cfg_high : option Z;
  cfg_medium : option Z
}.
Record Config : Type := mkConfig {
  risk_weights : option RiskWeights;
  risk_thresholds : option RiskThresholds
}.

(** The four local variables the first block of [hybrid_risk_score] sets. *)
Record Settings : Type := mkSettings {
  rule_weight : float;
  ml_weight : float;
  high_threshold : Z;
  medium_threshold : Z
}.

(** "Extract weights from config or use defaults": [config] is [None] (or
    empty, which reads the same) or a dict; each [.get] falls back to its
    default. *)
Definition settings_of (config : option Config) : Settings :=
  match config with
  | None =>
      mkSettings DEFAULT_RULE_WEIGHT DEFAULT_ML_WEIGHT
                 DEFAULT_HIGH_THRESHOLD DEFAULT_MEDIUM_THRESHOLD
  | Some c =>
      let weights := default (mkRiskWeights None None) (risk_weights c) in
      let thresholds := default (mkRiskThresholds None None) (risk_thresholds c) in
      mkSettings
        (default DEFAULT_RULE_WEIGHT (cfg_rule_weight weights))
        (default DEFAULT_ML_WEIGHT (cfg_ml_weight weights))
        (default DEFAULT_HIGH_THRESHOLD (cfg_high thresholds))
        (default DEFAULT_MEDIUM_THRESHOLD (cfg_medium thresholds))
  end.

(** The value [round(x, ndigits)] of Python's built-in, kept as the call. *)
Record Rounded : Type := mkRounded {
  rounded_arg : float;
  rounded_ndigits : Z
}.

Record WeightsUsed : Type := mkWeightsUsed {
  used_rule_weight : float;
  used_ml_weight : float
}.

(** The returned dict, key by key. *)
Record Result : Type := mkResult {
  risk_score : Z;
  risk_level : string;
  reasons : list Rules.Reason;
  ml_probability : Rounded;
  rule_score : Z;
  weights_used : WeightsUsed
}.

(** The weighted sum that is passed to [int]. *)
Definition weighted_sum (st : Settings) (rule_score : Z) (ml_probability : float)
  : float :=
  (rule_weight st * float_of_Z rule_score
   + ml_weight st * (ml_probability * 100))%float.

Definition hybrid_risk_score (row : gmap string Z) (ml_probability : float)
    (config : option Config) : Res Result :=
  let st := settings_of config in
  let '(rule_score, reasons) := Rules.rule_based_risk row in
  match py_int (weighted_sum st rule_score ml_probability) with
  | Raise e => Raise e
  | Ok final_score =>
      let final_score := Z.max 0 (Z.min 100 final_score) in
      let level :=
        if high_threshold st <=? final_score then "High"
        else if medium_threshold st <=? final_score then "Medium"
        else "Low" in
      Ok (mkResult final_score level reasons (mkRounded ml_probability 3)
            rule_score
            (mkWeightsUsed (rule_weight st) (ml_weight st)))
  end.

End HybridRisk.

(* ===================================================================== *)
(** * decision_support/what_if.py *)
(* ===================================================================== *)

Module WhatIf.

Record Scenario : Type := mkScenario {
  description : string;
  causal_mechanism : string;
  effects : list (string * Z)
}.

Definition SCENARIOS : list (string * Scenario) := [
  ("add_resource",
   mkScenario "Add one resource to the project"
     "Reduces resource bottlenecks and blocking"
     [("no_resource_available", -1); ("total_blocked_events", -1)]);
  ("reduce_dependencies",
   mkScenario "Reduce task coupling through refactoring"
     "Decreases coordination overhead and failure propagation"
     [("dependencies", -2); ("total_blocked_events", -1)]);
  ("improve_process",
   mkScenario "Implement quality improvements and better monitoring"
     "Reduces rework cycles and progress stagnation"
     [("rework_count", -1); ("max_progress_gap", -2)])
].

(** The text of [list(SCENARIOS.keys())] inside the error message. *)
Definition valid_names_repr : string :=
  "['add_resource', 'reduce_dependencies', 'improve_process']".

(** The loop over [effects.items()]: a feature that is not in the index of
    the Series is skipped.  [current] is an element of an integer Series, an
    [int64], and so is [current + delta]. *)
Definition apply_effects (effects : list (string * Z)) (row : gmap string Z)
  : gmap string Z :=
  fold_left
    (fun simulated '(feature, delta) =>
       match simulated !! feature with
       | Some current =>
           <[feature := Z.max 0 (int64_wrap (current + delta))]> simulated
       | None => simulated
       end)
    effects row.

Definition simulate_what_if (row : gmap string Z) (scenario : string)
  : Res (gmap string Z) :=
  match dict_get scenario SCENARIOS with
  | None =>
      Raise (ValueError ("Unknown scenario '" ++ scenario ++ "'. Valid: "
                         ++ valid_names_repr))
  | Some sc => Ok (apply_effects (effects sc) row)
  end.

End WhatIf.

(* ===================================================================== *)
(** * The specification's words, as definitions to compare the code with *)
(* ===================================================================== *)

Module SpecWords.

(** "clamped to [lo, hi]" *)
Definition clamp (lo hi x : Z) : Z := Z.max lo (Z.min hi x).

(** "a rule fires when the record's field value (default 0 if absent) is at
    least the threshold" *)
Definition fires (row : gmap string Z) (rule : Rules.Rule) : bool :=
  Rules.threshold rule <=? default 0 (row !! Rules.field rule).

(** The fired rules, in rule-declaration order. *)
Definition fired_rules (row : gmap string Z) : list Rules.Rule :=
  List.filter (fires row) Rules.RULES.

Definition sum_scores (rules : list Rules.Rule) : Z :=
  foldr (fun rule acc => Rules.score rule + acc) 0 rules.

Definition reason_of (rule : Rules.Rule) : Rules.Reason :=
  Rules.mkReason (Rules.reason rule) (Rules.severity rule).

(** "contributions sum before clamping" *)
Definition spec_rule_score (row : gmap string Z) : Z :=
  clamp 0 100 (sum_scores (fired_rules row)).

(** "reasons preserve rule-declaration order" *)
Definition spec_reasons (row : gmap string Z) : list Rules.Reason :=
  map reason_of (fired_rules row).

(** "High if final_score >= high threshold; Medium if >= medium threshold;
    else Low" *)
Definition spec_level (high medium final_score : Z) : string :=
  if high <=? final_score then "High"
  else if medium <=? final_score then "Medium"
  else "Low".

(** The names of the defined scenarios. *)
Definition scenario_names : list string :=
  ["add_resource"; "reduce_dependencies"; "improve_process"].

(** "get-with-default-zero" *)
Definition get0 (row : gmap string Z) (name : string) : Z :=
  default 0 (row !! name).

(** "floor(rule_weight x rule_score + ml_weight x ml_probability x 100),
    clamped to [0,100]", in exact arithmetic on fractions. *)
Definition spec_final_score (rule_weight ml_weight ml_probability : Q)
    (rule_score : Z) : Z :=
  clamp 0 100
    (Qfloor (Qplus (Qmult rule_weight (inject_Z rule_score))
                   (Qmult (Qmult ml_weight ml_probability) (inject_Z 100)))).

(** An integer feature record on which no scenario makes the int64
    addition wrap: every value is an int64 at least 2 above the least one
    (no delta is below -2).  The records of non-negative counts that the
    feature engine produces are of this kind. *)
Definition no_wrap (row : gmap string Z) : Prop :=
  map_Forall (fun _ v => INT64_MIN + 2 <= v <= INT64_MAX) row.

End SpecWords.

(** The error [simulate_what_if] raises for a scenario it does not know. *)
Definition unknown_scenario_error (scenario : string) : PyError :=
  ValueError ("Unknown scenario '" ++ scenario ++ "'. Valid: "
              ++ WhatIf.valid_names_repr).

(* ===================================================================== *)
(** * Properties of simulator states *)
(* ===================================================================== *)

Module Invariants.
Import Simulator.

(** "status == COMPLETED iff actual_end is set and progress >= 1.0" *)
Definition completion_consistent (t : Task.t) : Prop :=
  Task.status t = TaskStatus.COMPLETED <->
  is_Some (Task.actual_end t) /\ (1 <=? Task.progress t)%float = true.

(** The inductive form of it: a completed task has its end day and a
    progress of at least 1, and no other task has an end day. *)
Definition completion_inv (t : Task.t) : Prop :=
  (Task.status t = TaskStatus.COMPLETED ->
   is_Some (Task.actual_end t) /\ (1 <=? Task.progress t)%float = true)
  /\ (is_Some (Task.actual_end t) -> Task.status t = TaskStatus.COMPLETED).

(** The dependency [dep] is a task of the dict [d], and it is completed. *)
Definition dep_done (d : list (string * Task.t)) (dep : string) : Prop :=
  exists x, dict_get dep d = Some x /\ Task.status x = TaskStatus.COMPLETED.

(** "no task is IN_PROGRESS while any of its dependencies is not COMPLETED" *)
Definition dependency_gated (d : list (string * Task.t)) : Prop :=
  forall k t, (k, t) ∈ d -> Task.status t = TaskStatus.IN_PROGRESS ->
    Forall (dep_done d) (Task.dependencies t).

(** How one pass of the loop body of [simulate_day] may change the task it
    processes, in the dict [d] of the state it starts from. *)
Inductive task_step (d : list (string * Task.t)) (today : Z) (t t' : Task.t) : Prop :=
| step_blocked :
    Task.status t' = TaskStatus.BLOCKED ->
    Task.actual_end t' = Task.actual_end t ->
    task_step d today t t'
| step_working :
    Task.status t' = TaskStatus.IN_PROGRESS ->
    Task.actual_end t' = Task.actual_end t ->
    Forall (dep_done d) (Task.dependencies t) ->
    task_step d today t t'
| step_completed :
    Task.status t' = TaskStatus.COMPLETED ->
    Task.actual_end t' = Some today ->
    (1 <=? Task.progress t')%float = true ->
    Forall (dep_done d) (Task.dependencies t) ->
    task_step d today t t'.

(** A logged event carries the reason skill_mismatch only if it is a
    progress event. *)
Definition reason_fits (e : EventLog.t) : Prop :=
  EventLog.reason e = Some "skill_mismatch" ->
  EventLog.event_type e = EventType.PROGRESS.

Definition logs_fit (s : Simulator.t) : Prop :=
  Forall reason_fits (logs s) /\ Forall reason_fits (delayed_logs s).

(** No blocked row of the events table has the reason skill_mismatch. *)
Definition no_blocked_mismatch (r : EventRow.t) : Prop :=
  EventRow.event_type r = EventType.BLOCKED ->
  EventRow.reason r <> Some "skill_mismatch".

(** The row that [ingest_simulation] makes of a logged event, with the flag
    that [normalize_events] computes for it. *)
Definition normalized_row (event : EventLog.t) : EventRow.t :=
  EventRow.mk (EventLog.day event) (EventLog.task_id event)
    (EventLog.event_type event) (EventLog.reason event) (EventLog.day event)
    (EventLog.day event <? EventLog.day event).

(** What one call of [log_event] makes of the log: the event is dropped,
    or appended to the log, or held back among the delayed logs with a
    later day. *)
Definition logged (event : EventLog.t) (s s' : Simulator.t) : Prop :=
  (logs s' = logs s /\ delayed_logs s' = delayed_logs s)
  \/ (logs s' = logs s ++ [event] /\ delayed_logs s' = delayed_logs s)
  \/ (logs s' = logs s
      /\ exists delay_days,
           delayed_logs s' = delayed_logs s ++
             [EventLog.mk (EventLog.day event + delay_days)
                (EventLog.task_id event) (EventLog.event_type event)
                (EventLog.reason event)]).

(** The task [t'] is the task [t] blocked: its status is BLOCKED, and every
    other field is as in [t]. *)
Definition blocked_copy (t t' : Task.t) : Prop :=
  Task.status t' = TaskStatus.BLOCKED
  /\ Task.task_id t' = Task.task_id t
  /\ Task.planned_duration t' = Task.planned_duration t
  /\ Task.complexity t' = Task.complexity t
  /\ Task.priority t' = Task.priority t
  /\ Task.required_skill t' = Task.required_skill t
  /\ Task.dependencies t' = Task.dependencies t
  /\ Task.actual_start t' = Task.actual_start t
  /\ Task.actual_end t' = Task.actual_end t
  /\ Task.progress t' = Task.progress t.

(** The dependency [dep] is a task of the dict [d] that is not completed. *)
Definition unmet (d : list (string * Task.t)) (dep : string) : Prop :=
  exists x, dict_get dep d = Some x /\ Task.status x <> TaskStatus.COMPLETED.

Section WithRandom.
Context {G : PyRandom}.

(** The states a run goes through, step by step: the state [w0] it starts
    from, and from a reachable state the state after the flush that opens a
    day, after the loop body on any task, and after the release of the
    resources that closes a day.  The steps may come in any order, so that
    every state of every run is reachable, at each of these points. *)
Inductive reachable (w0 : World) : World -> Prop :=
| reach_init : reachable w0 w0
| reach_flush w w' :
    reachable w0 w -> flush_delayed w = Ok (tt, w') -> reachable w0 w'
| reach_task key w w' :
    reachable w0 w -> process_task key w = Ok (tt, w') -> reachable w0 w'
| reach_release w w' :
    reachable w0 w -> release_resources w = Ok (tt, w') -> reachable w0 w'.

(** [keeps m]: a run of [m] that returns keeps [logs_fit]. *)
Definition keeps {A : Type} (m : M A) : Prop :=
  forall w a w', m w = Ok (a, w') -> logs_fit (sim w) -> logs_fit (sim w').

End WithRandom.
End Invariants.

(** A sort to run the pipeline with: insertion sort on the key. *)
Module InsertionSort.
Fixpoint insert (key : EventRow.t -> Z) (x : EventRow.t) (l : list EventRow.t)
  : list EventRow.t :=
  match l with
  | [] => [x]
  | y :: l' => if key x <? key y then x :: l else y :: insert key x l'
  end.
Definition sort (key : EventRow.t -> Z) (l : list EventRow.t) : list EventRow.t :=
  foldr (insert key) [] l.
End InsertionSort.

(** The inputs of the examples: the projects and records of the test suite. *)
Module Samples.
Definition T1 : Task.t :=
  Task.mk "T1" 2 1 Priority.HIGH "dev" [] None None 0%float TaskStatus.NOT_STARTED.
Definition T2 : Task.t :=
  Task.mk "T2" 2 1 Priority.MEDIUM "dev" ["T1"] None None 0%float
          TaskStatus.NOT_STARTED.
Definition R1 : Resource.t := Resource.mk "R1" "dev" 1%float 8 None.
Definition R2 : Resource.t := Resource.mk "R2" "qa" 1%float 8 None.
Definition ZERO_NOISE : Simulator.NoiseConfig :=
  Simulator.mkNoise 0%float 0%float 0%float 0%float (0, 0).

(** The project of [T1], [T2] and [R1] on the morning of day 1, with the
    default noise, the generator about to deal 0.85, 0.27 and 0.96. *)
Definition first_morning : Simulator.World (G := Tape.gen) :=
  Simulator.mkWorld (G := Tape.gen)
    (Simulator.mk (Simulator.tasks_dict [T1; T2]) [R1] [] [] 1
                  Simulator.default_noise)
    (Tape.seed 9).

(** [{no_resource_available: 2, total_blocked_events: 5}] *)
Definition two_fields : gmap string Z :=
  <["no_resource_available" := 2]> (<["total_blocked_events" := 5]> ∅).

(** A row on which every rule meets its threshold exactly. *)
Definition thresholds_met : gmap string Z :=
  <["total_blocked_events" := 3]> (<["dependencies" := 2]>
  (<["no_resource_available" := 1]> (<["rework_count" := 2]>
  (<["max_progress_gap" := 4]> ∅)))).

(** A configuration with all four settings given. *)
Definition config (rw mw : float) (hi med : Z) : option HybridRisk.Config :=
  Some (HybridRisk.mkConfig
          (Some (HybridRisk.mkRiskWeights (Some rw) (Some mw)))
          (Some (HybridRisk.mkRiskThresholds (Some hi) (Some med)))).
End Samples.

(* ===================================================================== *)
(** * project_simulator/entities.py: the checks of a task *)
(* ===================================================================== *)

Module TaskInit.
(** [Task.__post_init__]: the checks of the dataclass, in the order of the
    source.  The priority and the status are values of their enums by
    typing; the messages are kept up to the offending value. *)
Definition post_init (x : Task.t) : Res unit :=
  if String.eqb (Task.task_id x) "" then
    Raise (ValueError "task_id must be a non-empty string")
  else if Task.planned_duration x <=? 0 then
    Raise (ValueError "planned_duration must be positive")
  else if negb ((1 <=? Task.complexity x) && (Task.complexity x <=? 5)) then
    Raise (ValueError "complexity must be between 1 and 5")
  else if negb ((0 <=? Task.progress x)%float && (Task.progress x <=? 1.5)%float) then
    Raise (ValueError "progress must be between 0.0 and 1.5")
  else Ok tt.
End TaskInit.

(* ===================================================================== *)
(** * Predicates on the states of a run *)
(* ===================================================================== *)

Module Runs.
Import Simulator.

(** The fields of a task that the simulator only reads. *)
Definition same_static (t t' : Task.t) : Prop :=
  Task.task_id t' = Task.task_id t
  /\ Task.planned_duration t' = Task.planned_duration t
  /\ Task.complexity t' = Task.complexity t
  /\ Task.priority t' = Task.priority t
  /\ Task.required_skill t' = Task.required_skill t
  /\ Task.dependencies t' = Task.dependencies t.

(** The event types and reasons of the [EventLog(...)] calls of
    [simulate_day], in the order of the source. *)
Definition EVENT_SHAPES : list (EventType.t * option string) :=
  [ (EventType.BLOCKED, Some "external_block");
    (EventType.BLOCKED, Some "dependencies");
    (EventType.START, None);
    (EventType.BLOCKED, Some "no_resource_available");
    (EventType.BLOCKED, Some "random_disruption");
    (EventType.PROGRESS, Some "skill_mismatch");
    (EventType.PROGRESS, None);
    (EventType.REWORK, Some "rework");
    (EventType.COMPLETE, None) ].

(** An event that the loop body may have logged for the task [tid]. *)
Definition event_of (tid : string) (e : EventLog.t) : Prop :=
  EventLog.task_id e = tid /\ tid <> "" /\ 0 <= EventLog.day e
  /\ (EventLog.event_type e, EventLog.reason e) ∈ EVENT_SHAPES.

(** [resource.assigned_task = None] on every resource. *)
Definition released (rs : list Resource.t) : list Resource.t :=
  map (Resource.set_assigned_task None) rs.

(** What one pass of the loop body on a task with id [tid], on day [today],
    may change in the simulator besides the task: the assignments of the
    resources, and events added at the end of the two logs. *)
Record frame (today : Z) (tid : string) (s s' : Simulator.t) : Prop := mkFrame {
  frame_day : day s' = day s;
  frame_noise : noise s' = noise s;
  frame_resources : released (resources s') = released (resources s);
  frame_logs : exists l, logs s' = logs s ++ l
                 /\ Forall (fun e => event_of tid e /\ EventLog.day e = today) l;
  frame_delayed : exists l, delayed_logs s' = delayed_logs s ++ l
                    /\ Forall (event_of tid) l
}.

(** How one pass may change the start day of the task it processes. *)
Definition start_step (today : Z) (t t' : Task.t) : Prop :=
  (Task.actual_start t' = Task.actual_start t
   \/ (Task.actual_start t = None /\ Task.actual_start t' = Some today))
  /\ (Task.status t' = TaskStatus.COMPLETED -> is_Some (Task.actual_start t'))
  /\ (Task.status t <> TaskStatus.NOT_STARTED ->
      Task.status t' <> TaskStatus.COMPLETED ->
      Task.actual_start t' = Task.actual_start t).

(** How the simulator object may differ between an earlier and a later
    point of a run. *)
Record evolves (s s' : Simulator.t) : Prop := mkEvolves {
  ev_keys : (tasks s').*1 = (tasks s).*1;
  ev_tasks : forall k t, dict_get k (tasks s) = Some t ->
      exists t', dict_get k (tasks s') = Some t' /\ same_static t t'
                 /\ (Task.status t = TaskStatus.COMPLETED -> t' = t);
  ev_noise : noise s' = noise s;
  ev_day : day s <= day s';
  ev_resources : released (resources s') = released (resources s);
  ev_logs : logs s `prefix_of` logs s'
}.

(** An event that the loop body may have logged for a task of the dict. *)
Definition event_known (s : Simulator.t) (e : EventLog.t) : Prop :=
  exists k t, dict_get k (tasks s) = Some t /\ event_of (Task.task_id t) e.

(** The events of the two logs are events of tasks of the dict, and no
    visible event is dated after the current day. *)
Definition log_inv (s : Simulator.t) : Prop :=
  Forall (fun e => event_known s e /\ EventLog.day e <= day s) (logs s)
  /\ Forall (event_known s) (delayed_logs s).

(** The days of a task, on day [today]: a start day is not in the future,
    and an end day comes with a start day that is not after it. *)
Definition timing (today : Z) (t : Task.t) : Prop :=
  (forall s, Task.actual_start t = Some s -> 0 <= s <= today)
  /\ (forall e, Task.actual_end t = Some e ->
        exists s, Task.actual_start t = Some s /\ s <= e <= today).

(** ** Inputs on which a run returns *)

(** What the loop body needs of a task of a dict with the keys [K]: the
    checks of [EventLog] and the division by the complexity pass, and every
    dependency is a key. *)
Definition task_ok (K : list string) (t : Task.t) : Prop :=
  Task.task_id t <> "" /\ Task.complexity t <> 0
  /\ Forall (fun dep => dep ∈ K) (Task.dependencies t).

(** The delay range is one that [random.randint] accepts, and it does not
    reach into negative days. *)
Definition delay_range_ok (n : NoiseConfig) : Prop :=
  0 <= fst (log_delay_range n) <= snd (log_delay_range n).

(** A simulator on which a day can be simulated: its dict has the keys [K],
    its tasks are as the loop body needs them, its day is not negative and
    its delay range is in order. *)
Definition ready (K : list string) (s : Simulator.t) : Prop :=
  (forall k, k ∈ K <-> is_Some (dict_get k (tasks s)))
  /\ (forall k t, dict_get k (tasks s) = Some t -> task_ok K t)
  /\ 0 <= day s
  /\ delay_range_ok (noise s).

Section WithRandom.
Context {G : PyRandom}.

(** The state in the middle of a pass over the task under [key], which
    started in the simulator [s0] with the dict [d0], on day [today]: the
    task under [key] is [x] now, and the rest has changed within the frame. *)
Definition tracked (key : string) (d0 : list (string * Task.t)) (s0 : Simulator.t)
    (today : Z) (tid : string) (x : Task.t) (w : World) : Prop :=
  tasks (sim w) = dict_set key x d0 /\ frame today tid s0 (sim w).

(** [random.randint(a, b)] returns no less than [a]. *)
Definition randint_lower : Prop :=
  forall a b g, a <= b -> a <= fst (rng_randint a b g).

(** [returns K m Q]: from a ready state, [m] returns, in a ready state,
    a value that satisfies [Q]. *)
Definition returns {A : Type} (K : list string) (m : M A) (Q : A -> Prop) : Prop :=
  forall w, ready K (sim w) ->
    exists a w', m w = Ok (a, w') /\ ready K (sim w') /\ Q a.

End WithRandom.

End Runs.

(* ===================================================================== *)
(** * decision_support/actions.py and the rest of what_if.py *)
(* ===================================================================== *)

Module Actions.

(** A value of [action_mapping]. *)
Record ActionInfo : Type := mkActionInfo {
  info_priority : string;
  info_action : string;
  info_rationale : string
}.

Definition action_mapping : list (string * ActionInfo) := [
  ("no_resource_available",
   mkActionInfo "HIGH" "Allocate additional resources to this task"
     "Resource bottlenecks directly cause delays");
  ("total_blocked_events",
   mkActionInfo "HIGH" "Conduct root cause analysis for recurring blocks"
     "Systemic blocking indicates process or dependency issues");
  ("dependencies",
   mkActionInfo "MEDIUM" "Review and reduce task dependencies if possible"
     "High coupling propagates delays across tasks");
  ("rework_count",
   mkActionInfo "MEDIUM" "Investigate quality issues causing rework"
     "Rework indicates unclear requirements or technical debt");
  ("max_progress_gap",
   mkActionInfo "MEDIUM" "Increase monitoring frequency or enforce daily updates"
     "Large gaps hide problems and delay detection")
].

(** An entry of [ACTIONS]. *)
Record ActionDef : Type := mkActionDef {
  field : string;
  threshold : Z;
  priority : string;
  action : string;
  rationale : string
}.

Definition _build_actions_from_rules : list ActionDef :=
  fold_left
    (fun actions rule =>
       match dict_get (Rules.field rule) action_mapping with
       | Some info =>
           actions ++ [mkActionDef (Rules.field rule) (Rules.threshold rule)
                         (info_priority info) (info_action info)
                         (info_rationale info)]
       | None => actions
       end)
    Rules.RULES [].

Definition ACTIONS : list ActionDef := _build_actions_from_rules.

(** [priority_order.get(x["priority"], 99)] *)
Definition priority_order : list (string * Z) :=
  [("HIGH", 0); ("MEDIUM", 1); ("LOW", 2)].
Definition priority_key (p : string) : Z :=
  default 99 (dict_get p priority_order).

(** [list.sort(key=...)]: a stable sort, ascending in the key; an element
    goes before the elements after it in the list that have the same key. *)
Fixpoint insert_by {A : Type} (key : A -> Z) (x : A) (l : list A) : list A :=
  match l with
  | [] => [x]
  | y :: l' => if key x <=? key y then x :: l else y :: insert_by key x l'
  end.
Definition sort_by {A : Type} (key : A -> Z) (l : list A) : list A :=
  foldr (insert_by key) [] l.

(** An entry of the list [get_action_details] returns. *)
Record Detail : Type := mkDetail {
  detail_priority : string;
  detail_action : string;
  detail_rationale : string;
  triggered_by : string;
  current_value : Z;
  detail_threshold : Z
}.

Definition triggered (row : gmap string Z) : list ActionDef :=
  List.filter (fun a => threshold a <=? default 0 (row !! field a)) ACTIONS.

Definition NO_ACTION : string :=
  "Continue monitoring – no immediate action required".

Definition recommend_actions (row : gmap string Z) : list string :=
  let triggered_actions := sort_by (fun a => priority_key (priority a)) (triggered row) in
  let actions := map (fun a => ("[" ++ priority a ++ "] " ++ action a)%string) triggered_actions in
  match actions with
  | [] => [NO_ACTION]
  | _ => actions
  end.

Definition get_action_details (row : gmap string Z) : list Detail :=
  sort_by (fun d => priority_key (detail_priority d))
    (map (fun a => mkDetail (priority a) (action a) (rationale a) (field a)
                     (default 0 (row !! field a)) (threshold a))
         (triggered row)).

(** The line [recommend_actions] prints for an action. *)
Definition format_action (a : ActionDef) : string :=
  ("[" ++ priority a ++ "] " ++ action a)%string.

(** The action that [_build_actions_from_rules] derives from a rule. *)
Definition action_of (rule : Rules.Rule) : ActionDef :=
  let info := default (mkActionInfo "" "" "")
                      (dict_get (Rules.field rule) action_mapping) in
  mkActionDef (Rules.field rule) (Rules.threshold rule)
    (info_priority info) (info_action info) (info_rationale info).

(** The triggered actions by priority: the HIGH ones, then the MEDIUM ones. *)
Definition by_priority (row : gmap string Z) : list ActionDef :=
  List.filter (fun a => String.eqb (priority a) "HIGH") (triggered row)
  ++ List.filter (fun a => String.eqb (priority a) "MEDIUM") (triggered row).

(** The elements of a list that a list of flags selects. *)
Fixpoint select {A : Type} (flags : list bool) (l : list A) : list A :=
  match flags, l with
  | b :: flags', x :: l' => if b then x :: select flags' l' else select flags' l'
  | _, _ => []
  end.

End Actions.

Module Impact.
Import WhatIf.

(** A value of [feature_impacts]. *)
Record FeatureImpact : Type := mkFeatureImpact {
  original : Z;
  new : Z;
  change : Z
}.

(** The dict [estimate_scenario_impact] returns: the one with the key
    [error], or the one with [scenario], [description], [feature_impacts]. *)
Inductive Estimate : Type :=
| EstimateError (error : string)
| EstimateOf (scenario description : string)
             (feature_impacts : list (string * FeatureImpact)).

(** [original] is [row.get(feature, 0)], an element of the integer Series
    or the default 0; the sum and the difference are int64 arithmetic. *)
Definition estimate_scenario_impact (row : gmap string Z) (scenario : string)
  : Estimate :=
  match dict_get scenario SCENARIOS with
  | None => EstimateError ("Unknown scenario: " ++ scenario)
  | Some sc =>
      EstimateOf scenario (description sc)
        (fold_left
           (fun impacts '(feature, delta) =>
              let original := default 0 (row !! feature) in
              let new_val := Z.max 0 (int64_wrap (original + delta)) in
              dict_set feature
                (mkFeatureImpact original new_val
                   (int64_wrap (new_val - original))) impacts)
           (effects sc) [])
  end.

End Impact.

(* ===================================================================== *)
(** * The rest of data_pipeline/normalize.py and features.py *)
(* ===================================================================== *)

Module Normalize.

(** A row of the frame [normalize_tasks] returns: the raw row, its two day
    columns with the missing values filled with -1, and the delay label.
    (The day columns hold the days as numbers; they are exact as floats.) *)
Record Row : Type := mkRow {
  raw : TaskRow.t;
  actual_start : Z;
  actual_end : Z;
  delay : Z
}.

(** [compute_delay(row)], on the three columns it reads. *)
Definition compute_delay (planned_duration actual_start actual_end : Z) : Z :=
  if (actual_end <? 0) || (actual_start <? 0) then 0
  else
    let actual_duration := actual_end - actual_start in
    if planned_duration <? actual_duration then 1 else 0.

(** [normalize_tasks(pd.DataFrame(raw["tasks"]))].  A frame built from an
    empty list of records has no columns, and selecting ["actual_end"] from
    it is a [KeyError]. *)
Definition normalize_tasks (tasks : list TaskRow.t) : Res (list Row) :=
  match tasks with
  | [] => Raise (KeyError "actual_end")
  | _ =>
      Ok (map (fun r =>
                 let actual_end := default (-1) (TaskRow.actual_end r) in
                 let actual_start := default (-1) (TaskRow.actual_start r) in
                 mkRow r actual_start actual_end
                   (compute_delay (TaskRow.planned_duration r)
                                  actual_start actual_end))
              tasks)
  end.

End Normalize.

Module Features.
Import Pipeline.

(** The [day] column of the group of a task. *)
Definition days_of (rows : list EventRow.t) (tid : string) : list Z :=
  map EventRow.day (filter (fun e => EventRow.task_id e = tid) rows).

(** [min] and [max] of a group (a group has at least one row). *)
Definition minimum (l : list Z) : Z :=
  match l with
  | [] => 0
  | x :: l' => foldr Z.min x l'
  end.
Definition maximum (l : list Z) : Z :=
  match l with
  | [] => 0
  | x :: l' => foldr Z.max x l'
  end.

Record ProgressRow : Type := mkProgressRow {
  progress_task_id : string;
  progress_events : Z;
  first_progress_day : Z;
  last_progress_day : Z;
  rework_count : Z
}.

Definition compute_progress_features (events : list EventRow.t) : list ProgressRow :=
  let progress :=
    filter (fun e => EventRow.event_type e = EventType.PROGRESS) events in
  let rework :=
    filter (fun e => EventRow.event_type e = EventType.REWORK) events in
  map (fun tid =>
         let days := days_of progress tid in
         (* the left merge with the rework counts, and fillna(0) *)
         mkProgressRow tid (Z.of_nat (length days)) (minimum days) (maximum days)
           (Z.of_nat (length (filter (fun e => EventRow.task_id e = tid) rework))))
      (group_labels (map EventRow.task_id progress)).

Record StagnationRow : Type := mkStagnationRow {
  stagnation_task_id : string;
  max_progress_gap : Z
}.

(** [days[i + 1] - days[i] for i in range(len(days) - 1)] *)
Definition consecutive_gaps (days : list Z) : list Z :=
  zip_with (fun a b => b - a) days (tail days).

(** The body of the loop over the groups. *)
Definition max_gap (group_days : list Z) : Z :=
  let days := merge_sort Z.le group_days in
  if (length days <=? 1)%nat then 0
  else maximum (consecutive_gaps days).

(** The list [gaps] that [compute_stagnation_features] makes a frame of. *)
Definition compute_stagnation_features (events : list EventRow.t)
  : list StagnationRow :=
  let progress :=
    filter (fun e => EventRow.event_type e = EventType.PROGRESS) events in
  map (fun tid => mkStagnationRow tid (max_gap (days_of progress tid)))
      (group_labels (map EventRow.task_id progress)).

(** The rows that the group-by of [compute_block_features] groups: the
    blocked rows whose reason is not null. *)
Definition grouped_rows (events : list EventRow.t) : list EventRow.t :=
  filter (fun e => EventRow.reason e <> None)
    (filter (fun e => EventRow.event_type e = EventType.BLOCKED) events).

(** The order of the labels of a group-by. *)
Definition string_lt (a b : string) : Prop := String.compare a b = Lt.

(** The first merge of [build_task_features], on the column
    [total_blocked_events]: the cell in the row of task [tid], a missing
    cell read as the 0 that the final [fillna(0)] writes into it. *)
Definition merged_total_blocked_events (block_features : list BlockRow)
    (tid : string) : Z :=
  match List.find (fun r => String.eqb (block_task_id r) tid) block_features with
  | Some r => total_blocked_events r
  | None => 0
  end.

(** [build_task_features(tasks, events)] merges the tasks with the three
    feature frames on [task_id], then fills the missing cells with 0.
    [compute_stagnation_features] makes its frame of the list [gaps], which
    has one entry per task with a progress event: when no event is a
    progress event the list is empty, the frame has no columns, and the
    third merge raises [KeyError('task_id')].  Otherwise the frame is
    returned; [build_task_features_block] and [build_task_features_total]
    are its cells in the row of task [tid], in a reason column and in
    [total_blocked_events]. *)
Definition build_task_features_block (events : list EventRow.t)
    (tid col : string) : Res Z :=
  match compute_stagnation_features events with
  | [] => Raise (KeyError "task_id")
  | _ :: _ => Ok (merged_block_feature (compute_block_features events) tid col)
  end.

Definition build_task_features_total (events : list EventRow.t) (tid : string)
  : Res Z :=
  match compute_stagnation_features events with
  | [] => Raise (KeyError "task_id")
  | _ :: _ => Ok (merged_total_blocked_events (compute_block_features events) tid)
  end.

(** [r] is what a cell of [build_task_features(tasks, events)] should be:
    the value [v] when the events hold a progress event, and else the
    [KeyError] of the merge. *)
Definition cell_is (events : list EventRow.t) (r : Res Z) (v : Z) : Prop :=
  match r with
  | Ok x =>
      x = v /\ Exists (fun e => EventRow.event_type e = EventType.PROGRESS) events
  | Raise e =>
      e = KeyError "task_id"
      /\ Forall (fun e => EventRow.event_type e <> EventType.PROGRESS) events
  end.

(** The number of blocked events of a task among the events: all of them,
    those with the reason [c], and those with a reason of the vocabulary. *)
Definition blocked_events (events : list EventRow.t) (tid : string) : Z :=
  Z.of_nat (length (filter (fun e => EventRow.event_type e = EventType.BLOCKED
                                     /\ EventRow.task_id e = tid) events)).
Definition blocked_for (events : list EventRow.t) (tid c : string) : Z :=
  Z.of_nat (length (filter (fun e => EventRow.event_type e = EventType.BLOCKED
                                     /\ EventRow.task_id e = tid
                                     /\ EventRow.reason e = Some c) events)).
Definition blocked_known (events : list EventRow.t) (tid : string) : Z :=
  Z.of_nat (length (filter (fun e => EventRow.event_type e = EventType.BLOCKED
                                     /\ EventRow.task_id e = tid
                                     /\ EventRow.reason e ∈ Some <$> REASON_COLUMNS)
                           events)).

End Features.

(** More inputs for the examples. *)
Module MoreSamples.
Import Simulator Samples.
(** A task that depends on a task the project does not have. *)
Definition T3 : Task.t :=
  Task.mk "T3" 2 1 Priority.HIGH "dev" ["T9"] None None 0%float
          TaskStatus.NOT_STARTED.

(** The project of two tasks and one resource, as constructed. *)
Definition project : World (G := Tape.gen) :=
  init (G := Tape.gen) [T1; T2] [R1] 42 None Tape.draws.

(** The state that [run(days)] leaves, or the state it started from if it
    raises. *)
Definition after (days : Z) (w : World (G := Tape.gen)) : World (G := Tape.gen) :=
  match run (G := Tape.gen) days w with
  | Ok (_, w') => w'
  | Raise _ => w
  end.

(** The project after twelve days, and at the end of a whole run. *)
Definition halfway : World (G := Tape.gen) := Eval vm_compute in after 12 project.
Definition finished : World (G := Tape.gen) := Eval vm_compute in after 100 project.

(** A simulator with a delay range that [randint] rejects, with the
    generator about to deal 0.62 (no drop) and 0.07 (a delay). *)
Definition BAD_RANGE : NoiseConfig :=
  mkNoise 0%float 0%float 0%float 0%float (3, 1).
Definition misconfigured : World (G := Tape.gen) :=
  mkWorld (G := Tape.gen) (mk (tasks_dict [T1]) [R1] [] [] 1 BAD_RANGE)
          [0.62; 0.07]%float.

(** Three rows of an events table. *)
Definition E1 : EventRow.t := EventRow.mk 1 "T1" EventType.PROGRESS None 1 false.
Definition E2 : EventRow.t :=
  EventRow.mk 2 "T1" EventType.BLOCKED (Some "dependencies") 2 false.
Definition E3 : EventRow.t := EventRow.mk 4 "T1" EventType.PROGRESS None 4 false.
End MoreSamples.

(* ===================================================================== *)
(** * Facts about dicts *)
(* ===================================================================== *)

Section DictFacts.
Context {V : Type}.
Implicit Types (d : list (string * V)) (k : string) (v : V).

Lemma dict_get_None k d : dict_get k d = None <-> k ∉ d.*1.
Proof.
  induction d as [|[k' v'] d IH]; simpl.
  - split; [intros _; apply not_elem_of_nil | done].
  - rewrite not_elem_of_cons. destruct (String.eqb_spec k k') as [->|Hne].
    + split; [discriminate | intros [? _]; done].
    + rewrite IH. tauto.
Qed.

Lemma dict_get_Some_elem k v d : dict_get k d = Some v -> (k, v) ∈ d.
Proof.
  induction d as [|[k' v'] d IH]; simpl; [discriminate|].
  destruct (String.eqb_spec k k') as [->|Hne].
  - intros [= ->]. apply elem_of_cons; by left.
  - intros H. apply elem_of_cons; right; auto.
Qed.

Lemma dict_get_NoDup k v d : NoDup d.*1 -> (k, v) ∈ d -> dict_get k d = Some v.
Proof.
  induction d as [|[k' v'] d IH]; simpl; intros Hnd Hin.
  - by apply elem_of_nil in Hin.
  - apply NoDup_cons in Hnd as [Hk Hnd].
    apply elem_of_cons in Hin as [[= -> ->]|Hin].
    + by rewrite String.eqb_refl.
    + destruct (String.eqb_spec k k') as [->|Hne]; [|auto].
      exfalso. apply Hk. change k' with (fst (k', v)).
      by apply list_elem_of_fmap_2.
Qed.

Lemma dict_get_set_eq k v d : dict_get k (dict_set k v d) = Some v.
Proof.
  induction d as [|[k' v'] d IH]; simpl.
  - by rewrite String.eqb_refl.
  - destruct (String.eqb_spec k k') as [->|Hne]; simpl.
    + by rewrite String.eqb_refl.
    + destruct (String.eqb_spec k k'); [done|]. exact IH.
Qed.

Lemma dict_get_set_ne k k' v d :
  k <> k' -> dict_get k' (dict_set k v d) = dict_get k' d.
Proof.
  intros Hne. induction d as [|[k0 v0] d IH]; simpl.
  - destruct (String.eqb_spec k' k); [congruence|done].
  - destruct (String.eqb_spec k k0) as [->|Hne0]; simpl.
    + destruct (String.eqb_spec k' k0); [congruence|done].
    + destruct (String.eqb_spec k' k0); [done|]. exact IH.
Qed.

Lemma dict_set_set k v1 v2 d : dict_set k v2 (dict_set k v1 d) = dict_set k v2 d.
Proof.
  induction d as [|[k' v'] d IH]; simpl.
  - by rewrite String.eqb_refl.
  - destruct (String.eqb_spec k k') as [->|Hne]; simpl.
    + by rewrite String.eqb_refl.
    + destruct (String.eqb_spec k k'); [done|]. by rewrite IH.
Qed.

Lemma dict_set_id k v d : dict_get k d = Some v -> dict_set k v d = d.
Proof.
  induction d as [|[k' v'] d IH]; simpl; [discriminate|].
  destruct (String.eqb_spec k k') as [->|Hne].
  - by intros [= ->].
  - intros H. by rewrite IH.
Qed.

Lemma dict_set_Forall (P : string * V -> Prop) k v d :
  Forall P d -> (forall k', P (k', v)) -> Forall P (dict_set k v d).
Proof.
  intros Hd Hv. induction Hd as [|[k' v'] d Hx Hd IH]; simpl.
  - by constructor.
  - destruct (String.eqb k k'); constructor; auto.
Qed.

Lemma dict_set_elem k v d kx x :
  (kx, x) ∈ dict_set k v d -> (kx, x) ∈ d \/ x = v.
Proof.
  induction d as [|[k' v'] d IH]; simpl.
  - intros H. apply list_elem_of_singleton in H as [= -> ->]. by right.
  - destruct (String.eqb k k').
    + intros H. apply elem_of_cons in H as [[= -> ->]|H]; [by right|].
      left. by apply elem_of_cons; right.
    + intros H. apply elem_of_cons in H as [[= -> ->]|H].
      * left. apply elem_of_cons; by left.
      * destruct (IH H); [left; apply elem_of_cons; by right | by right].
Qed.
End DictFacts.

(* ===================================================================== *)
(** * The rule engine *)
(* ===================================================================== *)

Section RulesFacts.
Import Rules SpecWords.

(** The loop adds the scores of the fired rules to the running total and
    their reasons to the end of the running list. *)
Lemma apply_rules_spec (rules : list Rule) (row : gmap string Z) total reasons :
  apply_rules rules row (total, reasons) =
    (total + sum_scores (List.filter (fires row) rules),
     reasons ++ map reason_of (List.filter (fires row) rules)).
Proof.
  revert total reasons.
  induction rules as [|rule rules IH]; intros total reasons; simpl.
  - by rewrite Z.add_0_r, app_nil_r.
  - unfold apply_rules in *. simpl. unfold fires at 1 4.
    destruct (threshold rule <=? default 0 (row !! field rule)); simpl.
    + rewrite IH. f_equal; [lia|]. by rewrite <- app_assoc.
    + apply IH.
Qed.

(** Whatever fires, the sum is between 0 and the 90 of all five rules. *)
Lemma fired_scores_bounds (row : gmap string Z) :
  0 <= sum_scores (fired_rules row) <= 90.
Proof.
  unfold fired_rules, RULES. simpl.
  repeat match goal with
         | |- context [if fires ?r ?x then _ else _] => destruct (fires r x)
         end; simpl; lia.
Qed.

(** C4.  For every feature record, [rule_based_risk] returns the sum of the
    contributions of exactly the rules whose field value (0 when the field
    is absent) is at least the threshold, clamped to [0,100], together with
    the reasons of those rules in rule-declaration order; the score is
    between 0 and 100. *)
Theorem rule_based_risk_spec (row : gmap string Z) :
  rule_based_risk row = (spec_rule_score row, spec_reasons row)
  /\ 0 <= fst (rule_based_risk row) <= 100.
Proof.
  assert (E : rule_based_risk row = (spec_rule_score row, spec_reasons row)).
  { unfold rule_based_risk. rewrite apply_rules_spec.
    fold (fired_rules row). cbv beta iota. rewrite Z.add_0_l, app_nil_l.
    unfold spec_rule_score, spec_reasons, clamp.
    pose proof (fired_scores_bounds row) as B.
    f_equal. lia. }
  split; [exact E|]. rewrite E. simpl.
  unfold spec_rule_score, clamp. lia.
Qed.

(** The scenario literal of the specification: all thresholds met exactly
    gives the score 90 and five reasons. *)
Example rule_based_risk_thresholds_met :
  fst (rule_based_risk Samples.thresholds_met) = 90
  /\ length (snd (rule_based_risk Samples.thresholds_met)) = 5%nat.
Proof. split; vm_compute; reflexivity. Qed.

End RulesFacts.

(* ===================================================================== *)
(** * The hybrid scorer *)
(* ===================================================================== *)

Section HybridFacts.
Import HybridRisk SpecWords.

(** Truncation and floor differ on negative numbers only, and clamping to
    [0,100] sends both to 0 there. *)
Lemma sf_trunc_floor_clamp (x : spec_float) (n : Z) :
  sf_floor x = Some n ->
  exists z, sf_trunc x = Some z /\ clamp 0 100 z = clamp 0 100 n.
Proof.
  destruct x as [s|s| |s m e]; simpl; try discriminate.
  - intros [= <-]. by exists 0.
  - intros [= <-]. eexists; split; [reflexivity|].
    destruct s; [|reflexivity].
    assert (Ha : 0 <= match e with
                      | Z.neg k => Z.pos m / 2 ^ Z.pos k
                      | _ => Z.pos m * 2 ^ e
                      end).
    { destruct e as [|k|k].
      - lia.
      - assert (0 < 2 ^ Z.pos k) by (apply Z.pow_pos_nonneg; lia). nia.
      - apply Z.div_pos; [lia|]. apply Z.pow_pos_nonneg; lia. }
    assert (Hb : match e with
                 | Z.neg k => Z.neg m / 2 ^ Z.pos k
                 | _ => Z.neg m * 2 ^ e
                 end <= 0).
    { destruct e as [|k|k].
      - lia.
      - assert (0 < 2 ^ Z.pos k) by (apply Z.pow_pos_nonneg; lia). nia.
      - assert (0 < 2 ^ Z.pos k) by (apply Z.pow_pos_nonneg; lia).
        apply Z.div_le_upper_bound; lia. }
    unfold clamp. lia.
Qed.

Lemma py_int_floor (x : float) (n : Z) :
  float_floor x = Some n ->
  exists z, py_int x = Ok z /\ clamp 0 100 z = clamp 0 100 n.
Proof.
  unfold float_floor, py_int. intros H.
  destruct (sf_trunc_floor_clamp _ _ H) as (z & -> & Hz). eauto.
Qed.

(** Where the weighted sum has no floor (NaN, an infinity), [int] raises. *)
Lemma py_int_not_floor (x : float) :
  float_floor x = None -> exists e, py_int x = Raise e.
Proof.
  unfold float_floor, py_int.
  destruct (Prim2SF x) as [s|s| |s m e]; simpl; try discriminate; intros _;
    destruct (is_nan x); eauto.
Qed.

Lemma clamp_bounds lo hi x : lo <= hi -> lo <= clamp lo hi x <= hi.
Proof. unfold clamp. lia. Qed.

(** C5, amended.  Whenever the weighted sum
    [rule_weight * rule_score + ml_weight * (ml_probability * 100)], with
    the rule score of the rule engine on the record and every operation
    rounded to binary64 in this grouping, is a finite number with floor [n],
    the scorer returns the final score [n] clamped to [0,100]; the level is
    High when the score is at least the high threshold, Medium when it is at
    least the medium threshold, else Low.  At a score equal to the high
    threshold the level is High; at a score equal to the medium threshold
    it is Medium provided the medium threshold is below the high one; at
    the medium threshold minus one it is Low provided that value is below
    the high threshold. *)
Theorem hybrid_risk_score_formula (row : gmap string Z) (ml_probability : float)
    (config : option Config) (n : Z) :
  let st := settings_of config in
  let rs := fst (Rules.rule_based_risk row) in
  float_floor (rule_weight st * float_of_Z rs
               + ml_weight st * (ml_probability * 100))%float = Some n ->
  exists r,
    hybrid_risk_score row ml_probability config = Ok r
    /\ risk_score r = clamp 0 100 n
    /\ 0 <= risk_score r <= 100
    /\ risk_level r = spec_level (high_threshold st) (medium_threshold st) (risk_score r)
    /\ (risk_score r = high_threshold st -> risk_level r = "High")
    /\ (risk_score r = medium_threshold st ->
        medium_threshold st < high_threshold st -> risk_level r = "Medium")
    /\ (risk_score r = medium_threshold st - 1 ->
        medium_threshold st - 1 < high_threshold st -> risk_level r = "Low").
Proof.
  intros st rs Hn. unfold hybrid_risk_score. fold st.
  destruct (Rules.rule_based_risk row) as [rule_score reasons] eqn:Er.
  simpl in rs. subst rs. unfold weighted_sum.
  destruct (py_int_floor _ _ Hn) as (z & -> & Hz).
  eexists; split; [reflexivity|]. simpl.
  change (Z.max 0 (Z.min 100 z)) with (clamp 0 100 z). rewrite Hz.
  split; [reflexivity|]. split; [apply clamp_bounds; lia|].
  split; [reflexivity|]. unfold spec_level.
  repeat split; intros.
  - destruct (Z.leb_spec (high_threshold st) (clamp 0 100 n)); [done|lia].
  - destruct (Z.leb_spec (high_threshold st) (clamp 0 100 n)); [lia|].
    destruct (Z.leb_spec (medium_threshold st) (clamp 0 100 n)); [done|lia].
  - destruct (Z.leb_spec (high_threshold st) (clamp 0 100 n)); [lia|].
    destruct (Z.leb_spec (medium_threshold st) (clamp 0 100 n)); [lia|done].
Qed.

(** On the record that meets every threshold the rule score is 90; with the
    probability 0.5 and the default weights 0.6 and 0.4 the weighted sum is
    74, the final score 74 and the level High.  On the empty record the
    rule score is 0, the final score 20 and the level Low. *)
Lemma hybrid_risk_score_formula_witness :
  fst (Rules.rule_based_risk Samples.thresholds_met) = 90
  /\ float_floor (0.6 * float_of_Z 90 + 0.4 * (0.5 * 100))%float = Some 74
  /\ (exists r, hybrid_risk_score Samples.thresholds_met 0.5%float None = Ok r
         /\ risk_score r = 74 /\ risk_level r = "High")
  /\ float_floor (0.6 * float_of_Z 0 + 0.4 * (0.5 * 100))%float = Some 20
  /\ (exists r, hybrid_risk_score ∅ 0.5%float None = Ok r
         /\ risk_score r = 20 /\ risk_level r = "Low").
Proof.
  assert (Hrs : fst (Rules.rule_based_risk Samples.thresholds_met) = 90)
    by (vm_compute; reflexivity).
  assert (Hn : float_floor (0.6 * float_of_Z 90 + 0.4 * (0.5 * 100))%float = Some 74)
    by (vm_compute; reflexivity).
  assert (Hm : float_floor (0.6 * float_of_Z 0 + 0.4 * (0.5 * 100))%float = Some 20)
    by (vm_compute; reflexivity).
  split; [exact Hrs|]. split; [exact Hn|]. split; [|split; [exact Hm|]].
  - destruct (hybrid_risk_score_formula Samples.thresholds_met 0.5%float None 74)
      as (r & Hr & Hs & _ & Hl & _).
    { cbv zeta. rewrite Hrs. exact Hn. }
    exists r. split; [exact Hr|]. split; [exact Hs|]. rewrite Hl, Hs. reflexivity.
  - assert (Hrs0 : fst (Rules.rule_based_risk ∅) = 0) by (vm_compute; reflexivity).
    destruct (hybrid_risk_score_formula ∅ 0.5%float None 20)
      as (r & Hr & Hs & _ & Hl & _).
    { cbv zeta. rewrite Hrs0. exact Hm. }
    exists r. split; [exact Hr|]. split; [exact Hs|]. rewrite Hl, Hs. reflexivity.
Defined.

(** C5 as stated fails on the code.  With both thresholds at 40, the score
    40 equals the medium threshold and the level is High, not Medium.  With
    a rule weight of 1e308 the weighted sum overflows to infinity and the
    scorer raises instead of returning a score.  And the sum is a binary64
    computation in the grouping of the code, which no other reading of the
    formula reproduces: with the default weights, rule score 0 and
    probability 0.7 the scorer returns 28, while the product
    [ml_weight * ml_probability * 100] taken from left to right in binary64
    gives 27, and so does the formula in exact arithmetic on the values of
    the three floats; with the weights 0 and 1 and the probability 0.29
    (the float nearest to 29/100, just below it) the scorer returns 28,
    while the formula in exact arithmetic on 29/100 gives 29. *)
Lemma hybrid_score_is_not_the_claimed_formula :
  (exists r,
      hybrid_risk_score ∅ 0.4%float (Samples.config 0%float 1%float 40 40) = Ok r
      /\ risk_score r = medium_threshold
                          (settings_of (Samples.config 0%float 1%float 40 40))
      /\ risk_level r = "High" /\ risk_level r <> "Medium")
  /\ hybrid_risk_score (<["no_resource_available" := 1]> ∅) 0.5%float
       (Samples.config 1e308%float 0.4%float 70 40) = Raise OverflowError
  /\ (exists r rw mw p,
        hybrid_risk_score ∅ 0.7%float None = Ok r
        /\ rule_score r = 0 /\ risk_score r = 28
        /\ py_int (0.6 * float_of_Z 0 + 0.4 * 0.7 * 100)%float = Ok 27
        /\ float_value 0.6%float = Some rw
        /\ float_value 0.4%float = Some mw
        /\ float_value 0.7%float = Some p
        /\ spec_final_score rw mw p 0 = 27)
  /\ (exists r p,
        hybrid_risk_score ∅ 0.29%float (Samples.config 0%float 1%float 70 40) = Ok r
        /\ rule_score r = 0 /\ risk_score r = 28
        /\ float_value 0.29%float = Some p
        /\ Qlt p (Qmake 29 100)
        /\ Qlt (Qminus (Qmake 29 100) p) (Qmake 1 (2 ^ 55))
        /\ spec_final_score (inject_Z 0) (inject_Z 1) (Qmake 29 100) 0 = 29).
Proof.
  split; [|split; [|split]].
  - eexists. split; [vm_compute; reflexivity|]. simpl. repeat split. discriminate.
  - vm_compute. reflexivity.
  - do 4 eexists. split; [vm_compute; reflexivity|].
    repeat split; vm_compute; reflexivity.
  - do 2 eexists. split; [vm_compute; reflexivity|].
    repeat split; vm_compute; reflexivity.
Qed.

(** C6, amended.  Whenever the scorer returns, its result holds the weights
    actually applied and the rule score: [weights_used] are the weights the
    configuration resolves to, [rule_score] is the score of the rule engine
    on the row, and the final score is the one these reproduce together
    with the probability. *)
Theorem hybrid_result_audit (row : gmap string Z) (ml_probability : float)
    (config : option Config) (r : Result) :
  hybrid_risk_score row ml_probability config = Ok r ->
  let st := settings_of config in
  weights_used r = mkWeightsUsed (rule_weight st) (ml_weight st)
  /\ rule_score r = fst (Rules.rule_based_risk row)
  /\ exists z,
       py_int (used_rule_weight (weights_used r) * float_of_Z (rule_score r)
               + used_ml_weight (weights_used r) * (ml_probability * 100))%float
         = Ok z
       /\ risk_score r = clamp 0 100 z.
Proof.
  intros H st. unfold hybrid_risk_score in H. fold st in H.
  destruct (Rules.rule_based_risk row) as [rs reasons] eqn:Er.
  destruct (py_int (weighted_sum st rs ml_probability)) as [z|e] eqn:Ez;
    [|discriminate].
  injection H as <-. simpl. split; [done|]. split; [done|].
  exists z. split; [exact Ez|done].
Qed.

Lemma hybrid_result_audit_witness :
  exists r, hybrid_risk_score Samples.thresholds_met 0.5%float None = Ok r
    /\ weights_used r = mkWeightsUsed DEFAULT_RULE_WEIGHT DEFAULT_ML_WEIGHT
    /\ rule_score r = 90.
Proof.
  eexists. split; [vm_compute; reflexivity|].
  destruct (hybrid_result_audit Samples.thresholds_met 0.5%float None _
              ltac:(vm_compute; reflexivity)) as (Hw & Hr & _).
  split; [exact Hw|]. rewrite Hr. vm_compute. reflexivity.
Defined.

(** C6 as stated fails on the code: the result does not hold the thresholds
    that were applied.  Two configurations with different thresholds give
    the very same result, so the thresholds cannot be read off it. *)
Lemma hybrid_result_omits_thresholds :
  hybrid_risk_score ∅ 0.5%float (Samples.config 0.6%float 0.4%float 70 40)
    = hybrid_risk_score ∅ 0.5%float (Samples.config 0.6%float 0.4%float 80 50)
  /\ (exists r, hybrid_risk_score ∅ 0.5%float
                  (Samples.config 0.6%float 0.4%float 70 40) = Ok r)
  /\ high_threshold (settings_of (Samples.config 0.6%float 0.4%float 70 40))
     <> high_threshold (settings_of (Samples.config 0.6%float 0.4%float 80 50))
  /\ medium_threshold (settings_of (Samples.config 0.6%float 0.4%float 70 40))
     <> medium_threshold (settings_of (Samples.config 0.6%float 0.4%float 80 50)).
Proof.
  split; [vm_compute; reflexivity|].
  split; [eexists; vm_compute; reflexivity|].
  split; vm_compute; discriminate.
Qed.

End HybridFacts.

(* ===================================================================== *)
(** * The what-if engine *)
(* ===================================================================== *)

Section WhatIfFacts.
Import WhatIf SpecWords.

(** Inside the int64 range nothing wraps. *)
Lemma int64_wrap_id (z : Z) : INT64_MIN <= z <= INT64_MAX -> int64_wrap z = z.
Proof.
  unfold int64_wrap, INT64_MIN, INT64_MAX. intros H.
  rewrite Z.mod_small; lia.
Qed.

Lemma no_wrap_get0 (row : gmap string Z) (f : string) :
  no_wrap row -> INT64_MIN + 2 <= get0 row f <= INT64_MAX.
Proof.
  intros H. unfold get0. destruct (row !! f) as [v|] eqn:E; simpl.
  - exact (H f v E).
  - unfold INT64_MIN, INT64_MAX. lia.
Qed.

(** With pairwise distinct feature names, the loop changes a feature of the
    mapping once, if the row has it, and no other feature. *)
Lemma apply_effects_lookup (effects : list (string * Z)) (row : gmap string Z)
    (f : string) :
  NoDup effects.*1 ->
  apply_effects effects row !! f =
    match dict_get f effects with
    | Some delta => (fun v => Z.max 0 (int64_wrap (v + delta))) <$> row !! f
    | None => row !! f
    end.
Proof.
  revert row. induction effects as [|[g delta] effects IH]; intros row Hnd.
  - reflexivity.
  - simpl in Hnd. apply NoDup_cons in Hnd as [Hg Hnd].
    unfold apply_effects in *. simpl fold_left. rewrite IH by done. simpl dict_get.
    destruct (String.eqb_spec f g) as [->|Hne].
    + apply dict_get_None in Hg. rewrite Hg.
      destruct (row !! g) as [c|] eqn:Ec.
      * by rewrite lookup_insert_eq.
      * by rewrite Ec.
    + destruct (row !! g) as [c|]; [|done].
      rewrite lookup_insert_ne by done. done.
Qed.

Lemma scenarios_keys : SCENARIOS.*1 = scenario_names.
Proof. reflexivity. Qed.

(** Every scenario names each feature once, and every delta is -2, -1 or 0. *)
Lemma scenario_effects (scenario : string) (sc : Scenario) :
  dict_get scenario SCENARIOS = Some sc ->
  NoDup (effects sc).*1 /\ Forall (fun fd => -2 <= snd fd <= 0) (effects sc).
Proof.
  intros H. apply dict_get_Some_elem in H. unfold SCENARIOS in H.
  repeat (apply elem_of_cons in H as [[= -> ->]|H]);
    try (by apply elem_of_nil in H);
    (split; [apply (bool_decide_unpack _); vm_compute; exact I|]);
    repeat constructor; simpl; lia.
Qed.

(** C7.  For every recognized scenario name [simulate_what_if] returns a
    record.  On every feature record whose values stay inside the int64
    range under the scenario's deltas (every record of non-negative counts
    does), each field named by the scenario's mapping holds max(0, old value
    + delta): a field of the mapping that the record lacks stays absent,
    which reads as 0 = max(0, 0 + delta) under get-with-default-zero.  On
    every record, every perturbed field is non-negative and every other
    field is unchanged.  On {no_resource_available: 2,
    total_blocked_events: 5} the scenario add_resource gives 1 and 4. *)
Theorem simulate_what_if_applies_effects (row : gmap string Z) (scenario : string) :
  scenario ∈ scenario_names ->
  exists sc out,
    dict_get scenario SCENARIOS = Some sc
    /\ simulate_what_if row scenario = Ok out
    /\ (no_wrap row ->
        forall f delta, (f, delta) ∈ effects sc ->
          out !! f = (fun v => Z.max 0 (v + delta)) <$> row !! f
          /\ get0 out f = Z.max 0 (get0 row f + delta))
    /\ (forall f, f ∉ (effects sc).*1 -> out !! f = row !! f)
    /\ (forall f delta v, (f, delta) ∈ effects sc -> out !! f = Some v -> 0 <= v)
    /\ (simulate_what_if Samples.two_fields "add_resource" =
          Ok (<["no_resource_available" := 1]> (<["total_blocked_events" := 4]> ∅))).
Proof.
  intros Hin. rewrite <- scenarios_keys in Hin.
  destruct (dict_get scenario SCENARIOS) as [sc|] eqn:Esc;
    [|by apply dict_get_None in Esc].
  destruct (scenario_effects _ _ Esc) as [Hnd Hneg].
  exists sc, (apply_effects (effects sc) row).
  split; [done|]. split; [unfold simulate_what_if; by rewrite Esc|].
  assert (Hl : forall f delta, (f, delta) ∈ effects sc ->
            apply_effects (effects sc) row !! f
            = (fun v => Z.max 0 (int64_wrap (v + delta))) <$> row !! f).
  { intros f delta Hfd. rewrite apply_effects_lookup by done.
    by rewrite (dict_get_NoDup _ _ _ Hnd Hfd). }
  rewrite Forall_forall in Hneg.
  split; [|split; [|split]].
  - intros Hnw f delta Hfd. specialize (Hneg _ Hfd). simpl in Hneg.
    pose proof (no_wrap_get0 row f Hnw) as Hf. unfold get0 in *.
    rewrite (Hl _ _ Hfd).
    destruct (row !! f) as [v|]; simpl in *.
    + rewrite int64_wrap_id by lia. done.
    + split; [done|lia].
  - intros f Hf. rewrite apply_effects_lookup by done.
    apply dict_get_None in Hf. by rewrite Hf.
  - intros f delta v Hfd. rewrite (Hl _ _ Hfd).
    destruct (row !! f); simpl; [|discriminate]. intros [= <-]. lia.
  - vm_compute. reflexivity.
Qed.

Lemma no_wrap_two_fields : no_wrap Samples.two_fields.
Proof.
  unfold no_wrap, Samples.two_fields.
  repeat (apply map_Forall_insert_2;
          [unfold INT64_MIN, INT64_MAX; lia|]).
  apply map_Forall_empty.
Qed.

Lemma simulate_what_if_applies_effects_witness :
  "add_resource" ∈ scenario_names
  /\ no_wrap Samples.two_fields
  /\ exists out,
       simulate_what_if Samples.two_fields "add_resource" = Ok out
       /\ out !! "no_resource_available" = Some (Z.max 0 (2 + -1))
       /\ out !! "total_blocked_events" = Some (Z.max 0 (5 + -1))
       /\ out = <["no_resource_available" := 1]> (<["total_blocked_events" := 4]> ∅).
Proof.
  assert (Hin : "add_resource" ∈ scenario_names)
    by (apply (bool_decide_unpack _); vm_compute; exact I).
  split; [exact Hin|]. split; [exact no_wrap_two_fields|].
  destruct (simulate_what_if_applies_effects Samples.two_fields "add_resource" Hin)
    as (sc & out & Hsc & Hout & Hval & _ & _ & E).
  exists out. split; [exact Hout|].
  injection Hsc as <-.
  split; [|split].
  - exact (proj1 (Hval no_wrap_two_fields "no_resource_available" (-1)
                    ltac:(apply elem_of_cons; by left))).
  - exact (proj1 (Hval no_wrap_two_fields "total_blocked_events" (-1)
                    ltac:(apply elem_of_cons; right; apply elem_of_cons; by left))).
  - rewrite E in Hout. by injection Hout.
Defined.

(** C8.  [simulate_what_if] raises exactly when the scenario name is not
    one of add_resource, reduce_dependencies, improve_process; what it
    raises then is the ValueError that names the unknown scenario, so it
    neither returns the input record nor any other record; for a defined
    scenario it returns a record. *)
Theorem simulate_what_if_unknown_scenario (row : gmap string Z) (scenario : string) :
  ((exists e, simulate_what_if row scenario = Raise e) <-> scenario ∉ scenario_names)
  /\ (scenario ∉ scenario_names ->
        simulate_what_if row scenario = Raise (unknown_scenario_error scenario)
        /\ simulate_what_if row scenario <> Ok row)
  /\ (scenario ∈ scenario_names -> exists out, simulate_what_if row scenario = Ok out).
Proof.
  rewrite <- scenarios_keys. unfold simulate_what_if, unknown_scenario_error.
  destruct (dict_get scenario SCENARIOS) as [sc|] eqn:E.
  - assert (Hin : scenario ∈ SCENARIOS.*1).
    { apply dict_get_Some_elem in E. change scenario with (fst (scenario, sc)).
      by apply list_elem_of_fmap_2. }
    split; [|split].
    + split; [intros [e He]; discriminate | done].
    + done.
    + eauto.
  - apply dict_get_None in E. split; [|split].
    + split; [done | eauto].
    + intros _. split; [reflexivity | discriminate].
    + done.
Qed.

Lemma simulate_what_if_unknown_scenario_witness :
  ("invalid_scenario" ∉ scenario_names)
  /\ simulate_what_if Samples.two_fields "invalid_scenario" =
       Raise (ValueError
         "Unknown scenario 'invalid_scenario'. Valid: ['add_resource', 'reduce_dependencies', 'improve_process']")
  /\ simulate_what_if Samples.two_fields "invalid_scenario" <> Ok Samples.two_fields.
Proof.
  assert (Hout : "invalid_scenario" ∉ scenario_names)
    by (apply (bool_decide_unpack _); vm_compute; exact I).
  split; [exact Hout|].
  exact (proj1 (proj2 (simulate_what_if_unknown_scenario Samples.two_fields
                         "invalid_scenario")) Hout).
Defined.

End WhatIfFacts.

(* ===================================================================== *)
(** * The data pipeline *)
(* ===================================================================== *)

Section InsertionSortFacts.
Import InsertionSort.

Lemma insert_perm key x l : insert key x l ≡ₚ x :: l.
Proof.
  induction l as [|y l IH]; simpl; [done|].
  destruct (key x <? key y); [done|]. rewrite IH. apply Permutation_swap.
Qed.

Lemma sort_perm key l : sort key l ≡ₚ l.
Proof.
  induction l as [|x l IH]; simpl; [done|]. by rewrite insert_perm, IH.
Qed.

Lemma insert_sorted key x l :
  Sorted (fun a b => key a <= key b) l ->
  Sorted (fun a b => key a <= key b) (insert key x l).
Proof.
  induction l as [|y l IH]; simpl; intros Hs.
  - repeat constructor.
  - destruct (Z.ltb_spec (key x) (key y)).
    + constructor; [done|]. constructor. lia.
    + apply Sorted_inv in Hs as [Hs Hhd]. constructor; [by apply IH|].
      destruct l as [|z l]; simpl.
      * constructor. lia.
      * destruct (Z.ltb_spec (key x) (key z)); constructor; [lia|].
        by apply HdRel_inv in Hhd.
Qed.

Lemma sort_sorted key l : Sorted (fun a b => key a <= key b) (sort key l).
Proof.
  induction l as [|x l IH]; simpl; [constructor|]. by apply insert_sorted.
Qed.

(** Insertion sort is a [sort_values]. *)
Definition insertion_frame_sort : FrameSort :=
  {| sort_values := sort; sort_values_perm := sort_perm;
     sort_values_sorted := sort_sorted |}.

End InsertionSortFacts.

Section PipelineFacts.
Import Pipeline Invariants.
Context {FS : FrameSort}.

(** Ingestion followed by normalization returns, in some order, one row per
    logged event, and fails only on an empty log. *)
Lemma normalize_ingested (simulator : Simulator.t) :
  match normalize_events (raw_events (ingest_simulation simulator)) with
  | Ok rows =>
      Simulator.logs simulator <> []
      /\ rows ≡ₚ map normalized_row (Simulator.logs simulator)
  | Raise e => Simulator.logs simulator = [] /\ e = KeyError "observed_day"
  end.
Proof.
  unfold normalize_events, ingest_simulation. simpl.
  destruct (Simulator.logs simulator) as [|ev evs]; [done|].
  simpl. split; [done|]. rewrite sort_values_perm. simpl.
  constructor. by rewrite <- list_fmap_compose.
Qed.

(** C9.  For every simulator object, hence for every event stream a run
    leaves in it, ingestion followed by normalization gives one row per
    logged event, each with observed_day equal to day and is_delayed_log
    False: the day a delayed event carries is the only day it has.  (On an
    empty log the normalization raises, and there is no row.) *)
Theorem ingested_events_never_delayed (simulator : Simulator.t) :
  match normalize_events (raw_events (ingest_simulation simulator)) with
  | Ok rows =>
      Forall (fun r => EventRow.observed_day r = EventRow.day r
                       /\ EventRow.is_delayed_log r = false) rows
      /\ length rows = length (Simulator.logs simulator)
  | Raise e => Simulator.logs simulator = [] /\ e = KeyError "observed_day"
  end.
Proof.
  pose proof (normalize_ingested simulator) as H.
  destruct (normalize_events _) as [rows|e]; [|done].
  destruct H as [_ Hp]. split.
  - rewrite Hp, Forall_fmap. apply Forall_true. intros e.
    split; [done|]. apply Z.ltb_irrefl.
  - by rewrite Hp, length_fmap.
Qed.

Lemma ensure_columns_lookup (cols : list string) (m : gmap string Z) (c : string) :
  fold_left ensure_column cols m !! c =
    match m !! c with
    | Some v => Some v
    | None => if decide (c ∈ cols) then Some 0 else None
    end.
Proof.
  revert m. induction cols as [|col cols IH]; intros m; cbn [fold_left].
  - destruct (m !! c); [done|]. case_decide as Hin; [|done].
    by apply elem_of_nil in Hin.
  - rewrite IH. unfold ensure_column.
    destruct (decide (c = col)) as [->|Hne].
    + destruct (m !! col) as [v|] eqn:E.
      * by rewrite E.
      * rewrite lookup_insert_eq.
        destruct (decide (col ∈ col :: cols)) as [_|Hout]; [done|].
        exfalso. apply Hout. apply elem_of_cons; by left.
    + assert (Hm : (match m !! col with Some _ => m | None => <[col:=0]> m end) !! c
                   = m !! c).
      { destruct (m !! col); [done|]. by rewrite lookup_insert_ne. }
      rewrite Hm. destruct (m !! c); [done|].
      destruct (decide (c ∈ cols)) as [Hin|Hout];
        destruct (decide (c ∈ col :: cols)) as [Hin'|Hout']; try done.
      * exfalso. apply Hout'. apply elem_of_cons; by right.
      * exfalso. apply elem_of_cons in Hin' as [?|?]; done.
Qed.

Lemma group_size_zero (rows : list EventRow.t) (tid c : string) :
  Forall (fun e => EventRow.reason e <> Some c) rows ->
  group_size rows tid c = 0.
Proof.
  intros H. unfold group_size.
  induction H as [|e rows He Hrows IH]; [done|].
  rewrite filter_cons. destruct (decide _) as [[_ Hr]|_]; [done|exact IH].
Qed.

(** Without blocked rows of reason skill_mismatch, the column of that name
    is 0 in every row of the block features. *)
Lemma block_features_skill_mismatch (events : list EventRow.t) :
  Forall no_blocked_mismatch events ->
  Forall (fun r => block_counts r !! "skill_mismatch" = Some 0)
         (compute_block_features events).
Proof.
  intros Hev. unfold compute_block_features.
  set (blocked := filter (fun e => EventRow.event_type e = EventType.BLOCKED) events).
  set (grouped := filter (fun e => EventRow.reason e <> None) blocked).
  assert (Hg : Forall (fun e => EventRow.reason e <> Some "skill_mismatch") grouped).
  { rewrite Forall_forall in *. intros e He.
    apply list_elem_of_filter in He as [_ He].
    apply list_elem_of_filter in He as [Hb He]. by apply Hev. }
  apply Forall_fmap, Forall_true. intros tid. unfold compose. cbn [block_counts].
  rewrite ensure_columns_lookup.
  destruct (list_to_map _ !! "skill_mismatch") as [v|] eqn:E.
  - apply elem_of_list_to_map_2 in E.
    apply list_elem_of_fmap in E as (r & [= <- ->] & _).
    f_equal. by apply group_size_zero.
  - case_decide as Hin; [done|]. exfalso. apply Hin.
    apply (bool_decide_unpack _). vm_compute. exact I.
Qed.

Lemma merged_skill_mismatch (features : list BlockRow) (tid : string) :
  Forall (fun r => block_counts r !! "skill_mismatch" = Some 0) features ->
  merged_block_feature features tid "skill_mismatch" = 0.
Proof.
  intros H. unfold merged_block_feature.
  destruct (find _ features) as [r|] eqn:E; [|done].
  apply find_some in E as [Hin _]. apply list_elem_of_In in Hin.
  rewrite Forall_forall in H. by rewrite (H _ Hin).
Qed.

(** The rows made of logs that fit have no blocked row of reason
    skill_mismatch. *)
Lemma normalized_rows_fit (events : list EventLog.t) (rows : list EventRow.t) :
  Forall reason_fits events -> rows ≡ₚ map normalized_row events ->
  Forall no_blocked_mismatch rows.
Proof.
  intros Hev Hp. rewrite Hp, Forall_fmap.
  eapply Forall_impl; [exact Hev|]. intros e He Hb Hr. simpl in *.
  specialize (He Hr). congruence.
Qed.

(** ** The merges of [build_task_features] *)

Lemma insert_label_not_nil k ks : insert_label k ks <> [].
Proof. destruct ks as [|k' ks]; simpl; [done|]. by destruct (String.compare k k'). Qed.

Lemma group_labels_nil ks : group_labels ks = [] <-> ks = [].
Proof.
  destruct ks as [|k ks]; simpl; [done|]. split; [|done].
  intros H. by apply insert_label_not_nil in H.
Qed.

Lemma filter_nil_Forall {A : Type} (P : A -> Prop) `{!forall x, Decision (P x)}
    (l : list A) :
  filter P l = [] <-> Forall (fun x => ~ P x) l.
Proof.
  induction l as [|x l IH]; [split; [constructor|done]|].
  rewrite filter_cons, Forall_cons. destruct (decide (P x)).
  - split; [discriminate|tauto].
  - rewrite IH. tauto.
Qed.

(** The list [gaps] is empty exactly when no event is a progress event. *)
Lemma stagnation_nil (events : list EventRow.t) :
  Features.compute_stagnation_features events = [] <->
  Forall (fun e => EventRow.event_type e <> EventType.PROGRESS) events.
Proof.
  unfold Features.compute_stagnation_features.
  rewrite <- filter_nil_Forall. split.
  - intros H. apply map_eq_nil in H. apply (proj1 (group_labels_nil _)) in H.
    by apply map_eq_nil in H.
  - by intros ->.
Qed.

(** A cell of [build_task_features]: the value after the merges when the
    events hold a progress event, and the [KeyError] of the third merge
    when they hold none. *)
Lemma build_task_features_block_cell (events : list EventRow.t) (tid col : string) :
  Features.cell_is events (Features.build_task_features_block events tid col)
    (merged_block_feature (compute_block_features events) tid col).
Proof.
  unfold Features.cell_is, Features.build_task_features_block.
  pose proof (stagnation_nil events) as Hnil.
  destruct (Features.compute_stagnation_features events) as [|r l].
  - split; [done|]. by apply Hnil.
  - split; [done|].
    destruct (decide (Exists (fun e => EventRow.event_type e = EventType.PROGRESS)
                             events)) as [Hex|Hex]; [done|].
    apply not_Exists_Forall in Hex; [|apply _].
    assert (Hall : Forall (fun e => EventRow.event_type e <> EventType.PROGRESS)
                          events) by exact Hex.
    by apply Hnil in Hall.
Qed.

Lemma build_task_features_total_cell (events : list EventRow.t) (tid : string) :
  Features.cell_is events (Features.build_task_features_total events tid)
    (Features.merged_total_blocked_events (compute_block_features events) tid).
Proof.
  unfold Features.cell_is, Features.build_task_features_total.
  pose proof (stagnation_nil events) as Hnil.
  destruct (Features.compute_stagnation_features events) as [|r l].
  - split; [done|]. by apply Hnil.
  - split; [done|].
    destruct (decide (Exists (fun e => EventRow.event_type e = EventType.PROGRESS)
                             events)) as [Hex|Hex]; [done|].
    apply not_Exists_Forall in Hex; [|apply _].
    assert (Hall : Forall (fun e => EventRow.event_type e <> EventType.PROGRESS)
                          events) by exact Hex.
    by apply Hnil in Hall.
Qed.

End PipelineFacts.

(* ===================================================================== *)
(** * The simulator *)
(* ===================================================================== *)

Section SimulatorFacts.
Context {G : PyRandom}.
Import Simulator Invariants.

Local Abbreviation T w := (tasks (sim w)).

Lemma bind_inv {A B : Type} (m : M A) (f : A -> M B) w r :
  bind m f w = Ok r -> exists a w1, m w = Ok (a, w1) /\ f a w1 = Ok r.
Proof.
  unfold bind. destruct (m w) as [[a w1]|e]; [eauto|discriminate].
Qed.

Lemma ret_inv {A : Type} (a b : A) w w' : ret a w = Ok (b, w') -> b = a /\ w' = w.
Proof. by intros [= -> ->]. Qed.

Lemma get_sim_inv w s w' : get_sim w = Ok (s, w') -> s = sim w /\ w' = w.
Proof. by intros [= <- <-]. Qed.

Lemma modify_sim_inv f w u w' :
  modify_sim f w = Ok (u, w') -> sim w' = f (sim w) /\ rng w' = rng w.
Proof. unfold modify_sim. intros H. injection H as _ <-. done. Qed.

Lemma draw_inv {A : Type} (f : rng_state -> A * rng_state) w a w' :
  draw f w = Ok (a, w') -> sim w' = sim w.
Proof. unfold draw. destruct (f (rng w)). by intros [= _ <-]. Qed.

Lemma chance_inv p w b w' : chance p w = Ok (b, w') -> sim w' = sim w.
Proof.
  unfold chance. intros H. apply bind_inv in H as (u & w1 & H1 & H2).
  apply draw_inv in H1. apply ret_inv in H2 as [_ ->]. done.
Qed.

Lemma uniform_inv a b w x w' : uniform a b w = Ok (x, w') -> sim w' = sim w.
Proof.
  unfold uniform. intros H. apply bind_inv in H as (u & w1 & H1 & H2).
  apply draw_inv in H1. apply ret_inv in H2 as [_ ->]. done.
Qed.

Lemma randint_inv a b w x w' : randint a b w = Ok (x, w') -> sim w' = sim w.
Proof.
  unfold randint. destruct (b <? a); [discriminate|]. apply draw_inv.
Qed.

Lemma regress_progress_inv c mx w x w' :
  regress_progress c mx w = Ok (x, w') -> sim w' = sim w.
Proof.
  unfold regress_progress. intros H. apply bind_inv in H as (u & w1 & H1 & H2).
  apply uniform_inv in H1. apply ret_inv in H2 as [_ ->]. done.
Qed.

Lemma lift_res_inv {A : Type} (r : Res A) w a w' :
  lift_res r w = Ok (a, w') -> r = Ok a /\ w' = w.
Proof. unfold lift_res. destruct r; [by intros [= -> ->]|discriminate]. Qed.

Lemma float_div_int_inv x c w y w' :
  float_div_int x c w = Ok (y, w') -> w' = w.
Proof.
  unfold float_div_int. destruct (c =? 0); [discriminate|]. by intros [= _ <-].
Qed.

Lemma get_task_inv key w x w' :
  get_task key w = Ok (x, w') -> w' = w /\ dict_get key (T w) = Some x.
Proof.
  unfold get_task. intros H. apply bind_inv in H as (s & w1 & H1 & H2).
  apply get_sim_inv in H1 as [-> ->].
  destruct (dict_get key (T w)); [|discriminate].
  apply ret_inv in H2 as [-> ->]. done.
Qed.

Lemma update_task_inv key f w u w' :
  update_task key f w = Ok (u, w') ->
  exists x, dict_get key (T w) = Some x
            /\ sim w' = set_tasks (dict_set key (f x) (T w)) (sim w).
Proof.
  unfold update_task. intros H. apply bind_inv in H as (x & w1 & H1 & H2).
  apply get_task_inv in H1 as [-> Hx]. apply modify_sim_inv in H2 as [H2 _].
  eauto.
Qed.

(** What the event log may gain in one call of [log_event]. *)
Lemma log_event_inv event w u w' :
  log_event event w = Ok (u, w') ->
  tasks (sim w') = tasks (sim w) /\ resources (sim w') = resources (sim w)
  /\ day (sim w') = day (sim w) /\ noise (sim w') = noise (sim w)
  /\ ((logs (sim w') = logs (sim w) /\ delayed_logs (sim w') = delayed_logs (sim w))
      \/ (logs (sim w') = logs (sim w) ++ [event]
          /\ delayed_logs (sim w') = delayed_logs (sim w))
      \/ (logs (sim w') = logs (sim w)
          /\ exists delay_days,
               delayed_logs (sim w') = delayed_logs (sim w) ++
                 [EventLog.mk (EventLog.day event + delay_days)
                    (EventLog.task_id event) (EventLog.event_type event)
                    (EventLog.reason event)])).
Proof.
  unfold log_event. intros H.
  apply bind_inv in H as (s & w1 & H1 & H). apply get_sim_inv in H1 as [-> ->].
  apply bind_inv in H as (dropped & w1 & H1 & H). apply chance_inv in H1.
  destruct dropped.
  { apply ret_inv in H as [_ ->]. rewrite H1. tauto. }
  apply bind_inv in H as (delayed & w2 & H2 & H). apply chance_inv in H2.
  destruct delayed.
  - apply bind_inv in H as (dd & w3 & H3 & H). apply randint_inv in H3.
    apply bind_inv in H as (de & w4 & H4 & H). apply lift_res_inv in H4 as [H4 ->].
    apply modify_sim_inv in H as [H _]. rewrite H, H3, H2, H1. simpl.
    repeat split. right; right. split; [done|]. exists dd. f_equal.
    unfold EventLog.new in H4.
    destruct (_ <? 0); [discriminate|]. destruct (String.eqb _ _); [discriminate|].
    by injection H4 as <-.
  - apply modify_sim_inv in H as [H _]. rewrite H, H2, H1. simpl.
    repeat split. right; left. done.
Qed.

Lemma emit_inv d tid ty r w u w' :
  emit d tid ty r w = Ok (u, w') ->
  tasks (sim w') = tasks (sim w) /\ resources (sim w') = resources (sim w)
  /\ day (sim w') = day (sim w) /\ noise (sim w') = noise (sim w).
Proof.
  unfold emit. intros H. apply bind_inv in H as (ev & w1 & H1 & H).
  apply lift_res_inv in H1 as [_ ->]. apply log_event_inv in H. tauto.
Qed.

Lemma status_eqb_spec (a b : TaskStatus.t) : reflect (a = b) (TaskStatus.eqb a b).
Proof. destruct a, b; simpl; constructor; congruence. Qed.

Lemma all_completed_inv deps w b w' :
  all_completed deps w = Ok (b, w') ->
  w' = w /\ (b = true -> Forall (dep_done (T w)) deps)
  /\ (b = false -> exists dep x, dep ∈ deps /\ dict_get dep (T w) = Some x
                                 /\ Task.status x <> TaskStatus.COMPLETED).
Proof.
  induction deps as [|dep deps IH]; simpl; intros H.
  - apply ret_inv in H as [-> ->]. split; [done|]. split; [constructor|discriminate].
  - apply bind_inv in H as (x & w1 & H1 & H). apply get_task_inv in H1 as [-> Hx].
    destruct (status_eqb_spec (Task.status x) TaskStatus.COMPLETED) as [Hc|Hc].
    + destruct (IH H) as (-> & Ht & Hf). split; [done|]. split.
      * intros Hb. constructor; [by exists x|auto].
      * intros Hb. destruct (Hf Hb) as (dep' & x' & Hin & Hd).
        exists dep', x'. split; [apply elem_of_cons; by right|done].
    + apply ret_inv in H as [-> ->]. split; [done|]. split; [discriminate|].
      intros _. exists dep, x. split; [apply elem_of_cons; by left|done].
Qed.

Lemma update_tracked key f w u w' x d :
  T w = dict_set key x d -> update_task key f w = Ok (u, w') ->
  T w' = dict_set key (f x) d.
Proof.
  intros HT H. apply update_task_inv in H as (y & Hy & ->). simpl.
  rewrite HT in Hy |- *. rewrite dict_get_set_eq in Hy. injection Hy as <-.
  apply dict_set_set.
Qed.

Lemma get_tracked key w y w' x d :
  T w = dict_set key x d -> get_task key w = Ok (y, w') -> y = x /\ w' = w.
Proof.
  intros HT H. apply get_task_inv in H as [-> Hy].
  rewrite HT, dict_get_set_eq in Hy. by injection Hy as <-.
Qed.

Lemma emit_tracked key x d dd tid ty r w u w' :
  T w = dict_set key x d -> emit dd tid ty r w = Ok (u, w') ->
  T w' = dict_set key x d.
Proof. intros HT H. apply emit_inv in H as (-> & _). done. Qed.

Lemma sim_tracked key x d w w' :
  T w = dict_set key x d -> sim w' = sim w -> T w' = dict_set key x d.
Proof. by intros HT ->. Qed.

Ltac bind_step H a w1 H1 :=
  apply bind_inv in H as (a & w1 & H1 & H); cbv beta in H.

Lemma process_task_tasks key w w' :
  process_task key w = Ok (tt, w') ->
  exists t, dict_get key (T w) = Some t
    /\ ((Task.status t = TaskStatus.COMPLETED /\ w' = w)
        \/ (Task.status t <> TaskStatus.COMPLETED
            /\ exists t', T w' = dict_set key t' (T w)
                 /\ Task.dependencies t' = Task.dependencies t
                 /\ task_step (T w) (day (sim w)) t t')).
Proof.
  intros H. unfold process_task in H.
  bind_step H task w0 H0. apply get_task_inv in H0 as [-> Ht].
  exists task. split; [done|].
  destruct (status_eqb_spec (Task.status task) TaskStatus.COMPLETED) as [Hc|Hc].
  { left. by apply ret_inv in H as [_ ->]. }
  right. split; [done|].
  assert (HT : T w = dict_set key task (T w)) by (symmetry; by apply dict_set_id).
  remember (T w) as d0 eqn:Ed0 in HT at 2 |- *.
  remember (day (sim w)) as today eqn:Etoday.
  bind_step H s w1 H1. apply get_sim_inv in H1 as [-> ->].
  cbv zeta in H. rewrite <- Etoday in H.
  bind_step H ext w1 H1. apply chance_inv in H1.
  pose proof (sim_tracked _ _ _ _ _ HT H1) as HT1.
  destruct ext.
  { bind_step H u w2 H2. pose proof (update_tracked _ _ _ _ _ _ _ HT1 H2) as HT2.
    pose proof (emit_tracked _ _ _ _ _ _ _ _ _ _ HT2 H) as HT3.
    eexists. split; [exact HT3|]. split; [done|]. by apply step_blocked. }
  bind_step H deps_ok w2 H2. apply all_completed_inv in H2 as (-> & Hdeps & _).
  destruct deps_ok; simpl in H.
  2:{ bind_step H u w2 H2. pose proof (update_tracked _ _ _ _ _ _ _ HT1 H2) as HT2.
      pose proof (emit_tracked _ _ _ _ _ _ _ _ _ _ HT2 H) as HT3.
      eexists. split; [exact HT3|]. split; [done|]. by apply step_blocked. }
  specialize (Hdeps eq_refl). rewrite H1, <- Ed0 in Hdeps.
  (* start or resume: the task is IN_PROGRESS afterwards, with its actual_end *)
  bind_step H u w2 H2.
  assert (exists t1, T w2 = dict_set key t1 d0
                     /\ Task.status t1 = TaskStatus.IN_PROGRESS
                     /\ Task.actual_end t1 = Task.actual_end task
                     /\ Task.dependencies t1 = Task.dependencies task)
    as (t1 & HT2 & Hs1 & He1 & Hd1).
  { destruct (Task.status task) eqn:Es.
    - bind_step H2 u1 w3 H3. bind_step H2 u2 w4 H4.
      destruct (Task.actual_start task) eqn:Eas.
      + apply ret_inv in H3 as [_ ->].
        pose proof (emit_tracked _ _ _ _ _ _ _ _ _ _ HT1 H4) as HT4.
        pose proof (update_tracked _ _ _ _ _ _ _ HT4 H2) as HT5.
        eexists; split; [exact HT5|]. done.
      + pose proof (update_tracked _ _ _ _ _ _ _ HT1 H3) as HT3.
        pose proof (emit_tracked _ _ _ _ _ _ _ _ _ _ HT3 H4) as HT4.
        pose proof (update_tracked _ _ _ _ _ _ _ HT4 H2) as HT5.
        eexists; split; [exact HT5|]. done.
    - apply ret_inv in H2 as [_ ->]. exists task. done.
    - pose proof (update_tracked _ _ _ _ _ _ _ HT1 H2) as HT5.
      eexists; split; [exact HT5|]. done.
    - done. }
  clear H2 HT1.
  bind_step H found w3 H3. unfold find_resource_for_task in H3.
  bind_step H3 s3 w4 H4. apply get_sim_inv in H4 as [-> ->].
  apply ret_inv in H3 as [-> ->].
  destruct (first_idle _ _) as [[i resource]|].
  2:{ bind_step H u3 w3 H3. pose proof (update_tracked _ _ _ _ _ _ _ HT2 H3) as HT3.
      pose proof (emit_tracked _ _ _ _ _ _ _ _ _ _ HT3 H) as HT4.
      eexists. split; [exact HT4|]. split; [done|]. by apply step_blocked. }
  bind_step H u3 w3 H3. apply modify_sim_inv in H3 as [H3 _].
  assert (HT3 : T w3 = dict_set key t1 d0) by (by rewrite H3).
  clear H3 HT2. cbv zeta in H.
  bind_step H disrupted w4 H4. apply chance_inv in H4.
  pose proof (sim_tracked _ _ _ _ _ HT3 H4) as HT4. clear H4 HT3.
  destruct disrupted.
  { pose proof (emit_tracked _ _ _ _ _ _ _ _ _ _ HT4 H) as HT5.
    eexists. split; [exact HT5|]. split; [done|]. by apply step_working. }
  bind_step H base w5 H5. apply uniform_inv in H5.
  pose proof (sim_tracked _ _ _ _ _ HT4 H5) as HT5. clear H5 HT4.
  bind_step H incr w6 H6. apply float_div_int_inv in H6 as ->.
  bind_step H u6 w6 H6. pose proof (update_tracked _ _ _ _ _ _ _ HT5 H6) as HT6.
  clear H6 HT5.
  bind_step H u7 w7 H7. pose proof (emit_tracked _ _ _ _ _ _ _ _ _ _ HT6 H7) as HT7.
  clear H7 HT6.
  bind_step H rework w8 H8. apply chance_inv in H8.
  pose proof (sim_tracked _ _ _ _ _ HT7 H8) as HT8. clear H8 HT7.
  bind_step H u9 w9 H9.
  assert (exists t2, T w9 = dict_set key t2 d0
                     /\ Task.status t2 = TaskStatus.IN_PROGRESS
                     /\ Task.actual_end t2 = Task.actual_end task
                     /\ Task.dependencies t2 = Task.dependencies task)
    as (t2 & HT9 & Hs2 & He2 & Hd2).
  { destruct rework.
    - bind_step H9 x w10 H10. destruct (get_tracked _ _ _ _ _ _ HT8 H10) as [-> ->].
      bind_step H9 p w11 H11. apply regress_progress_inv in H11.
      pose proof (sim_tracked _ _ _ _ _ HT8 H11) as HT11.
      bind_step H9 u12 w12 H12.
      pose proof (update_tracked _ _ _ _ _ _ _ HT11 H12) as HT12.
      pose proof (emit_tracked _ _ _ _ _ _ _ _ _ _ HT12 H9) as HT13.
      eexists; split; [exact HT13|]. done.
    - apply ret_inv in H9 as [_ ->]. eexists; split; [exact HT8|]. done. }
  clear H9 HT8.
  bind_step H x w10 H10. destruct (get_tracked _ _ _ _ _ _ HT9 H10) as [-> ->].
  destruct (1 <=? Task.progress t2)%float eqn:Eprog.
  2:{ apply ret_inv in H as [_ ->]. exists t2. split; [done|]. split; [done|].
      by apply step_working. }
  bind_step H u11 w11 H11.
  assert (exists t3, T w11 = dict_set key t3 d0
                     /\ Task.progress t3 = Task.progress t2
                     /\ Task.dependencies t3 = Task.dependencies task)
    as (t3 & HT11 & Hp3 & Hd3).
  { destruct (Task.actual_start t2).
    - apply ret_inv in H11 as [_ ->]. exists t2. done.
    - pose proof (update_tracked _ _ _ _ _ _ _ HT9 H11) as HT11.
      eexists; split; [exact HT11|]. done. }
  bind_step H u12 w12 H12. pose proof (update_tracked _ _ _ _ _ _ _ HT11 H12) as HT12.
  bind_step H u13 w13 H13. pose proof (update_tracked _ _ _ _ _ _ _ HT12 H13) as HT13.
  pose proof (emit_tracked _ _ _ _ _ _ _ _ _ _ HT13 H) as HT14.
  eexists. split; [exact HT14|]. split; [done|].
  apply step_completed; simpl; [done|done| |done]. by rewrite Hp3.
Qed.

Lemma unit_eta (u : unit) : u = tt.
Proof. by destruct u. Qed.

Lemma for_each_reachable w0 keys w w' u :
  reachable w0 w -> for_each keys process_task w = Ok (u, w') -> reachable w0 w'.
Proof.
  revert w. induction keys as [|key keys IH]; simpl; intros w Hr H.
  - by apply ret_inv in H as [_ ->].
  - bind_step H u1 w1 H1. rewrite (unit_eta u1) in H1.
    eapply IH; [|exact H]. by eapply reach_task.
Qed.

Lemma simulate_day_reachable w0 w w' u :
  reachable w0 w -> simulate_day w = Ok (u, w') -> reachable w0 w'.
Proof.
  unfold simulate_day. intros Hr H.
  bind_step H u1 w1 H1. rewrite (unit_eta u1) in H1.
  bind_step H s w2 H2. apply get_sim_inv in H2 as [-> ->].
  bind_step H u3 w3 H3. rewrite (unit_eta u) in H.
  eapply reach_release; [|exact H].
  eapply for_each_reachable; [|exact H3]. by eapply reach_flush.
Qed.

Lemma run_loop_reachable w0 n w w' u :
  reachable w0 w -> run_loop n w = Ok (u, w') -> reachable w0 w'.
Proof.
  revert w. induction n as [|n IH]; simpl; intros w Hr H.
  - by apply ret_inv in H as [_ ->].
  - bind_step H u1 w1 H1. bind_step H s w2 H2.
    apply get_sim_inv in H2 as [-> ->].
    pose proof (simulate_day_reachable _ _ _ _ Hr H1) as Hr1.
    destruct (all_tasks_completed (sim w1)).
    + by apply ret_inv in H as [_ ->].
    + by eapply IH.
Qed.

Lemma simulate_reachable ts rs seed noise_config max_days g u w :
  simulate ts rs seed noise_config max_days g = Ok (u, w) ->
  reachable (init ts rs seed noise_config g) w.
Proof.
  unfold simulate, run. intros H.
  eapply run_loop_reachable; [apply reach_init|exact H].
Qed.

Lemma flush_delayed_inv w u w' :
  flush_delayed w = Ok (u, w') ->
  T w' = T w
  /\ logs (sim w') = logs (sim w) ++
       filter (fun l => EventLog.day l <= day (sim w) + 1) (delayed_logs (sim w))
  /\ delayed_logs (sim w') =
       filter (fun l => EventLog.day l > day (sim w) + 1) (delayed_logs (sim w)).
Proof.
  unfold flush_delayed. intros H. bind_step H u1 w1 H1.
  apply modify_sim_inv in H1 as [H1 _]. apply modify_sim_inv in H as [H _].
  rewrite H, H1. simpl. done.
Qed.

Lemma release_resources_inv w u w' :
  release_resources w = Ok (u, w') ->
  T w' = T w /\ logs (sim w') = logs (sim w)
  /\ delayed_logs (sim w') = delayed_logs (sim w).
Proof.
  unfold release_resources. intros H. apply modify_sim_inv in H as [-> _]. done.
Qed.

(** ** Completion consistency *)

Lemma completion_inv_consistent t : completion_inv t -> completion_consistent t.
Proof. unfold completion_inv, completion_consistent. tauto. Qed.

Lemma task_step_completion d today t t' :
  Task.status t <> TaskStatus.COMPLETED ->
  completion_inv t -> task_step d today t t' -> completion_inv t'.
Proof.
  intros Hc [_ Hend] Hstep.
  assert (Hnone : Task.actual_end t = None).
  { destruct (Task.actual_end t) eqn:E; [|done]. exfalso. apply Hc, Hend. eauto. }
  destruct Hstep as [Hs He|Hs He _|Hs He Hp _]; split; rewrite ?Hs, ?He, ?Hnone.
  - discriminate.
  - intros [? [=]].
  - discriminate.
  - intros [? [=]].
  - eauto.
  - done.
Qed.

Lemma process_task_completion key w w' :
  process_task key w = Ok (tt, w') ->
  Forall (fun kv => completion_inv kv.2) (T w) ->
  Forall (fun kv => completion_inv kv.2) (T w').
Proof.
  intros H Hinv.
  apply process_task_tasks in H as (t & Ht & [[Hc Hw]|(Hc & t' & HT & Hd & Hstep)]);
    [by subst w'|].
  rewrite HT.
  apply dict_set_Forall; [done|]. intros k0. simpl.
  eapply task_step_completion; [exact Hc| |exact Hstep].
  apply dict_get_Some_elem in Ht. rewrite Forall_forall in Hinv.
  exact (Hinv _ Ht).
Qed.

Lemma reachable_completion w0 w :
  reachable w0 w ->
  Forall (fun kv => completion_inv kv.2) (T w0) ->
  Forall (fun kv => completion_inv kv.2) (T w).
Proof.
  intros Hr H0. induction Hr as [|w w' Hr IH H|key w w' Hr IH H|w w' Hr IH H].
  - done.
  - apply flush_delayed_inv in H as (-> & _). done.
  - by eapply process_task_completion.
  - apply release_resources_inv in H as (-> & _). done.
Qed.

Lemma tasks_dict_elem (ts : list Task.t) k x :
  (k, x) ∈ tasks_dict ts -> x ∈ ts.
Proof.
  unfold tasks_dict.
  assert (Hgen : forall acc, (k, x) ∈ fold_left
            (fun d y => dict_set (Task.task_id y) y d) ts acc ->
            (k, x) ∈ acc \/ x ∈ ts).
  { induction ts as [|y ts IH]; simpl; intros acc H; [by left|].
    destruct (IH _ H) as [Hin|Hin].
    - apply dict_set_elem in Hin as [Hin| ->]; [by left|].
      right. apply elem_of_cons; by left.
    - right. apply elem_of_cons; by right. }
  intros H. destruct (Hgen [] H) as [Hin|Hin]; [|done].
  by apply elem_of_nil in Hin.
Qed.

(** ** Dependency gating *)

Lemma dep_done_set key t t' d dep :
  dict_get key d = Some t -> Task.status t <> TaskStatus.COMPLETED ->
  dep_done d dep -> dep_done (dict_set key t' d) dep.
Proof.
  intros Ht Hc (x & Hx & Hxc). exists x. split; [|done].
  rewrite dict_get_set_ne; [done|]. intros ->. congruence.
Qed.

Lemma process_task_gated key w w' :
  process_task key w = Ok (tt, w') ->
  dependency_gated (T w) -> dependency_gated (T w').
Proof.
  intros H Hinv.
  apply process_task_tasks in H as (t & Ht & [[Hc Hw]|(Hc & t' & HT & Hd & Hstep)]);
    [by subst w'|].
  rewrite HT. intros k x Hin Hx.
  eapply Forall_impl; [|intros dep; by apply (dep_done_set key t t')].
  apply dict_set_elem in Hin as [Hin| ->].
  - by eapply Hinv.
  - rewrite Hd. destruct Hstep as [Hs _|_ _ Hdeps|Hs _ _ _]; [congruence|done|congruence].
Qed.

Lemma reachable_gated w0 w :
  reachable w0 w -> dependency_gated (T w0) -> dependency_gated (T w).
Proof.
  intros Hr H0. induction Hr as [|w w' Hr IH H|key w w' Hr IH H|w w' Hr IH H].
  - done.
  - apply flush_delayed_inv in H as (-> & _). done.
  - by eapply process_task_gated.
  - apply release_resources_inv in H as (-> & _). done.
Qed.

Lemma emit_logged d tid ty r w u w' :
  emit d tid ty r w = Ok (u, w') ->
  logged (EventLog.mk d tid ty r) (sim w) (sim w').
Proof.
  unfold emit. intros H. bind_step H ev w1 H1.
  apply lift_res_inv in H1 as [H1 ->].
  assert (ev = EventLog.mk d tid ty r) as ->.
  { unfold EventLog.new in H1. destruct (d <? 0); [discriminate|].
    destruct (String.eqb tid ""); [discriminate|]. by injection H1. }
  apply log_event_inv in H as (_ & _ & _ & _ & H). exact H.
Qed.

Lemma logged_same_logs event s1 s2 s' :
  logs s2 = logs s1 -> delayed_logs s2 = delayed_logs s1 ->
  logged event s2 s' -> logged event s1 s'.
Proof. unfold logged. by intros -> ->. Qed.

Lemma blocked_copy_set_status task :
  blocked_copy task (Task.set_status TaskStatus.BLOCKED task).
Proof. unfold blocked_copy. simpl. repeat split. Qed.

Lemma bind_ok {A B : Type} (m : M A) (f : A -> M B) w a w1 :
  m w = Ok (a, w1) -> bind m f w = f a w1.
Proof. unfold bind. by intros ->. Qed.

Lemma chance_draw p w u g' :
  rng_random (rng w) = (u, g') ->
  chance p w = Ok ((u <? p)%float, mkWorld (sim w) g').
Proof. intros H. unfold chance, bind, draw, ret. by rewrite H. Qed.

(** A pass over a task that is not completed and has a dependency that is
    not completed. *)
Lemma process_task_unmet key w w' task dep x :
  dict_get key (T w) = Some task ->
  Task.status task <> TaskStatus.COMPLETED ->
  dep ∈ Task.dependencies task ->
  dict_get dep (T w) = Some x ->
  Task.status x <> TaskStatus.COMPLETED ->
  process_task key w = Ok (tt, w') ->
  exists u g1,
    rng_random (rng w) = (u, g1)
    /\ T w' = dict_set key (Task.set_status TaskStatus.BLOCKED task) (T w)
    /\ resources (sim w') = resources (sim w)
    /\ logged (EventLog.mk (day (sim w)) (Task.task_id task) EventType.BLOCKED
                 (Some (if (u <? external_block_prob (noise (sim w)))%float
                        then "external_block" else "dependencies")))
              (sim w) (sim w').
Proof.
  intros Ht Hc Hdep Hx Hxc H. unfold process_task in H.
  bind_step H task0 w0 H0. apply get_task_inv in H0 as [-> Ht0].
  rewrite Ht in Ht0. injection Ht0 as <-.
  destruct (status_eqb_spec (Task.status task) TaskStatus.COMPLETED); [done|].
  bind_step H s w1 H1. apply get_sim_inv in H1 as [-> ->]. cbv zeta in H.
  bind_step H ext w1 H1. pose proof (chance_inv _ _ _ _ H1) as Hs1.
  destruct (rng_random (rng w)) as [u g1] eqn:Hr.
  rewrite (chance_draw _ _ _ _ Hr) in H1. injection H1 as Hext Hw1.
  exists u, g1. split; [reflexivity|]. rewrite Hext. clear Hext Hw1.
  assert (Hblock : forall r,
    bind (update_task key (Task.set_status TaskStatus.BLOCKED))
         (fun _ => emit (day (sim w)) (Task.task_id task) EventType.BLOCKED (Some r)) w1
      = Ok (tt, w') ->
    T w' = dict_set key (Task.set_status TaskStatus.BLOCKED task) (T w)
    /\ resources (sim w') = resources (sim w)
    /\ logged (EventLog.mk (day (sim w)) (Task.task_id task) EventType.BLOCKED (Some r))
              (sim w) (sim w')).
  { intros r Hb. bind_step Hb u0 w2 H2.
    apply update_task_inv in H2 as (y & Hy & Hs2).
    rewrite Hs1, Ht in Hy. injection Hy as <-.
    pose proof (emit_inv _ _ _ _ _ _ _ Hb) as (HT & HR & _).
    apply emit_logged in Hb.
    rewrite HT, HR, Hs2, Hs1. simpl. split; [done|]. split; [done|].
    eapply logged_same_logs; [| |exact Hb]; rewrite Hs2, Hs1; reflexivity. }
  destruct ext.
  { by apply Hblock. }
  bind_step H deps_ok w2 H2. apply all_completed_inv in H2 as (-> & Hdeps & _).
  destruct deps_ok; simpl in H.
  - exfalso. specialize (Hdeps eq_refl). rewrite Forall_forall in Hdeps.
    destruct (Hdeps _ Hdep) as (y & Hy & Hyc). rewrite Hs1 in Hy. congruence.
  - by apply Hblock.
Qed.

(** [dependencies_completed] reads the tasks only; it is false when every
    dependency is a task of the dict and one of them is not completed. *)
Lemma all_completed_false deps w :
  Forall (fun dep => is_Some (dict_get dep (T w))) deps ->
  Exists (unmet (T w)) deps ->
  all_completed deps w = Ok (false, w).
Proof.
  induction deps as [|dep deps IH]; intros Hall Hex.
  - by apply Exists_nil in Hex.
  - apply Forall_cons in Hall as [[x Hx] Hall]. simpl.
    unfold bind at 1. unfold get_task, bind at 1. unfold get_sim at 1.
    rewrite Hx. unfold ret at 1.
    destruct (status_eqb_spec (Task.status x) TaskStatus.COMPLETED) as [Hc|Hc]; [|done].
    apply IH; [done|]. apply Exists_cons in Hex as [(y & Hy & Hyc)|Hex]; [|done].
    congruence.
Qed.

Lemma process_task_blocks key w task u1 g1 u2 g2 u3 g3 :
  dict_get key (T w) = Some task ->
  Task.status task <> TaskStatus.COMPLETED ->
  Forall (fun dep => is_Some (dict_get dep (T w))) (Task.dependencies task) ->
  Exists (unmet (T w)) (Task.dependencies task) ->
  0 <= day (sim w) -> Task.task_id task <> "" ->
  rng_random (rng w) = (u1, g1) ->
  (u1 <? external_block_prob (noise (sim w)))%float = false ->
  rng_random g1 = (u2, g2) ->
  (u2 <? log_drop_prob (noise (sim w)))%float = false ->
  rng_random g2 = (u3, g3) ->
  (u3 <? 0.3)%float = false ->
  process_task key w =
    Ok (tt, mkWorld
              (mk (dict_set key (Task.set_status TaskStatus.BLOCKED task) (T w))
                  (resources (sim w))
                  (logs (sim w) ++
                     [EventLog.mk (day (sim w)) (Task.task_id task)
                        EventType.BLOCKED (Some "dependencies")])
                  (delayed_logs (sim w)) (day (sim w)) (noise (sim w)))
              g3).
Proof.
  intros Ht Hc Hall Hex Hday Htid Hr1 Hu1 Hr2 Hu2 Hr3 Hu3.
  assert (Hget : forall g, get_task key (mkWorld (sim w) g)
                           = Ok (task, mkWorld (sim w) g)).
  { intros g. unfold get_task, bind, get_sim. cbn [sim]. by rewrite Ht. }
  unfold process_task.
  rewrite (bind_ok _ _ w task w).
  2:{ destruct w as [s g]. apply Hget. }
  destruct (status_eqb_spec (Task.status task) TaskStatus.COMPLETED); [done|].
  rewrite (bind_ok _ _ w (sim w) w) by reflexivity. cbv zeta.
  rewrite (bind_ok _ _ _ _ _ (chance_draw _ _ _ _ Hr1)), Hu1.
  rewrite (bind_ok _ _ _ false (mkWorld (sim w) g1)).
  2:{ by apply all_completed_false. }
  change (negb false) with true. cbv iota.
  rewrite (bind_ok _ _ _ tt
             (mkWorld (set_tasks (dict_set key (Task.set_status TaskStatus.BLOCKED task)
                                           (T w)) (sim w)) g1)).
  2:{ unfold update_task. rewrite (bind_ok _ _ _ _ _ (Hget g1)). reflexivity. }
  unfold emit.
  erewrite bind_ok.
  2:{ unfold lift_res, EventLog.new.
      destruct (Z.ltb_spec (day (sim w)) 0); [lia|].
      destruct (String.eqb_spec (Task.task_id task) ""); [done|]. reflexivity. }
  unfold log_event.
  erewrite bind_ok by reflexivity. cbn [sim noise set_tasks].
  rewrite (bind_ok _ _ _ _ _ (chance_draw _ (mkWorld _ g1) _ _ Hr2)), Hu2.
  rewrite (bind_ok _ _ _ _ _ (chance_draw _ (mkWorld _ g2) _ _ Hr3)), Hu3.
  reflexivity.
Qed.

(** ** The reasons of logged events *)

Lemma keeps_bind {A B : Type} (m : M A) (f : A -> M B) :
  keeps m -> (forall a, keeps (f a)) -> keeps (bind m f).
Proof.
  intros Hm Hf w b w' H Hw. apply bind_inv in H as (a & w1 & H1 & H2).
  eapply Hf; [exact H2|]. by eapply Hm.
Qed.

Lemma keeps_same_sim {A : Type} (m : M A) :
  (forall w a w', m w = Ok (a, w') -> sim w' = sim w) -> keeps m.
Proof. intros Hm w a w' H Hw. by rewrite (Hm _ _ _ H). Qed.

Lemma keeps_ret {A : Type} (a : A) : keeps (ret a).
Proof. apply keeps_same_sim. intros w b w' H. by apply ret_inv in H as [_ ->]. Qed.

Lemma keeps_update_task key f : keeps (update_task key f).
Proof.
  intros w u w' H Hw. apply update_task_inv in H as (x & _ & ->). exact Hw.
Qed.

Lemma keeps_emit d tid ty r :
  (r = Some "skill_mismatch" -> ty = EventType.PROGRESS) -> keeps (emit d tid ty r).
Proof.
  intros Hr w u w' H [Hl Hd]. unfold emit in H.
  bind_step H ev w1 H1. apply lift_res_inv in H1 as [H1 ->].
  assert (Hev : EventLog.event_type ev = ty /\ EventLog.reason ev = r).
  { unfold EventLog.new in H1. destruct (d <? 0); [discriminate|].
    destruct (String.eqb tid ""); [discriminate|]. by injection H1 as <-. }
  destruct Hev as [Hty Hre].
  unfold logs_fit.
  apply log_event_inv in H as (_ & _ & _ & _ & [[-> ->]|[[-> ->]|[-> (dd & ->)]]]).
  - done.
  - split; [|done]. apply Forall_app. split; [done|]. constructor; [|constructor].
    unfold reason_fits. rewrite Hty, Hre. exact Hr.
  - split; [done|]. apply Forall_app. split; [done|]. constructor; [|constructor].
    unfold reason_fits. simpl. rewrite Hty, Hre. exact Hr.
Qed.

Lemma keeps_get_sim : keeps get_sim.
Proof. apply keeps_same_sim. intros w s w' H. by apply get_sim_inv in H as [_ ->]. Qed.

Lemma keeps_get_task key : keeps (get_task key).
Proof. apply keeps_same_sim. intros w s w' H. by apply get_task_inv in H as [-> _]. Qed.

Lemma keeps_chance p : keeps (chance p).
Proof. apply keeps_same_sim. intros w s w'. apply chance_inv. Qed.

Lemma keeps_uniform a b : keeps (uniform a b).
Proof. apply keeps_same_sim. intros w s w'. apply uniform_inv. Qed.

Lemma keeps_regress_progress c mx : keeps (regress_progress c mx).
Proof. apply keeps_same_sim. intros w s w'. apply regress_progress_inv. Qed.

Lemma keeps_float_div_int x c : keeps (float_div_int x c).
Proof.
  apply keeps_same_sim. intros w s w' H. by apply float_div_int_inv in H as ->.
Qed.

Lemma keeps_dependencies_completed task : keeps (dependencies_completed task).
Proof.
  apply keeps_same_sim. intros w s w' H. by apply all_completed_inv in H as [-> _].
Qed.

Lemma keeps_find_resource task : keeps (find_resource_for_task task).
Proof.
  unfold find_resource_for_task.
  apply keeps_bind; [apply keeps_get_sim|intros s; apply keeps_ret].
Qed.

Lemma keeps_assign_resource i tid : keeps (assign_resource i tid).
Proof.
  intros w u w' H Hw. apply modify_sim_inv in H as [-> _]. exact Hw.
Qed.

Ltac keeps_step :=
  first
    [ apply keeps_ret | apply keeps_get_sim | apply keeps_get_task
    | apply keeps_chance | apply keeps_uniform | apply keeps_regress_progress
    | apply keeps_float_div_int | apply keeps_dependencies_completed
    | apply keeps_find_resource | apply keeps_assign_resource
    | apply keeps_update_task
    | apply keeps_emit; by intros
    | match goal with
      | |- keeps (if ?b then _ else _) => destruct b
      | |- keeps (match ?x with _ => _ end) => destruct x
      | |- keeps (let x := _ in _) => cbv zeta
      | |- keeps (bind _ _) => apply keeps_bind; [|intros ?]
      end ].

Lemma process_task_keeps key : keeps (process_task key).
Proof.
  unfold process_task. repeat keeps_step.
Qed.

Lemma Forall_filter_keep {A : Type} (P Q : A -> Prop) `{!forall x, Decision (Q x)}
    (l : list A) :
  Forall P l -> Forall P (filter Q l).
Proof.
  rewrite !Forall_forall. intros HP x Hx.
  apply list_elem_of_filter in Hx as [_ Hx]. auto.
Qed.

Lemma reachable_logs_fit w0 w :
  reachable w0 w -> logs_fit (sim w0) -> logs_fit (sim w).
Proof.
  intros Hr H0. induction Hr as [|w w' Hr IH H|key w w' Hr IH H|w w' Hr IH H].
  - done.
  - apply flush_delayed_inv in H as (_ & Hl & Hd). destruct IH as [IHl IHd].
    split.
    + rewrite Hl. apply Forall_app. split; [done|]. by apply Forall_filter_keep.
    + rewrite Hd. by apply Forall_filter_keep.
  - eapply process_task_keeps; [exact H|auto].
  - apply release_resources_inv in H as (_ & Hl & Hd). unfold logs_fit.
    rewrite Hl, Hd. exact IH.
Qed.


(** ** Initial states *)

Lemma init_tasks_Forall (P : Task.t -> Prop) ts rs seed noise_config g :
  Forall P ts -> Forall (fun kv => P kv.2) (T (init ts rs seed noise_config g)).
Proof.
  intros H. apply Forall_forall. intros [k x] Hin. simpl in *.
  apply tasks_dict_elem in Hin. rewrite Forall_forall in H. auto.
Qed.

(** ** The claims about runs *)

(** C1, amended.  For every task list, resource list, seed, noise
    configuration and day bound, two uses of the simulator that each
    construct it (which seeds the generator of the process) and run it at
    once give the same outcome whatever state the generator was in before
    each, so also when the second use follows the first: the same
    exception, or the same event log and the same final task states, field
    by field.  Of two simulators that are both constructed before either
    runs, the first runs as it does when it is used alone, and the second
    repeats it if the first run has left the generator in the seeded
    state. *)
Theorem simulate_deterministic ts rs seed noise_config max_days (g1 g2 : rng_state) :
  simulate ts rs seed noise_config max_days g1
    = simulate ts rs seed noise_config max_days g2
  /\ (forall w1 w2,
       simulate ts rs seed noise_config max_days g1 = Ok (tt, w1) ->
       simulate ts rs seed noise_config max_days g2 = Ok (tt, w2) ->
       logs (sim w1) = logs (sim w2)
       /\ tasks (sim w1) = tasks (sim w2)
       /\ Forall2 (fun a b =>
                     Task.actual_start a.2 = Task.actual_start b.2
                     /\ Task.actual_end a.2 = Task.actual_end b.2
                     /\ Task.progress a.2 = Task.progress b.2
                     /\ Task.status a.2 = Task.status b.2)
                  (tasks (sim w1)) (tasks (sim w2)))
  /\ (forall w1,
       simulate ts rs seed noise_config max_days g1 = Ok (tt, w1) ->
       simulate ts rs seed noise_config max_days (rng w1) = Ok (tt, w1))
  /\ (forall a b,
       simulate_both ts rs seed noise_config max_days g1 = Ok (a, b) ->
       exists wa,
         simulate ts rs seed noise_config max_days g2 = Ok (tt, wa)
         /\ a = sim wa
         /\ (rng wa = rng_seed seed -> b = a)).
Proof.
  assert (E : simulate ts rs seed noise_config max_days g1
              = simulate ts rs seed noise_config max_days g2).
  { unfold simulate, init. reflexivity. }
  split; [exact E|]. split; [|split].
  - intros w1 w2 H1 H2. rewrite E, H2 in H1.
    injection H1 as <-. split; [done|]. split; [done|].
    apply Forall2_same_length_lookup. split; [done|].
    intros i a b Ha Hb. rewrite Ha in Hb. by injection Hb as <-.
  - intros w1 H1. exact H1.
  - intros a b. unfold simulate_both, simulate, init. cbn [sim rng].
    destruct (run max_days _) as [[[] wa]|e] eqn:Ea; [|discriminate].
    destruct (run max_days {| sim := _; rng := rng wa |}) as [[[] wb]|e] eqn:Eb;
      [|discriminate].
    intros [= <- <-]. exists wa. split; [done|]. split; [done|].
    intros Hg. rewrite Hg, Ea in Eb. by injection Eb as <-.
Qed.

(** C2.  From tasks that are all NOT_STARTED, in every state a run reaches
    no task is IN_PROGRESS unless each of its dependencies is a completed
    task.  In the loop body, a pass over a task that is not completed and
    has a dependency that is not completed leaves the task with the status
    BLOCKED and every other field, every other task and the resources as
    they were: nothing of the start or resume block has run.  The one event
    of the pass is a blocked event of the task on that day, with the reason
    dependencies unless the external draw came first (reason
    external_block); it is dropped, appended or delayed by the noise layer.
    And the pass does return: when every dependency is a task, one of them
    is not completed, and the draws are no external block, no drop and no
    delay, it ends in the state with the task blocked and the blocked event
    with reason dependencies at the end of the log. *)
Theorem dependency_gating ts rs seed noise_config (g : rng_state) :
  Forall (fun t => Task.status t = TaskStatus.NOT_STARTED) ts ->
  (forall w, reachable (init ts rs seed noise_config g) w ->
             dependency_gated (tasks (sim w)))
  /\ (forall max_days w,
        simulate ts rs seed noise_config max_days g = Ok (tt, w) ->
        dependency_gated (tasks (sim w)))
  /\ (forall key w w' task dep x,
        dict_get key (tasks (sim w)) = Some task ->
        Task.status task <> TaskStatus.COMPLETED ->
        dep ∈ Task.dependencies task ->
        dict_get dep (tasks (sim w)) = Some x ->
        Task.status x <> TaskStatus.COMPLETED ->
        process_task key w = Ok (tt, w') ->
        (exists task', dict_get key (tasks (sim w')) = Some task'
                       /\ blocked_copy task task')
        /\ (forall k, k <> key ->
               dict_get k (tasks (sim w')) = dict_get k (tasks (sim w)))
        /\ resources (sim w') = resources (sim w)
        /\ exists u g1,
             rng_random (rng w) = (u, g1)
             /\ logged (EventLog.mk (day (sim w)) (Task.task_id task)
                          EventType.BLOCKED
                          (Some (if (u <? external_block_prob (noise (sim w)))%float
                                 then "external_block" else "dependencies")))
                       (sim w) (sim w'))
  /\ (forall key w task u1 g1 u2 g2 u3 g3,
        dict_get key (tasks (sim w)) = Some task ->
        Task.status task <> TaskStatus.COMPLETED ->
        Forall (fun dep => is_Some (dict_get dep (tasks (sim w))))
               (Task.dependencies task) ->
        Exists (unmet (tasks (sim w))) (Task.dependencies task) ->
        0 <= day (sim w) -> Task.task_id task <> "" ->
        rng_random (rng w) = (u1, g1) ->
        (u1 <? external_block_prob (noise (sim w)))%float = false ->
        rng_random g1 = (u2, g2) ->
        (u2 <? log_drop_prob (noise (sim w)))%float = false ->
        rng_random g2 = (u3, g3) ->
        (u3 <? 0.3)%float = false ->
        exists w' task',
          process_task key w = Ok (tt, w')
          /\ rng w' = g3
          /\ dict_get key (tasks (sim w')) = Some task'
          /\ blocked_copy task task'
          /\ (forall k, k <> key ->
                 dict_get k (tasks (sim w')) = dict_get k (tasks (sim w)))
          /\ resources (sim w') = resources (sim w)
          /\ logs (sim w') =
               logs (sim w) ++
                 [EventLog.mk (day (sim w)) (Task.task_id task)
                    EventType.BLOCKED (Some "dependencies")]
          /\ delayed_logs (sim w') = delayed_logs (sim w)).
Proof.
  intros Hts.
  assert (H0 : dependency_gated (T (init ts rs seed noise_config g))).
  { intros k t Hin Hs. simpl in Hin. apply tasks_dict_elem in Hin.
    rewrite Forall_forall in Hts. rewrite (Hts _ Hin) in Hs. discriminate. }
  split; [|split; [|split]].
  - intros w Hr. by eapply reachable_gated.
  - intros max_days w H. eapply reachable_gated; [|exact H0].
    by eapply simulate_reachable.
  - intros key w w' task dep x Ht Hc Hdep Hx Hxc H.
    destruct (process_task_unmet _ _ _ _ _ _ Ht Hc Hdep Hx Hxc H)
      as (u & g1 & Hu & HT & HR & HL).
    split; [|split; [|split]].
    + exists (Task.set_status TaskStatus.BLOCKED task).
      rewrite HT, dict_get_set_eq. split; [done|]. apply blocked_copy_set_status.
    + intros k Hk. rewrite HT. by apply dict_get_set_ne.
    + exact HR.
    + by exists u, g1.
  - intros key w task u1 g1 u2 g2 u3 g3 Ht Hc Hall Hex Hday Htid Hr1 Hu1 Hr2 Hu2 Hr3 Hu3.
    eexists. exists (Task.set_status TaskStatus.BLOCKED task).
    split; [by apply (process_task_blocks key w task u1 g1 u2 g2 u3 g3)|].
    cbn [sim rng tasks resources logs delayed_logs].
    split; [done|]. rewrite dict_get_set_eq. split; [done|].
    split; [apply blocked_copy_set_status|].
    split; [intros k Hk; by apply dict_get_set_ne|]. done.
Qed.

(** C3.  For every run from tasks in the default execution state (status
    NOT_STARTED, actual_end unset), every task of the final state is
    COMPLETED if and only if its actual_end is set and its progress is at
    least 1.0. *)
Theorem completion_consistency ts rs seed noise_config max_days (g : rng_state) w :
  Forall (fun t => Task.status t = TaskStatus.NOT_STARTED
                   /\ Task.actual_end t = None) ts ->
  simulate ts rs seed noise_config max_days g = Ok (tt, w) ->
  Forall (fun kv => completion_consistent kv.2) (tasks (sim w)).
Proof.
  intros Hts H. apply simulate_reachable in H.
  eapply Forall_impl; [|intros kv; apply completion_inv_consistent].
  eapply reachable_completion; [exact H|].
  apply init_tasks_Forall. eapply Forall_impl; [exact Hts|].
  intros t [Hs He]. split.
  - rewrite Hs. discriminate.
  - rewrite He. intros [? [=]].
Qed.

End SimulatorFacts.

Section EndToEnd.
Import Simulator Invariants Pipeline.
Context {G : PyRandom} {FS : FrameSort}.

(** C10.  In every state a run reaches, no event of the log, visible or
    still delayed, is a blocked event with reason skill_mismatch: an event
    that carries that reason is a progress event.  So in the block features
    computed from the ingested and normalized events the skill_mismatch
    count is 0 in every row; and in the frame of [build_task_features] the
    skill_mismatch cell of every task is 0, whenever the events hold a
    progress event (when they hold none, [build_task_features] raises the
    KeyError of its third merge, and there is no frame). *)
Theorem skill_mismatch_never_blocks ts rs seed noise_config (g : rng_state) w :
  reachable (init ts rs seed noise_config g) w ->
  Forall reason_fits (logs (sim w) ++ delayed_logs (sim w))
  /\ Forall (fun e => EventLog.event_type e = EventType.BLOCKED ->
                      EventLog.reason e <> Some "skill_mismatch")
            (logs (sim w) ++ delayed_logs (sim w))
  /\ forall rows,
       normalize_events (raw_events (ingest_simulation (sim w))) = Ok rows ->
       Forall (fun r => block_counts r !! "skill_mismatch" = Some 0)
              (compute_block_features rows)
       /\ forall tid,
            Features.cell_is rows
              (Features.build_task_features_block rows tid "skill_mismatch") 0.
Proof.
  intros Hr.
  assert (Hfit : logs_fit (sim w)).
  { eapply reachable_logs_fit; [exact Hr|]. split; constructor. }
  destruct Hfit as [Hl Hd].
  assert (Hall : Forall reason_fits (logs (sim w) ++ delayed_logs (sim w)))
    by (apply Forall_app; done).
  split; [exact Hall|]. split.
  - eapply Forall_impl; [exact Hall|]. intros e He Hb Hre.
    specialize (He Hre). congruence.
  - intros rows Hrows.
    pose proof (normalize_ingested (sim w)) as Hn. rewrite Hrows in Hn.
    destruct Hn as [_ Hp].
    pose proof (block_features_skill_mismatch rows
                  (normalized_rows_fit _ _ Hl Hp)) as Hf.
    split; [exact Hf|]. intros tid.
    pose proof (build_task_features_block_cell rows tid "skill_mismatch") as Hc.
    rewrite (merged_skill_mismatch (compute_block_features rows) tid Hf) in Hc.
    exact Hc.
Qed.

End EndToEnd.

(* ===================================================================== *)
(** * The claims on concrete runs *)
(* ===================================================================== *)

Section Witnesses.
Import Simulator Invariants Pipeline Samples.

(** Two tasks, one depending on the other, one matching resource, no noise,
    the same seed, from two different generator states; and a second use
    that follows the first. *)
Lemma simulate_deterministic_witness :
  exists w1 w2,
    simulate (G := Tape.gen) [T1; T2] [R1] 42 (Some ZERO_NOISE) 100 Tape.draws = Ok (tt, w1)
    /\ simulate (G := Tape.gen) [T1; T2] [R1] 42 (Some ZERO_NOISE) 100 (Tape.seed 5) = Ok (tt, w2)
    /\ logs (sim w1) = logs (sim w2)
    /\ tasks (sim w1) = tasks (sim w2)
    /\ simulate (G := Tape.gen) [T1; T2] [R1] 42 (Some ZERO_NOISE) 100 (rng w1) = Ok (tt, w1).
Proof.
  destruct (simulate (G := Tape.gen) [T1; T2] [R1] 42 (Some ZERO_NOISE) 100 Tape.draws)
    as [[[] w1]|e] eqn:E1; [|vm_compute in E1; discriminate].
  destruct (simulate (G := Tape.gen) [T1; T2] [R1] 42 (Some ZERO_NOISE) 100 (Tape.seed 5))
    as [[[] w2]|e] eqn:E2; [|vm_compute in E2; discriminate].
  exists w1, w2. split; [reflexivity|]. split; [reflexivity|].
  destruct (simulate_deterministic (G := Tape.gen) [T1; T2] [R1] 42
              (Some ZERO_NOISE) 100 Tape.draws (Tape.seed 5))
    as (_ & Hsame & Hturn & _).
  destruct (Hsame w1 w2 E1 E2) as (Hl & Ht & _).
  split; [exact Hl|]. split; [exact Ht|]. exact (Hturn w1 E1).
Defined.

(** After twenty days the first task is completed and the second, which
    depends on it, is in progress; and on the first morning a pass over the
    second task, with the draws 0.85, 0.27 and 0.96, blocks it and logs the
    blocked event with reason dependencies. *)
Lemma dependency_gating_witness :
  Forall (fun t => Task.status t = TaskStatus.NOT_STARTED) [T1; T2]
  /\ (exists w,
        simulate (G := Tape.gen) [T1; T2] [R1] 42 None 20 Tape.draws = Ok (tt, w)
        /\ map (fun kv => Task.status kv.2) (tasks (sim w))
           = [TaskStatus.COMPLETED; TaskStatus.IN_PROGRESS]
        /\ dependency_gated (tasks (sim w)))
  /\ (exists w' task',
        process_task (G := Tape.gen) "T2" first_morning = Ok (tt, w')
        /\ dict_get "T2" (tasks (sim w')) = Some task'
        /\ Task.status task' = TaskStatus.BLOCKED
        /\ Task.actual_start task' = None
        /\ logs (sim w') =
             [EventLog.mk 1 "T2" EventType.BLOCKED (Some "dependencies")]).
Proof.
  assert (Hts : Forall (fun t => Task.status t = TaskStatus.NOT_STARTED) [T1; T2])
    by (repeat constructor).
  split; [exact Hts|].
  destruct (dependency_gating (G := Tape.gen) [T1; T2] [R1] 42 None Tape.draws Hts)
    as (_ & Hrun & _ & Hpass).
  split.
  - destruct (simulate (G := Tape.gen) [T1; T2] [R1] 42 None 20 Tape.draws)
      as [[[] w]|e] eqn:E; [|vm_compute in E; discriminate].
    exists w. split; [reflexivity|]. split.
    + vm_compute in E. injection E as <-. reflexivity.
    + exact (Hrun 20 w E).
  - destruct (Hpass "T2" first_morning T2
                0.85%float (Tape.seed 10) 0.27%float (Tape.seed 11)
                0.96%float (Tape.seed 12))
      as (w' & task' & Hp & _ & Hget & Hcopy & _ & _ & Hlogs & _);
      try reflexivity.
    + discriminate.
    + repeat constructor. by exists T1.
    + apply Exists_cons_hd. exists T1. split; [reflexivity|discriminate].
    + change (0 <= 1). lia.
    + discriminate.
    + exists w', task'. split; [exact Hp|]. split; [exact Hget|].
      destruct Hcopy as (Hs & _ & _ & _ & _ & _ & _ & Hstart & _).
      split; [exact Hs|]. split; [exact Hstart|]. exact Hlogs.
Defined.

Lemma completion_consistency_witness :
  Forall (fun t => Task.status t = TaskStatus.NOT_STARTED
                   /\ Task.actual_end t = None) [T1; T2]
  /\ exists w,
       simulate (G := Tape.gen) [T1; T2] [R1] 42 None 100 Tape.draws = Ok (tt, w)
       /\ Forall (fun kv => completion_consistent kv.2) (tasks (sim w)).
Proof.
  assert (Hts : Forall (fun t => Task.status t = TaskStatus.NOT_STARTED
                                 /\ Task.actual_end t = None) [T1; T2])
    by (repeat constructor).
  split; [exact Hts|].
  destruct (simulate (G := Tape.gen) [T1; T2] [R1] 42 None 100 Tape.draws)
    as [[[] w]|e] eqn:E; [|vm_compute in E; discriminate].
  exists w. split; [reflexivity|].
  exact (completion_consistency (G := Tape.gen) [T1; T2] [R1] 42 None 100 Tape.draws w Hts E).
Defined.

(** The first idle resource has the wrong skill here, so the run logs
    progress events with reason skill_mismatch; the skill_mismatch cell of
    the first task in the frame of [build_task_features] is 0. *)
Lemma skill_mismatch_never_blocks_witness :
  exists w rows,
    reachable (init (G := Tape.gen) [T1; T2] [R2; R1] 42 None Tape.draws) w
    /\ simulate (G := Tape.gen) [T1; T2] [R2; R1] 42 None 100 Tape.draws = Ok (tt, w)
    /\ normalize_events (FS := insertion_frame_sort)
         (raw_events (ingest_simulation (sim w))) = Ok rows
    /\ Forall reason_fits (logs (sim w) ++ delayed_logs (sim w))
    /\ Forall (fun r => block_counts r !! "skill_mismatch" = Some 0)
              (compute_block_features rows)
    /\ Features.build_task_features_block rows "T1" "skill_mismatch" = Ok 0
    /\ Exists (fun e => EventRow.event_type e = EventType.PROGRESS) rows.
Proof.
  assert (Hcell :
    match simulate (G := Tape.gen) [T1; T2] [R2; R1] 42 None 100 Tape.draws with
    | Ok (_, w) =>
        match normalize_events (FS := insertion_frame_sort)
                (raw_events (ingest_simulation (sim w))) with
        | Ok rows => Features.build_task_features_block rows "T1" "skill_mismatch"
        | Raise e => Raise e
        end
    | Raise e => Raise e
    end = Ok 0) by (vm_compute; reflexivity).
  destruct (simulate (G := Tape.gen) [T1; T2] [R2; R1] 42 None 100 Tape.draws)
    as [[[] w]|e] eqn:E; [|discriminate].
  destruct (normalize_events (FS := insertion_frame_sort)
              (raw_events (ingest_simulation (sim w))))
    as [rows|e] eqn:En; [|discriminate].
  pose proof (simulate_reachable _ _ _ _ _ _ _ _ E) as Hr.
  exists w, rows. split; [exact Hr|]. split; [reflexivity|]. split; [exact En|].
  destruct (skill_mismatch_never_blocks (G := Tape.gen) (FS := insertion_frame_sort)
              [T1; T2] [R2; R1] 42 None Tape.draws w Hr) as (Hfit & _ & Hrows).
  destruct (Hrows rows En) as [Hcols Hcells].
  split; [exact Hfit|]. split; [exact Hcols|]. split; [exact Hcell|].
  pose proof (Hcells "T1") as Hc. rewrite Hcell in Hc. exact (proj2 Hc).
Defined.

(** What that run looks like: both tasks complete, and the log holds
    events with the reason skill_mismatch, all of them progress events. *)
Example mismatch_run_logs_progress :
  match simulate (G := Tape.gen) [T1; T2] [R2; R1] 42 None 100 Tape.draws with
  | Ok (_, w) =>
      all_tasks_completed (sim w) = true
      /\ existsb (fun e => bool_decide (EventLog.reason e = Some "skill_mismatch"))
                 (logs (sim w)) = true
  | Raise _ => False
  end.
Proof. vm_compute. split; reflexivity. Qed.

(** C1 as stated fails on the code.  Two simulators with the same two
    tasks, the same resource, the seed 1 and the default noise, both
    constructed before either runs, here with the tape as the generator:
    the first run completes the tasks on days 13 and 26 and logs 30 events;
    the second, which goes on from the generator state that the first has
    left, completes them on days 15 and 28 and logs 35 events. *)
Lemma simulators_built_together_differ :
  exists a b,
    simulate_both (G := Tape.gen) [T1; T2] [R1] 1 None 100 Tape.draws = Ok (a, b)
    /\ map (fun kv => Task.actual_end kv.2) (tasks a) = [Some 13; Some 26]
    /\ map (fun kv => Task.actual_end kv.2) (tasks b) = [Some 15; Some 28]
    /\ length (logs a) = 30%nat
    /\ length (logs b) = 35%nat
    /\ logs a <> logs b
    /\ tasks a <> tasks b.
Proof.
  do 2 eexists. split; [vm_compute; reflexivity|].
  split; [reflexivity|]. split; [reflexivity|].
  split; [reflexivity|]. split; [reflexivity|]. split.
  - intros H. apply (f_equal length) in H. discriminate H.
  - intros H. apply (f_equal (map (fun kv => Task.actual_end kv.2))) in H.
    discriminate H.
Qed.

(** Determinism rests on the seeding in the constructor: [run] alone, on the
    same simulator object but from two generator states, gives two
    different runs. *)
Example run_depends_on_generator :
  let s0 := sim (init (G := Tape.gen) [T1; T2] [R1] 42 None Tape.draws) in
  match run (G := Tape.gen) 100 (mkWorld (G := Tape.gen) s0 Tape.draws),
        run (G := Tape.gen) 100 (mkWorld (G := Tape.gen) s0 (Tape.seed 5)) with
  | Ok (_, w1), Ok (_, w2) => day (sim w1) = 27 /\ day (sim w2) = 53
  | _, _ => False
  end.
Proof. vm_compute. split; reflexivity. Qed.

End Witnesses.

(* ===================================================================== *)
(** * Runs of the simulator *)
(* ===================================================================== *)

Section RunFacts.
Context {G : PyRandom}.
Import Simulator Invariants Runs.

Local Abbreviation T w := (tasks (sim w)).

Ltac bind_step H a w1 H1 :=
  apply bind_inv in H as (a & w1 & H1 & H); cbv beta in H.

Lemma frame_refl today tid s : frame today tid s s.
Proof.
  split; try done; exists []; by rewrite app_nil_r.
Qed.

Lemma frame_trans today tid s1 s2 s3 :
  frame today tid s1 s2 -> frame today tid s2 s3 -> frame today tid s1 s3.
Proof.
  intros [Hd1 Hn1 Hr1 (l1 & Hl1 & Hf1) (m1 & Hm1 & Hg1)]
         [Hd2 Hn2 Hr2 (l2 & Hl2 & Hf2) (m2 & Hm2 & Hg2)].
  split; try congruence.
  - exists (l1 ++ l2). rewrite Hl2, Hl1, app_assoc. split; [done|].
    apply Forall_app; done.
  - exists (m1 ++ m2). rewrite Hm2, Hm1, app_assoc. split; [done|].
    apply Forall_app; done.
Qed.

Lemma frame_set_tasks today tid s x : frame today tid s (set_tasks x s).
Proof. split; try done; exists []; simpl; by rewrite app_nil_r. Qed.

Lemma released_alter a i rs :
  released (list_alter (Resource.set_assigned_task a) i rs) = released rs.
Proof.
  unfold released. revert i. induction rs as [|r rs IH]; intros [|i]; simpl; try done.
  by rewrite IH.
Qed.

Lemma released_idem rs : released (released rs) = released rs.
Proof. unfold released. rewrite map_map. done. Qed.

Lemma new_event d tid ty r e :
  EventLog.new d tid ty r = Ok e ->
  e = EventLog.mk d tid ty r /\ 0 <= d /\ tid <> "".
Proof.
  unfold EventLog.new. destruct (Z.ltb_spec d 0); [discriminate|].
  destruct (String.eqb_spec tid ""); [discriminate|]. by intros [= <-].
Qed.

(** What a call of [EventLog(...)] followed by [log_event] may change. *)
Lemma emit_frame d tid ty r w u w' :
  emit d tid ty r w = Ok (u, w') -> (ty, r) ∈ EVENT_SHAPES ->
  T w' = T w /\ frame d tid (sim w) (sim w').
Proof.
  intros H Hshape. pose proof (emit_inv _ _ _ _ _ _ _ H) as (HT & Hr & Hd & Hn).
  split; [done|]. unfold emit in H.
  bind_step H ev w1 H1. apply lift_res_inv in H1 as [H1 ->].
  apply new_event in H1 as (-> & Hd0 & Htid).
  unfold log_event in H.
  bind_step H s w1 H1. apply get_sim_inv in H1 as [-> ->].
  bind_step H dropped w1 H1. apply chance_inv in H1.
  destruct dropped.
  { apply ret_inv in H as [_ ->]. rewrite H1. apply frame_refl. }
  bind_step H delayed w2 H2. apply chance_inv in H2.
  destruct delayed.
  - bind_step H dd w3 H3. apply randint_inv in H3.
    bind_step H de w4 H4. apply lift_res_inv in H4 as [H4 ->].
    apply new_event in H4 as (-> & Hd1 & _).
    apply modify_sim_inv in H as [H _]. rewrite H, H3, H2, H1.
    split; simpl; try done.
    + exists []. by rewrite app_nil_r.
    + eexists. split; [done|]. constructor; [|constructor]. done.
  - apply modify_sim_inv in H as [H _]. rewrite H, H2, H1.
    split; simpl; try done.
    + eexists. split; [done|]. constructor; [|constructor]. done.
    + exists []. by rewrite app_nil_r.
Qed.

Section Tracked.
Variables (key : string) (d0 : list (string * Task.t)) (s0 : Simulator.t)
          (today : Z) (tid : string).

Local Abbreviation Tr := (tracked key d0 s0 today tid).

Lemma tr_update x f w u w' :
  Tr x w -> update_task key f w = Ok (u, w') -> Tr (f x) w'.
Proof.
  intros [HT Hf] H. split; [by eapply update_tracked|].
  apply update_task_inv in H as (y & _ & ->).
  eapply frame_trans; [exact Hf|apply frame_set_tasks].
Qed.

Lemma tr_emit x ty r w u w' :
  Tr x w -> emit today tid ty r w = Ok (u, w') -> (ty, r) ∈ EVENT_SHAPES ->
  Tr x w'.
Proof.
  intros [HT Hf] H Hs. apply emit_frame in H as [HT' Hf']; [|done].
  split; [congruence|]. by eapply frame_trans.
Qed.

Lemma tr_sim x w w' : Tr x w -> sim w' = sim w -> Tr x w'.
Proof. intros [HT Hf] E. unfold tracked. by rewrite E. Qed.

Lemma tr_get x w y w' : Tr x w -> get_task key w = Ok (y, w') -> y = x /\ w' = w.
Proof. intros [HT _] H. exact (get_tracked _ _ _ _ _ _ HT H). Qed.

Lemma tr_assign x i a w u w' :
  Tr x w -> assign_resource i a w = Ok (u, w') -> Tr x w'.
Proof.
  intros [HT Hf] H. apply modify_sim_inv in H as [H _]. unfold tracked. rewrite H. simpl.
  split; [done|]. eapply frame_trans; [exact Hf|].
  split; simpl; try done.
  - apply released_alter.
  - exists []. by rewrite app_nil_r.
  - exists []. by rewrite app_nil_r.
Qed.

End Tracked.

Ltac shape :=
  unfold EVENT_SHAPES;
  repeat first [ by (apply elem_of_cons; left) | apply elem_of_cons; right ].

Lemma process_task_frame key w w' :
  process_task key w = Ok (tt, w') ->
  exists t, dict_get key (T w) = Some t
    /\ ((Task.status t = TaskStatus.COMPLETED /\ w' = w)
        \/ (Task.status t <> TaskStatus.COMPLETED
            /\ exists t', T w' = dict_set key t' (T w)
                 /\ same_static t t'
                 /\ start_step (day (sim w)) t t'
                 /\ frame (day (sim w)) (Task.task_id t) (sim w) (sim w'))).
Proof.
  intros H. unfold process_task in H.
  bind_step H task w0 H0. apply get_task_inv in H0 as [-> Ht].
  exists task. split; [done|].
  destruct (status_eqb_spec (Task.status task) TaskStatus.COMPLETED) as [Hc|Hc].
  { left. by apply ret_inv in H as [_ ->]. }
  right. split; [done|].
  set (Moved := fun x : Task.t =>
         same_static task x
         /\ (Task.actual_start x = Task.actual_start task
             \/ (Task.actual_start task = None
                 /\ Task.actual_start x = Some (day (sim w))))).
  set (Good := fun x : Task.t =>
         Moved x
         /\ (Task.status task <> TaskStatus.NOT_STARTED ->
             Task.actual_start x = Task.actual_start task)).
  assert (Hgood0 : Good task) by (unfold Good, Moved, same_static; tauto).
  assert (Hblock : forall x, Good x -> Good (Task.set_status TaskStatus.BLOCKED x)) by done.
  assert (Hfin : forall x w1, tracked key (T w) (sim w) (day (sim w)) (Task.task_id task) x w1 ->
            Good x -> Task.status x <> TaskStatus.COMPLETED ->
            exists t', T w1 = dict_set key t' (T w) /\ same_static task t'
              /\ start_step (day (sim w)) task t'
              /\ frame (day (sim w)) (Task.task_id task) (sim w) (sim w1)).
  { intros x w1 [HT Hf] [[Hs Hst] Hkeep] Hx. exists x. unfold start_step.
    split; [done|]. split; [done|]. split; [|done]. split; [done|].
    split; [by intros ?|auto]. }
  assert (HT : tracked key (T w) (sim w) (day (sim w)) (Task.task_id task) task w).
  { split; [symmetry; by apply dict_set_id|apply frame_refl]. }
  remember (T w) as d0 eqn:Ed0.
  remember (day (sim w)) as today eqn:Etoday.
  remember (sim w) as s0 eqn:Es0 in HT, Hfin |- *.
  bind_step H s w1 H1. apply get_sim_inv in H1 as [-> ->].
  cbv zeta in H. rewrite <- Etoday in H.
  bind_step H ext w1 H1. apply chance_inv in H1.
  pose proof (tr_sim _ _ _ _ _ _ _ _ HT H1) as HT1.
  destruct ext.
  { bind_step H u w2 H2. pose proof (tr_update _ _ _ _ _ _ _ _ _ _ HT1 H2) as HT2.
    pose proof (tr_emit _ _ _ _ _ _ _ _ _ _ _ HT2 H ltac:(shape)) as HT3.
    eapply Hfin; [exact HT3|by apply Hblock|done]. }
  bind_step H deps_ok w2 H2. apply all_completed_inv in H2 as (-> & _ & _).
  destruct deps_ok; simpl in H.
  2:{ bind_step H u w2 H2. pose proof (tr_update _ _ _ _ _ _ _ _ _ _ HT1 H2) as HT2.
      pose proof (tr_emit _ _ _ _ _ _ _ _ _ _ _ HT2 H ltac:(shape)) as HT3.
      eapply Hfin; [exact HT3|by apply Hblock|done]. }
  bind_step H u w2 H2.
  assert (exists t1, tracked key d0 s0 today (Task.task_id task) t1 w2 /\ Good t1
                     /\ Task.status t1 <> TaskStatus.COMPLETED)
    as (t1 & HT2 & Hg1 & Hs1).
  { destruct (Task.status task) eqn:Es.
    - bind_step H2 u1 w3 H3. bind_step H2 u2 w4 H4.
      destruct (Task.actual_start task) eqn:Eas.
      + apply ret_inv in H3 as [_ ->].
        pose proof (tr_emit _ _ _ _ _ _ _ _ _ _ _ HT1 H4 ltac:(shape)) as HT4.
        pose proof (tr_update _ _ _ _ _ _ _ _ _ _ HT4 H2) as HT5.
        eexists; split; [exact HT5|]. split; [|done].
        unfold Good, Moved, same_static. simpl. tauto.
      + pose proof (tr_update _ _ _ _ _ _ _ _ _ _ HT1 H3) as HT3.
        pose proof (tr_emit _ _ _ _ _ _ _ _ _ _ _ HT3 H4 ltac:(shape)) as HT4.
        pose proof (tr_update _ _ _ _ _ _ _ _ _ _ HT4 H2) as HT5.
        eexists; split; [exact HT5|]. split; [|done].
        unfold Good, Moved, same_static. simpl. tauto.
    - apply ret_inv in H2 as [_ ->]. exists task. rewrite Es. done.
    - pose proof (tr_update _ _ _ _ _ _ _ _ _ _ HT1 H2) as HT5.
      eexists; split; [exact HT5|]. split; [|done]. done.
    - done. }
  clear H2 HT1.
  bind_step H found w3 H3. unfold find_resource_for_task in H3.
  bind_step H3 s3 w4 H4. apply get_sim_inv in H4 as [-> ->].
  apply ret_inv in H3 as [-> ->].
  destruct (first_idle _ _) as [[i resource]|].
  2:{ bind_step H u3 w3 H3. pose proof (tr_update _ _ _ _ _ _ _ _ _ _ HT2 H3) as HT3.
      pose proof (tr_emit _ _ _ _ _ _ _ _ _ _ _ HT3 H ltac:(shape)) as HT4.
      eapply Hfin; [exact HT4| |done]. destruct Hg1 as [[? ?] ?]. done. }
  bind_step H u3 w3 H3.
  pose proof (tr_assign _ _ _ _ _ _ _ _ _ _ _ HT2 H3) as HT3.
  clear H3 HT2. cbv zeta in H.
  bind_step H disrupted w4 H4. apply chance_inv in H4.
  pose proof (tr_sim _ _ _ _ _ _ _ _ HT3 H4) as HT4. clear H4 HT3.
  destruct disrupted.
  { pose proof (tr_emit _ _ _ _ _ _ _ _ _ _ _ HT4 H ltac:(shape)) as HT5.
    eapply Hfin; [exact HT5|done|done]. }
  bind_step H base w5 H5. apply uniform_inv in H5.
  pose proof (tr_sim _ _ _ _ _ _ _ _ HT4 H5) as HT5. clear H5 HT4.
  bind_step H incr w6 H6. apply float_div_int_inv in H6 as ->.
  bind_step H u6 w6 H6. pose proof (tr_update _ _ _ _ _ _ _ _ _ _ HT5 H6) as HT6.
  clear H6 HT5.
  bind_step H u7 w7 H7.
  assert (HT7 : tracked key d0 s0 today (Task.task_id task)
                  (Task.set_progress (Task.progress t1 + incr)%float t1) w7).
  { eapply tr_emit; [exact HT6|exact H7|]. destruct (negb _); shape. }
  clear H7 HT6.
  bind_step H rework w8 H8. apply chance_inv in H8.
  pose proof (tr_sim _ _ _ _ _ _ _ _ HT7 H8) as HT8. clear H8 HT7.
  bind_step H u9 w9 H9.
  assert (exists t2, tracked key d0 s0 today (Task.task_id task) t2 w9 /\ Good t2
                     /\ Task.status t2 <> TaskStatus.COMPLETED)
    as (t2 & HT9 & Hg2 & Hs2).
  { destruct rework.
    - bind_step H9 x w10 H10. destruct (tr_get _ _ _ _ _ _ _ _ _ HT8 H10) as [-> ->].
      bind_step H9 p w11 H11. apply regress_progress_inv in H11.
      pose proof (tr_sim _ _ _ _ _ _ _ _ HT8 H11) as HT11.
      bind_step H9 u12 w12 H12.
      pose proof (tr_update _ _ _ _ _ _ _ _ _ _ HT11 H12) as HT12.
      pose proof (tr_emit _ _ _ _ _ _ _ _ _ _ _ HT12 H9 ltac:(shape)) as HT13.
      eexists; split; [exact HT13|]. destruct Hg1 as [[? ?] ?]. done.
    - apply ret_inv in H9 as [_ ->]. eexists; split; [exact HT8|].
      destruct Hg1 as [[? ?] ?]. done. }
  clear H9 HT8.
  bind_step H x w10 H10. destruct (tr_get _ _ _ _ _ _ _ _ _ HT9 H10) as [-> ->].
  destruct (1 <=? Task.progress t2)%float eqn:Eprog.
  2:{ apply ret_inv in H as [_ ->]. eapply Hfin; [exact HT9|done|done]. }
  bind_step H u11 w11 H11.
  assert (exists t3, tracked key d0 s0 today (Task.task_id task) t3 w11 /\ Moved t3
                     /\ is_Some (Task.actual_start t3))
    as (t3 & HT11 & Hg3 & Hst3).
  { destruct Hg2 as [Hg2 _]. destruct (Task.actual_start t2) eqn:Eas.
    - apply ret_inv in H11 as [_ ->]. exists t2. rewrite Eas. eauto.
    - pose proof (tr_update _ _ _ _ _ _ _ _ _ _ HT9 H11) as HT11.
      eexists; split; [exact HT11|]. split; [|simpl; eauto].
      destruct Hg2 as [Hst [Hsa|[Hsa1 Hsa2]]]; split; try done; simpl; right;
        split; congruence. }
  bind_step H u12 w12 H12. pose proof (tr_update _ _ _ _ _ _ _ _ _ _ HT11 H12) as HT12.
  bind_step H u13 w13 H13. pose proof (tr_update _ _ _ _ _ _ _ _ _ _ HT12 H13) as HT13.
  pose proof (tr_emit _ _ _ _ _ _ _ _ _ _ _ HT13 H ltac:(shape)) as [HT14 Hf14].
  eexists. split; [exact HT14|]. destruct Hg3 as [Hst3' Hsa3].
  split; [done|]. split; [|done]. split; [done|]. split; [done|].
  intros _ Hn. by destruct Hn.
Qed.


(** ** What a run keeps *)

Lemma dict_set_keys {V : Type} key (v x : V) d :
  dict_get key d = Some x -> (dict_set key v d).*1 = d.*1.
Proof.
  induction d as [|[k y] d IH]; simpl; [discriminate|].
  destruct (String.eqb key k); [done|]. intros H. cbn. f_equal. by apply IH.
Qed.

Lemma same_static_refl t : same_static t t.
Proof. unfold same_static. tauto. Qed.

Lemma same_static_trans t1 t2 t3 :
  same_static t1 t2 -> same_static t2 t3 -> same_static t1 t3.
Proof. unfold same_static. intros (?&?&?&?&?&?) (?&?&?&?&?&?). repeat split; congruence. Qed.

Lemma evolves_refl s : evolves s s.
Proof.
  split; [done| |done|lia|done|done].
  intros k t Ht. exists t. split; [done|]. split; [apply same_static_refl|done].
Qed.

Lemma evolves_trans s1 s2 s3 : evolves s1 s2 -> evolves s2 s3 -> evolves s1 s3.
Proof.
  intros [Hk1 Ht1 Hn1 Hd1 Hr1 Hl1] [Hk2 Ht2 Hn2 Hd2 Hr2 Hl2].
  split; try congruence.
  - intros k t Ht. destruct (Ht1 _ _ Ht) as (t' & Ht' & Hs' & Hc').
    destruct (Ht2 _ _ Ht') as (t'' & Ht'' & Hs'' & Hc'').
    exists t''. split; [done|]. split; [by eapply same_static_trans|].
    intros Hc. specialize (Hc' Hc). subst t'. auto.
  - lia.
  - by etrans.
Qed.

Lemma frame_prefix today tid s s' : frame today tid s s' -> logs s `prefix_of` logs s'.
Proof. intros [_ _ _ (l & -> & _) _]. by apply prefix_app_r. Qed.

Lemma process_task_evolves key w w' :
  process_task key w = Ok (tt, w') -> evolves (sim w) (sim w').
Proof.
  intros H.
  apply process_task_frame in H as (t & Ht & [[Hc ->]|(Hc & t' & HT & Hs & _ & Hf)]);
    [apply evolves_refl|].
  split.
  - rewrite HT. by eapply dict_set_keys.
  - intros k x Hx. rewrite HT. destruct (String.eqb_spec k key) as [->|Hne].
    + rewrite dict_get_set_eq. exists t'. rewrite Ht in Hx. injection Hx as <-.
      split; [done|]. split; [done|]. intros Hc'. done.
    + rewrite dict_get_set_ne; [|done]. exists x. split; [done|].
      split; [apply same_static_refl|done].
  - apply Hf.
  - rewrite (frame_day _ _ _ _ Hf). lia.
  - apply Hf.
  - by eapply frame_prefix.
Qed.

Lemma flush_delayed_full w u w' :
  flush_delayed w = Ok (u, w') ->
  T w' = T w /\ resources (sim w') = resources (sim w)
  /\ noise (sim w') = noise (sim w) /\ day (sim w') = day (sim w) + 1.
Proof.
  unfold flush_delayed. intros H. bind_step H u1 w1 H1.
  apply modify_sim_inv in H1 as [H1 _]. apply modify_sim_inv in H as [H _].
  rewrite H, H1. simpl. done.
Qed.

Lemma release_resources_full w u w' :
  release_resources w = Ok (u, w') ->
  sim w' = set_resources (released (resources (sim w))) (sim w).
Proof. unfold release_resources. intros H. by apply modify_sim_inv in H as [-> _]. Qed.

Lemma flush_delayed_evolves w u w' :
  flush_delayed w = Ok (u, w') -> evolves (sim w) (sim w').
Proof.
  intros H. pose proof (flush_delayed_inv _ _ _ H) as (HT & Hl & _).
  apply flush_delayed_full in H as (_ & Hr & Hn & Hd).
  split; try congruence.
  - intros k t Ht. exists t. rewrite HT. split; [done|].
    split; [apply same_static_refl|done].
  - lia.
  - rewrite Hl. by apply prefix_app_r.
Qed.

Lemma release_resources_evolves w u w' :
  release_resources w = Ok (u, w') -> evolves (sim w) (sim w').
Proof.
  intros H. apply release_resources_full in H. rewrite H.
  split; simpl; [done| |done|lia|apply released_idem|done].
  intros k t Ht. exists t. split; [done|]. split; [apply same_static_refl|done].
Qed.

Lemma reachable_evolves w0 w : reachable w0 w -> evolves (sim w0) (sim w).
Proof.
  intros Hr. induction Hr as [|w w' Hr IH H|key w w' Hr IH H|w w' Hr IH H].
  - apply evolves_refl.
  - eapply evolves_trans; [exact IH|by eapply flush_delayed_evolves].
  - eapply evolves_trans; [exact IH|by eapply process_task_evolves].
  - eapply evolves_trans; [exact IH|by eapply release_resources_evolves].
Qed.

(** ** The dict that the constructor builds *)

Lemma dict_get_set (V : Type) k k' (v : V) d :
  dict_get k (dict_set k' v d) = if String.eqb k k' then Some v else dict_get k d.
Proof.
  destruct (String.eqb_spec k k') as [->|Hne].
  - apply dict_get_set_eq.
  - by apply dict_get_set_ne.
Qed.

Lemma tasks_dict_get (ts : list Task.t) k x :
  dict_get k (tasks_dict ts) = Some x -> Task.task_id x = k /\ x ∈ ts.
Proof.
  unfold tasks_dict.
  assert (Hgen : forall (l : list Task.t) acc,
            (forall y, y ∈ l -> y ∈ ts) ->
            (forall k y, dict_get k acc = Some y -> Task.task_id y = k /\ y ∈ ts) ->
            forall k y,
              dict_get k (fold_left (fun d y => dict_set (Task.task_id y) y d) l acc)
                = Some y -> Task.task_id y = k /\ y ∈ ts).
  { induction l as [|y0 l IH]; simpl; intros acc Hl Hacc; [exact Hacc|].
    apply IH.
    - intros y Hy. apply Hl. apply elem_of_cons. by right.
    - intros k' y. rewrite dict_get_set.
      destruct (String.eqb_spec k' (Task.task_id y0)) as [->|Hne].
      + intros [= <-]. split; [done|]. apply Hl. apply elem_of_cons. by left.
      + apply Hacc. }
  apply (Hgen ts []); [done|]. simpl. discriminate.
Qed.

Lemma tasks_dict_key (ts : list Task.t) x :
  x ∈ ts -> is_Some (dict_get (Task.task_id x) (tasks_dict ts)).
Proof.
  unfold tasks_dict.
  assert (Hgen : forall (l : list Task.t) acc k,
            is_Some (dict_get k acc) \/ (exists y, y ∈ l /\ Task.task_id y = k) ->
            is_Some (dict_get k
              (fold_left (fun d y => dict_set (Task.task_id y) y d) l acc))).
  { induction l as [|y0 l IH]; simpl; intros acc k H.
    - destruct H as [H|(y & Hy & _)]; [done|]. by apply elem_of_nil in Hy.
    - apply IH. rewrite dict_get_set.
      destruct (String.eqb_spec k (Task.task_id y0)) as [->|Hne]; [left; eauto|].
      destruct H as [H|(y & Hy & Hk)]; [by left|].
      apply elem_of_cons in Hy as [->|Hy]; [congruence|]. right. eauto. }
  intros Hx. apply Hgen. right. eauto.
Qed.


(** ** The events of the logs *)

Lemma event_known_mono s s' e : evolves s s' -> event_known s e -> event_known s' e.
Proof.
  intros Hev (k & t & Ht & He).
  destruct (ev_tasks _ _ Hev _ _ Ht) as (t' & Ht' & (Hid & _) & _).
  exists k, t'. split; [done|]. by rewrite Hid.
Qed.

Lemma process_task_log_inv key w w' :
  process_task key w = Ok (tt, w') -> log_inv (sim w) -> log_inv (sim w').
Proof.
  intros H [Hl Hd]. pose proof (process_task_evolves _ _ _ H) as Hev.
  apply process_task_frame in H as (t & Ht & [[Hc ->]|(Hc & t' & HT & Hs & _ & Hf)]);
    [done|].
  assert (Hnew : forall e, event_of (Task.task_id t) e -> event_known (sim w') e).
  { intros e He. exists key, t'. rewrite HT, dict_get_set_eq. split; [done|].
    destruct Hs as [-> _]. done. }
  destruct Hf as [Hday _ _ (l1 & Hl1 & Hf1) (l2 & Hl2 & Hf2)].
  split.
  - rewrite Hl1. apply Forall_app. split.
    + eapply Forall_impl; [exact Hl|]. intros e [He Hle].
      split; [by eapply event_known_mono|]. by rewrite Hday.
    + eapply Forall_impl; [exact Hf1|]. intros e [He Hle].
      split; [by apply Hnew|]. rewrite Hday. lia.
  - rewrite Hl2. apply Forall_app. split.
    + eapply Forall_impl; [exact Hd|]. intros e He. by eapply event_known_mono.
    + eapply Forall_impl; [exact Hf2|]. exact Hnew.
Qed.

Lemma reachable_log_inv w0 w : reachable w0 w -> log_inv (sim w0) -> log_inv (sim w).
Proof.
  intros Hr H0. induction Hr as [|w w' Hr IH H|key w w' Hr IH H|w w' Hr IH H].
  - done.
  - pose proof (flush_delayed_evolves _ _ _ H) as Hev.
    pose proof (flush_delayed_inv _ _ _ H) as (_ & Hl & Hd).
    apply flush_delayed_full in H as (_ & _ & _ & Hday).
    destruct IH as [IHl IHd]. split.
    + rewrite Hl. apply Forall_app. split.
      * eapply Forall_impl; [exact IHl|]. intros e [He Hle].
        split; [by eapply event_known_mono|]. lia.
      * apply Forall_forall. intros e He.
        apply list_elem_of_filter in He as [Hle He].
        rewrite Forall_forall in IHd. split; [|lia].
        eapply event_known_mono; [exact Hev|]. auto.
    + rewrite Hd. apply Forall_filter_keep.
      eapply Forall_impl; [exact IHd|]. intros e He. by eapply event_known_mono.
  - by eapply process_task_log_inv.
  - pose proof (release_resources_evolves _ _ _ H) as Hev.
    apply release_resources_full in H. rewrite H. destruct IH as [IHl IHd].
    split; simpl.
    + eapply Forall_impl; [exact IHl|]. intros e [(k & t & Ht & He) Hle].
      split; [|done]. by exists k, t.
    + eapply Forall_impl; [exact IHd|]. intros e (k & t & Ht & He). by exists k, t.
Qed.

(** ** The days of the tasks *)

Lemma timing_mono today today' t : today <= today' -> timing today t -> timing today' t.
Proof.
  intros Hle [Hs He]. split.
  - intros s Hs'. specialize (Hs _ Hs'). lia.
  - intros e He'. destruct (He _ He') as (s & Hs' & Hse). exists s. split; [done|lia].
Qed.

Lemma process_task_timing key w w' :
  process_task key w = Ok (tt, w') ->
  0 <= day (sim w) ->
  Forall (fun kv => completion_inv kv.2) (T w) ->
  Forall (fun kv => timing (day (sim w)) kv.2) (T w) ->
  Forall (fun kv => timing (day (sim w')) kv.2) (T w').
Proof.
  intros H Hday Hcomp Hinv.
  pose proof (process_task_tasks _ _ _ H) as Htasks.
  apply process_task_frame in H as (t & Ht & [[Hc ->]|(Hc & t' & HT & Hs & Hst & Hf)]);
    [done|].
  destruct Htasks as (t0 & Ht0 & [[Hc0 _]|(_ & t1 & HT1 & _ & Hstep)]).
  { rewrite Ht in Ht0. congruence. }
  rewrite Ht in Ht0. injection Ht0 as <-.
  assert (t1 = t') as ->.
  { assert (E : dict_get key (T w') = Some t1) by (rewrite HT1; apply dict_get_set_eq).
    rewrite HT, dict_get_set_eq in E. congruence. }
  rewrite (frame_day _ _ _ _ Hf), HT.
  apply dict_set_Forall; [done|]. intros k0. simpl.
  apply dict_get_Some_elem in Ht.
  rewrite Forall_forall in Hinv, Hcomp.
  destruct (Hinv _ Ht) as [Hs0 He0]. destruct (Hcomp _ Ht) as [_ Hend]. simpl in *.
  assert (Hnone : Task.actual_end t = None).
  { destruct (Task.actual_end t) eqn:E; [|done]. exfalso. apply Hc, Hend. eauto. }
  destruct Hst as (Hstart & Hdone & _).
  assert (Hs' : forall s, Task.actual_start t' = Some s -> 0 <= s <= day (sim w)).
  { intros s Hs'. destruct Hstart as [E|[_ E]].
    - apply Hs0. congruence.
    - rewrite E in Hs'. injection Hs' as <-. lia. }
  split; [exact Hs'|].
  intros e He.
  destruct Hstep as [_ E|_ E _|Hcs E _ _]; rewrite E in He; [congruence|congruence|].
  injection He as <-. destruct (Hdone Hcs) as [s Es]. exists s. split; [done|].
  specialize (Hs' _ Es). lia.
Qed.

Lemma reachable_timing w0 w :
  reachable w0 w ->
  0 <= day (sim w0) ->
  Forall (fun kv => completion_inv kv.2) (T w0) ->
  Forall (fun kv => timing (day (sim w0)) kv.2) (T w0) ->
  0 <= day (sim w) /\ Forall (fun kv => timing (day (sim w)) kv.2) (T w).
Proof.
  intros Hr Hd0 Hc0 H0.
  induction Hr as [|w w' Hr IH H|key w w' Hr IH H|w w' Hr IH H].
  - done.
  - destruct IH as [IHd IH].
    apply flush_delayed_full in H as (-> & _ & _ & ->). split; [lia|].
    eapply Forall_impl; [exact IH|]. intros kv. apply timing_mono. lia.
  - destruct IH as [IHd IH]. split.
    + pose proof (process_task_evolves _ _ _ H) as Hev.
      pose proof (ev_day _ _ Hev). lia.
    + eapply process_task_timing; [exact H|done| |done].
      by eapply reachable_completion.
  - apply release_resources_full in H. rewrite H. done.
Qed.

(** ** Days and resources of a run *)

Lemma for_each_evolves keys w u w' :
  for_each keys process_task w = Ok (u, w') ->
  evolves (sim w) (sim w') /\ day (sim w') = day (sim w).
Proof.
  revert w. induction keys as [|key keys IH]; simpl; intros w H.
  - apply ret_inv in H as [_ ->]. split; [apply evolves_refl|done].
  - bind_step H u1 w1 H1. rewrite (unit_eta u1) in H1.
    destruct (IH _ H) as [Hev Hd]. split.
    + eapply evolves_trans; [by eapply process_task_evolves|done].
    + rewrite Hd.
      apply process_task_frame in H1
        as (t & Ht & [[Hc ->]|(Hc & t' & HT & Hs & _ & Hf)]); [done|].
      apply Hf.
Qed.

Lemma simulate_day_inv w u w' :
  simulate_day w = Ok (u, w') ->
  day (sim w') = day (sim w) + 1
  /\ resources (sim w') = released (resources (sim w)).
Proof.
  unfold simulate_day. intros H.
  bind_step H u1 w1 H1. apply flush_delayed_full in H1 as (_ & Hr1 & _ & Hd1).
  bind_step H s w2 H2. apply get_sim_inv in H2 as [-> ->].
  bind_step H u3 w3 H3. apply for_each_evolves in H3 as [Hev Hd3].
  apply release_resources_full in H. rewrite H. simpl. split; [lia|].
  rewrite (ev_resources _ _ Hev). by rewrite Hr1.
Qed.

Lemma run_loop_inv n w u w' :
  run_loop n w = Ok (u, w') ->
  exists k : nat,
    (k <= n)%nat /\ day (sim w') = day (sim w) + Z.of_nat k
    /\ ((k < n)%nat -> all_tasks_completed (sim w') = true)
    /\ ((0 < n)%nat -> (0 < k)%nat /\ resources (sim w') = released (resources (sim w)))
    /\ (n = 0%nat -> w' = w).
Proof.
  revert w. induction n as [|n IH]; simpl; intros w H.
  - apply ret_inv in H as [_ ->]. exists 0%nat. repeat split; lia.
  - bind_step H u1 w1 H1. bind_step H s w2 H2.
    apply get_sim_inv in H2 as [-> ->].
    apply simulate_day_inv in H1 as [Hd1 Hr1].
    destruct (all_tasks_completed (sim w1)) eqn:Eall.
    + apply ret_inv in H as [_ ->]. exists 1%nat.
      split; [lia|]. split; [lia|]. split; [done|]. split; [|lia].
      intros _. split; [lia|done].
    + destruct (IH _ H) as (k & Hk & Hd & Hall & Hpos & Hzero).
      exists (S k). split; [lia|]. split; [lia|]. split; [intros; apply Hall; lia|].
      split; [|lia]. intros _. split; [lia|].
      destruct n as [|n].
      * rewrite (Hzero eq_refl). done.
      * destruct Hpos as [_ ->]; [lia|]. rewrite Hr1. apply released_idem.
Qed.


(** ** Runs that return *)

Section Returns.
Variable K : list string.
Hypothesis Hrand : randint_lower.

Lemma returns_bind {A B : Type} (m : M A) (f : A -> M B) (Q : A -> Prop)
    (Q' : B -> Prop) :
  returns K m Q -> (forall a, Q a -> returns K (f a) Q') -> returns K (bind m f) Q'.
Proof.
  intros Hm Hf w Hw. destruct (Hm w Hw) as (a & w1 & E1 & Hw1 & Ha).
  destruct (Hf a Ha w1 Hw1) as (b & w2 & E2 & Hw2 & Hb).
  exists b, w2. unfold bind. rewrite E1. done.
Qed.

Lemma returns_ret {A : Type} (a : A) (Q : A -> Prop) : Q a -> returns K (ret a) Q.
Proof. intros Ha w Hw. by exists a, w. Qed.

Lemma returns_get_sim : returns K get_sim (ready K).
Proof. intros w Hw. by exists (sim w), w. Qed.

Lemma returns_modify_sim f :
  (forall s, ready K s -> ready K (f s)) -> returns K (modify_sim f) (fun _ => True).
Proof. intros Hf w Hw. eexists tt, _. split; [reflexivity|]. simpl. auto. Qed.

Lemma returns_draw {A : Type} (f : rng_state -> A * rng_state) :
  returns K (draw f) (fun _ => True).
Proof.
  intros w Hw. unfold draw. destruct (f (rng w)) as [a g]. by exists a, (mkWorld (sim w) g).
Qed.

Lemma returns_chance p : returns K (chance p) (fun _ => True).
Proof.
  unfold chance. eapply returns_bind; [apply returns_draw|].
  intros u _. by apply returns_ret.
Qed.

Lemma returns_uniform a b : returns K (uniform a b) (fun _ => True).
Proof.
  unfold uniform. eapply returns_bind; [apply returns_draw|].
  intros u _. by apply returns_ret.
Qed.

Lemma returns_regress_progress c mx : returns K (regress_progress c mx) (fun _ => True).
Proof.
  unfold regress_progress. eapply returns_bind; [apply returns_uniform|].
  intros u _. by apply returns_ret.
Qed.

Lemma returns_randint a b : a <= b -> returns K (randint a b) (fun x => a <= x).
Proof.
  intros Hab w Hw. unfold randint. destruct (Z.ltb_spec b a); [lia|].
  unfold draw. pose proof (Hrand a b (rng w) Hab) as Hlow.
  destruct (rng_randint a b (rng w)) as [x g]. by exists x, (mkWorld (sim w) g).
Qed.

Lemma returns_float_div_int x c : c <> 0 -> returns K (float_div_int x c) (fun _ => True).
Proof.
  intros Hc. unfold float_div_int. destruct (Z.eqb_spec c 0); [done|].
  by apply returns_ret.
Qed.

Lemma returns_get_task key : key ∈ K -> returns K (get_task key) (task_ok K).
Proof.
  intros Hkey w Hw. unfold get_task, bind, get_sim.
  destruct Hw as (Hk & Hok & Hd & Hn).
  destruct (proj1 (Hk key) Hkey) as [x Hx]. rewrite Hx.
  exists x, w. split; [done|]. split; [done|]. by eapply Hok.
Qed.

Lemma ready_set_tasks key x s :
  key ∈ K -> task_ok K x -> ready K s ->
  ready K (set_tasks (dict_set key x (tasks s)) s).
Proof.
  intros Hkey Hx (Hk & Hok & Hd & Hn). split; [|split; [|done]]; simpl.
  - intros k. rewrite dict_get_set. destruct (String.eqb_spec k key) as [->|Hne].
    + split; [eauto|done].
    + apply Hk.
  - intros k t. rewrite dict_get_set. destruct (String.eqb k key).
    + by intros [= <-].
    + apply Hok.
Qed.

Lemma returns_update_task key f :
  key ∈ K -> (forall x, task_ok K x -> task_ok K (f x)) ->
  returns K (update_task key f) (fun _ => True).
Proof.
  intros Hkey Hf. unfold update_task.
  eapply returns_bind; [by apply returns_get_task|]. intros x Hx.
  apply returns_modify_sim. intros s. apply ready_set_tasks; auto.
Qed.

Lemma returns_all_completed deps :
  Forall (fun dep => dep ∈ K) deps -> returns K (all_completed deps) (fun _ => True).
Proof.
  induction deps as [|dep deps IH]; simpl; intros Hdeps.
  - by apply returns_ret.
  - apply Forall_cons in Hdeps as [Hdep Hdeps].
    eapply returns_bind; [by apply returns_get_task|]. intros d _.
    destruct (TaskStatus.eqb _ _); [auto|by apply returns_ret].
Qed.

Lemma returns_find_resource task :
  returns K (find_resource_for_task task) (fun _ => True).
Proof.
  unfold find_resource_for_task. eapply returns_bind; [apply returns_get_sim|].
  intros s _. by apply returns_ret.
Qed.

Lemma returns_assign_resource i tid :
  returns K (assign_resource i tid) (fun _ => True).
Proof. apply returns_modify_sim. intros s Hs. exact Hs. Qed.

Lemma returns_new d tid ty r :
  0 <= d -> tid <> "" ->
  returns K (lift_res (EventLog.new d tid ty r))
    (fun e => 0 <= EventLog.day e /\ EventLog.task_id e <> "").
Proof.
  intros Hd Htid w Hw. unfold lift_res, EventLog.new.
  destruct (Z.ltb_spec d 0); [lia|]. destruct (String.eqb_spec tid ""); [done|].
  eexists _, w. split; [reflexivity|]. done.
Qed.

Lemma returns_log_event event :
  0 <= EventLog.day event -> EventLog.task_id event <> "" ->
  returns K (log_event event) (fun _ => True).
Proof.
  intros Hd Htid. unfold log_event.
  eapply returns_bind; [apply returns_get_sim|]. intros s (_ & _ & _ & Hlo & Hhi).
  eapply returns_bind; [apply returns_chance|]. intros dropped _.
  destruct dropped; [by apply returns_ret|].
  eapply returns_bind; [apply returns_chance|]. intros delayed _.
  destruct delayed.
  - eapply returns_bind; [by apply returns_randint|]. intros dd Hdd. cbv beta in Hdd.
    eapply returns_bind; [apply returns_new; [lia|done]|]. intros de _.
    apply returns_modify_sim. intros s1 Hs1. exact Hs1.
  - apply returns_modify_sim. intros s1 Hs1. exact Hs1.
Qed.

Lemma returns_emit d tid ty r :
  0 <= d -> tid <> "" -> returns K (emit d tid ty r) (fun _ => True).
Proof.
  intros Hd Htid. unfold emit.
  eapply returns_bind; [by apply returns_new|]. intros e [He1 He2].
  by apply returns_log_event.
Qed.

Ltac returns_prim :=
  first
    [ by apply returns_ret
    | apply returns_get_sim
    | apply returns_get_task; assumption
    | apply returns_chance | apply returns_uniform | apply returns_regress_progress
    | apply returns_find_resource | apply returns_assign_resource
    | apply returns_update_task; [assumption|by intros ? (?&?&?)]
    | apply returns_emit; assumption
    | apply returns_float_div_int; assumption ].

Ltac returns_step :=
  match goal with
  | |- returns _ (if ?b then _ else _) _ => destruct b
  | |- returns _ (let x := _ in _) _ => cbv zeta
  | |- returns _ (bind (match _ with _ => _ end) _) _ =>
      apply returns_bind with (Q := fun _ => True); [|intros ? _]
  | |- returns _ (bind _ _) _ => eapply returns_bind; [returns_prim|intros ? ?]
  | |- returns _ (match ?x with _ => _ end) _ => destruct x
  | |- _ => returns_prim
  end.

Lemma returns_process_task key :
  key ∈ K -> returns K (process_task key) (fun _ => True).
Proof.
  intros Hkey. unfold process_task.
  eapply returns_bind; [by apply returns_get_task|]. intros task (Htid & Hc & Hdeps).
  destruct (TaskStatus.eqb _ _); [by apply returns_ret|].
  eapply returns_bind; [apply returns_get_sim|]. intros s (_ & _ & Hday & _).
  cbv zeta.
  eapply returns_bind; [apply returns_chance|]. intros ext _.
  destruct ext; [repeat returns_step|].
  eapply returns_bind; [by apply returns_all_completed|]. intros deps_ok _.
  destruct deps_ok; simpl negb; cbv iota; [|repeat returns_step].
  repeat returns_step.
Qed.


Lemma returns_for_each keys :
  Forall (fun key => key ∈ K) keys ->
  returns K (for_each keys process_task) (fun _ => True).
Proof.
  induction keys as [|key keys IH]; simpl; intros Hkeys.
  - by apply returns_ret.
  - apply Forall_cons in Hkeys as [Hkey Hkeys].
    eapply returns_bind; [by apply returns_process_task|]. intros _ _. auto.
Qed.

Lemma returns_flush_delayed : returns K flush_delayed (fun _ => True).
Proof.
  unfold flush_delayed.
  eapply returns_bind; [apply returns_modify_sim|intros _ _; apply returns_modify_sim].
  - intros s (Hk & Hok & Hd & Hn). split; [done|]. split; [done|]. split; [simpl; lia|done].
  - intros s Hs. exact Hs.
Qed.

Lemma returns_release_resources : returns K release_resources (fun _ => True).
Proof. apply returns_modify_sim. intros s Hs. exact Hs. Qed.

Lemma ready_keys s : ready K s -> Forall (fun key => key ∈ K) (tasks s).*1.
Proof.
  intros (Hk & _). apply Forall_forall. intros k Hin. apply Hk.
  destruct (dict_get k (tasks s)) eqn:E; [eauto|].
  by apply dict_get_None in E.
Qed.

Lemma returns_simulate_day : returns K simulate_day (fun _ => True).
Proof.
  unfold simulate_day.
  eapply returns_bind; [apply returns_flush_delayed|]. intros _ _.
  eapply returns_bind; [apply returns_get_sim|]. intros s Hs.
  eapply returns_bind; [apply returns_for_each; by apply ready_keys|]. intros _ _.
  apply returns_release_resources.
Qed.

Lemma returns_run_loop n : returns K (run_loop n) (fun _ => True).
Proof.
  induction n as [|n IH]; simpl.
  - by apply returns_ret.
  - eapply returns_bind; [apply returns_simulate_day|]. intros _ _.
    eapply returns_bind; [apply returns_get_sim|]. intros s _.
    destruct (all_tasks_completed s); [by apply returns_ret|exact IH].
Qed.

End Returns.

Lemma post_init_ok t :
  TaskInit.post_init t = Ok tt ->
  Task.task_id t <> "" /\ 0 < Task.planned_duration t /\ 1 <= Task.complexity t <= 5.
Proof.
  unfold TaskInit.post_init.
  destruct (String.eqb_spec (Task.task_id t) ""); [discriminate|].
  destruct (Z.leb_spec (Task.planned_duration t) 0); [discriminate|].
  destruct (Z.leb_spec 1 (Task.complexity t)); simpl; [|discriminate].
  destruct (Z.leb_spec (Task.complexity t) 5); simpl; [|discriminate].
  intros _. split; [done|lia].
Qed.

(** The dependencies of the tasks [ts] are ids of tasks of [ts]. *)
Lemma init_ready ts rs seed noise_config g :
  Forall (fun t => TaskInit.post_init t = Ok tt) ts ->
  Forall (fun t => Forall (fun dep => exists t', t' ∈ ts /\ Task.task_id t' = dep)
                     (Task.dependencies t)) ts ->
  delay_range_ok (match noise_config with Some n => n | None => default_noise end) ->
  ready (tasks_dict ts).*1 (sim (init ts rs seed noise_config g)).
Proof.
  intros Hinit Hdeps Hrange.
  assert (Hkeys : forall k, k ∈ (tasks_dict ts).*1 <-> is_Some (dict_get k (tasks_dict ts))).
  { intros k. destruct (dict_get k (tasks_dict ts)) as [x|] eqn:E.
    - split; [eauto|]. intros _. apply dict_get_Some_elem in E.
      apply list_elem_of_fmap. by exists (k, x).
    - apply dict_get_None in E. split; [done|]. by intros [? [=]]. }
  split; [exact Hkeys|]. split; [|split; [simpl; lia|exact Hrange]].
  intros k t Ht. simpl in Ht. apply tasks_dict_get in Ht as [Hid Hin].
  rewrite Forall_forall in Hinit, Hdeps.
  destruct (post_init_ok _ (Hinit _ Hin)) as (Hne & _ & Hc).
  split; [done|]. split; [lia|].
  eapply Forall_impl; [exact (Hdeps _ Hin)|].
  intros dep (t' & Hin' & <-). apply Hkeys. by apply tasks_dict_key.
Qed.


Lemma dict_set_keys_new {V : Type} key (v : V) d :
  dict_get key d = None -> (dict_set key v d).*1 = d.*1 ++ [key].
Proof.
  induction d as [|[k y] d IH]; simpl; [done|].
  destruct (String.eqb key k); [discriminate|]. intros H. cbn. f_equal. by apply IH.
Qed.

Lemma tasks_dict_NoDup (ts : list Task.t) : NoDup (tasks_dict ts).*1.
Proof.
  unfold tasks_dict.
  assert (Hgen : forall (l : list Task.t) (acc : list (string * Task.t)),
            NoDup acc.*1 ->
            NoDup (fold_left (fun d y => dict_set (Task.task_id y) y d) l acc).*1).
  { induction l as [|y l IH]; simpl; intros acc Hacc; [done|]. apply IH.
    destruct (dict_get (Task.task_id y) acc) eqn:E.
    - by rewrite (dict_set_keys _ _ _ _ E).
    - rewrite (dict_set_keys_new _ _ _ E). apply NoDup_app. split; [done|].
      split; [|apply NoDup_singleton].
      intros k Hk Hin. apply list_elem_of_singleton in Hin as ->.
      by apply dict_get_None in E. }
  apply Hgen. constructor.
Qed.

(** A task of a state that a run from [ts] reaches is a task of [ts], with
    only its execution state changed. *)
Lemma reachable_init_task ts rs seed noise_config g w k t :
  reachable (init ts rs seed noise_config g) w ->
  dict_get k (T w) = Some t ->
  Task.task_id t = k
  /\ exists t0, t0 ∈ ts /\ dict_get k (tasks_dict ts) = Some t0 /\ same_static t0 t.
Proof.
  intros Hr Ht. apply reachable_evolves in Hr. simpl in Hr.
  destruct (dict_get k (tasks_dict ts)) as [t0|] eqn:E0.
  - destruct (ev_tasks _ _ Hr _ _ E0) as (t' & Ht' & Hs & _).
    rewrite Ht in Ht'. injection Ht' as <-.
    destruct (tasks_dict_get _ _ _ E0) as [Hid Hin].
    split; [|by exists t0]. destruct Hs as [-> _]. done.
  - apply dict_get_None in E0. apply dict_get_Some_elem in Ht.
    exfalso. apply E0. pose proof (ev_keys _ _ Hr) as Hk. simpl in Hk.
    rewrite <- Hk.
    apply list_elem_of_fmap. by exists (k, t).
Qed.

Lemma all_completed_unknown done dep rest w :
  Forall (dep_done (T w)) done -> dict_get dep (T w) = None ->
  all_completed (done ++ dep :: rest) w = Raise (KeyError dep).
Proof.
  intros Hdone Hdep. induction Hdone as [|d done (x & Hx & Hc) _ IH]; simpl.
  - unfold bind, get_task, bind, get_sim. by rewrite Hdep.
  - unfold bind at 1. unfold get_task, bind, get_sim. rewrite Hx. unfold ret.
    rewrite Hc. exact IH.
Qed.

Lemma run_reachable w0 max_days w w' u :
  reachable w0 w -> run max_days w = Ok (u, w') -> reachable w0 w'.
Proof. unfold run. apply run_loop_reachable. Qed.

(** ** Properties of runs *)

(** X1.  A run returns, whatever the draws, on tasks that pass the checks of
    their constructor and depend only on tasks of the project, with a delay
    range [(lo, hi)] such that [0 <= lo <= hi], for every generator whose
    [randint(a, b)] returns no less than [a]: none of the lookups, the
    [EventLog] checks, the division by the complexity or [randint] raises. *)
Theorem run_returns ts rs seed noise_config max_days (g : rng_state) :
  randint_lower ->
  Forall (fun t => TaskInit.post_init t = Ok tt) ts ->
  Forall (fun t => Forall (fun dep => exists t', t' ∈ ts /\ Task.task_id t' = dep)
                     (Task.dependencies t)) ts ->
  delay_range_ok (match noise_config with Some n => n | None => default_noise end) ->
  exists w, simulate ts rs seed noise_config max_days g = Ok (tt, w).
Proof.
  intros Hrand Hinit Hdeps Hrange. unfold simulate, run.
  destruct (returns_run_loop (tasks_dict ts).*1 Hrand (Z.to_nat max_days)
              (init ts rs seed noise_config g)) as ([] & w & E & _).
  { by apply init_ready. }
  by exists w.
Qed.

(** X2.  A dependency that names no task of the dict is a [KeyError] as soon
    as the loop body reaches it: for a task that is not completed, when the
    external draw is false and the dependencies listed before the unknown
    one are completed, the pass raises [KeyError] with the unknown id. *)
Theorem unknown_dependency_raises key w w1 task done dep rest :
  dict_get key (tasks (sim w)) = Some task ->
  Task.status task <> TaskStatus.COMPLETED ->
  chance (external_block_prob (noise (sim w))) w = Ok (false, w1) ->
  Task.dependencies task = done ++ dep :: rest ->
  Forall (dep_done (tasks (sim w))) done ->
  dict_get dep (tasks (sim w)) = None ->
  process_task key w = Raise (KeyError dep).
Proof.
  intros Ht Hc Hext Hdeps Hdone Hdep. unfold process_task.
  unfold bind at 1. unfold get_task, bind at 1. unfold get_sim at 1. rewrite Ht.
  unfold ret at 1.
  destruct (status_eqb_spec (Task.status task) TaskStatus.COMPLETED); [done|].
  unfold bind at 1. unfold get_sim at 1.
  unfold bind at 1. rewrite Hext.
  unfold bind at 1. unfold dependencies_completed. rewrite Hdeps.
  pose proof (chance_inv _ _ _ _ Hext) as Hsim.
  rewrite all_completed_unknown; [done| |]; by rewrite Hsim.
Qed.

(** X3.  A completed task is final: between any two points of a run, one
    after the other, a task that is completed at the first is the same
    record at the second (status, days and progress included). *)
Theorem completed_is_final w w' key t :
  reachable w w' ->
  dict_get key (tasks (sim w)) = Some t ->
  Task.status t = TaskStatus.COMPLETED ->
  dict_get key (tasks (sim w')) = Some t.
Proof.
  intros Hr Ht Hc. apply reachable_evolves in Hr.
  destruct (ev_tasks _ _ Hr _ _ Ht) as (t' & Ht' & _ & Hfin).
  by rewrite Ht', (Hfin Hc).
Qed.

(** X4.  A run neither adds, removes nor reorders tasks, and it changes of
    a task only the execution state: in every state reached from the tasks
    [ts], the keys of the dict are those the constructor made, without
    duplicates, every id of [ts] among them, and the task under a key has
    that key as its id and the planned duration, complexity, priority,
    skill and dependencies of the task of [ts] the constructor stored. *)
Theorem run_keeps_tasks ts rs seed noise_config (g : rng_state) w :
  reachable (init ts rs seed noise_config g) w ->
  (tasks (sim w)).*1 = (tasks_dict ts).*1
  /\ NoDup (tasks (sim w)).*1
  /\ (forall t, t ∈ ts -> Task.task_id t ∈ (tasks (sim w)).*1)
  /\ forall k t, (k, t) ∈ tasks (sim w) ->
       Task.task_id t = k
       /\ exists t0, t0 ∈ ts /\ dict_get k (tasks_dict ts) = Some t0
                     /\ same_static t0 t.
Proof.
  intros Hr. pose proof (reachable_evolves _ _ Hr) as Hev. simpl in Hev.
  assert (Hkeys : (tasks (sim w)).*1 = (tasks_dict ts).*1) by apply Hev.
  assert (Hnd : NoDup (tasks (sim w)).*1).
  { rewrite Hkeys. apply tasks_dict_NoDup. }
  split; [exact Hkeys|]. split; [exact Hnd|]. split.
  - intros t Hin. rewrite Hkeys. destruct (tasks_dict_key _ _ Hin) as [x Hx].
    apply dict_get_Some_elem in Hx. apply list_elem_of_fmap. by exists (Task.task_id t, x).
  - intros k t Hin. eapply reachable_init_task; [exact Hr|].
    by apply dict_get_NoDup.
Qed.

(** X5.  The visible log only grows at its end: between any two points of
    a run, one after the other, the log at the first is a prefix of the log
    at the second. *)
Theorem logs_append_only w w' :
  reachable w w' -> logs (sim w) `prefix_of` logs (sim w').
Proof. intros Hr. apply reachable_evolves in Hr. apply Hr. Qed.

(** X6.  In every state reached from the tasks [ts], every event of the
    visible log is dated between day 0 and the current day, and every event,
    visible or still delayed, has a non-negative day, carries the id of a
    task of [ts], which is not empty, and has one of the nine pairs of event
    type and reason that the loop body logs. *)
Theorem logged_events_well_formed ts rs seed noise_config (g : rng_state) w :
  reachable (init ts rs seed noise_config g) w ->
  Forall (fun e => EventLog.day e <= day (sim w)) (logs (sim w))
  /\ Forall (fun e =>
               0 <= EventLog.day e /\ EventLog.task_id e <> ""
               /\ (exists t, t ∈ ts /\ Task.task_id t = EventLog.task_id e)
               /\ (EventLog.event_type e, EventLog.reason e) ∈ EVENT_SHAPES)
            (logs (sim w) ++ delayed_logs (sim w)).
Proof.
  intros Hr.
  assert (Hinv : log_inv (sim w)).
  { eapply reachable_log_inv; [exact Hr|]. split; constructor. }
  destruct Hinv as [Hl Hd]. split.
  - eapply Forall_impl; [exact Hl|]. by intros e [_ He].
  - assert (Hknown : forall e, event_known (sim w) e ->
              0 <= EventLog.day e /\ EventLog.task_id e <> ""
              /\ (exists t, t ∈ ts /\ Task.task_id t = EventLog.task_id e)
              /\ (EventLog.event_type e, EventLog.reason e) ∈ EVENT_SHAPES).
    { intros e (k & t & Ht & Hid & Hne & Hday & Hshape).
      destruct (reachable_init_task _ _ _ _ _ _ _ _ Hr Ht)
        as (Hk & t0 & Hin & _ & Hid0 & _).
      split; [done|]. split; [by rewrite Hid|]. split; [|done].
      exists t0. split; [done|]. congruence. }
    apply Forall_app. split.
    + eapply Forall_impl; [exact Hl|]. intros e [He _]. auto.
    + eapply Forall_impl; [exact Hd|]. auto.
Qed.

(** X7.  When [run] returns after at least one day, every resource is idle
    again and the pool is otherwise as it was: the same resources in the
    same order, with [assigned_task] reset; [run] with no day to simulate
    changes nothing. *)
Theorem run_releases_resources max_days w w' :
  run max_days w = Ok (tt, w') ->
  (0 < max_days -> resources (sim w') = released (resources (sim w)))
  /\ (max_days <= 0 -> w' = w).
Proof.
  unfold run. intros H.
  apply run_loop_inv in H as (k & _ & _ & _ & Hpos & Hzero). split.
  - intros Hmax. apply Hpos. lia.
  - intros Hmax. apply Hzero. lia.
Qed.

(** X8.  [run] simulates at most [max_days] days and at least one when
    [max_days] is positive, and it stops before [max_days] only on a day at
    whose end every task is completed. *)
Theorem run_day_count max_days w w' :
  run max_days w = Ok (tt, w') ->
  day (sim w) <= day (sim w') <= day (sim w) + Z.max 0 max_days
  /\ (0 < max_days -> day (sim w) < day (sim w'))
  /\ (day (sim w') < day (sim w) + max_days ->
      all_tasks_completed (sim w') = true).
Proof.
  unfold run. intros H.
  apply run_loop_inv in H as (k & Hk & Hd & Hall & Hpos & _).
  split; [lia|]. split.
  - intros Hmax. destruct Hpos as [Hpos _]; lia.
  - intros Hlt. apply Hall. lia.
Qed.

(** X9.  From tasks in the default execution state (not started, no start
    and no end day), in every state a run reaches: a start day is between
    day 0 and the current day; a completed task has both days, with
    [actual_start <= actual_end <= day]; a task that is not completed has no
    end day. *)
Theorem task_days_ordered ts rs seed noise_config (g : rng_state) w :
  Forall (fun t => Task.status t = TaskStatus.NOT_STARTED
                   /\ Task.actual_start t = None
                   /\ Task.actual_end t = None) ts ->
  reachable (init ts rs seed noise_config g) w ->
  Forall (fun kv =>
            timing (day (sim w)) kv.2
            /\ (Task.status kv.2 = TaskStatus.COMPLETED ->
                exists s e, Task.actual_start kv.2 = Some s
                            /\ Task.actual_end kv.2 = Some e
                            /\ 0 <= s <= e /\ e <= day (sim w))
            /\ (Task.status kv.2 <> TaskStatus.COMPLETED ->
                Task.actual_end kv.2 = None))
         (tasks (sim w)).
Proof.
  intros Hts Hr.
  assert (Hc0 : Forall (fun kv => completion_inv kv.2)
                  (T (init ts rs seed noise_config g))).
  { apply init_tasks_Forall. eapply Forall_impl; [exact Hts|].
    intros t (Hs & _ & He). split.
    - rewrite Hs. discriminate.
    - rewrite He. intros [? [=]]. }
  assert (Ht0 : Forall (fun kv => timing (day (sim (init ts rs seed noise_config g))) kv.2)
                  (T (init ts rs seed noise_config g))).
  { apply init_tasks_Forall. eapply Forall_impl; [exact Hts|].
    intros t (_ & Hs & He). split.
    - rewrite Hs. discriminate.
    - rewrite He. discriminate. }
  pose proof (reachable_completion _ _ Hr Hc0) as Hc.
  destruct (reachable_timing _ _ Hr ltac:(simpl; lia) Hc0 Ht0) as [Hd Ht].
  apply Forall_forall. intros kv Hin.
  rewrite Forall_forall in Hc, Ht.
  destruct (Hc _ Hin) as [Hc1 Hc2]. pose proof (Ht _ Hin) as Htm.
  split; [exact Htm|]. destruct Htm as [Hs He]. split.
  - intros Hdone. destruct (Hc1 Hdone) as [[e Ee] _].
    destruct (He _ Ee) as (s & Es & Hse). exists s, e.
    specialize (Hs _ Es). repeat split; try done; lia.
  - intros Hnot. destruct (Task.actual_end kv.2) eqn:E; [|done].
    exfalso. apply Hnot, Hc2. eauto.
Qed.

(** X20.  A delay range that [random.randint] or [EventLog] cannot take
    makes [log_event] raise as soon as an event is to be delayed (the drop
    draw false, the delay draw true): a range whose upper bound is below
    its lower bound is a [ValueError] of [randint], and a drawn delay that
    takes the event to a negative day is the [ValueError] of [EventLog]. *)
Theorem bad_delay_range_raises event w w1 w2 :
  chance (log_drop_prob (noise (sim w))) w = Ok (false, w1) ->
  chance 0.3%float w1 = Ok (true, w2) ->
  (snd (log_delay_range (noise (sim w))) < fst (log_delay_range (noise (sim w))) ->
   exists msg, log_event event w = Raise (ValueError msg))
  /\ (forall delay_days g',
        fst (log_delay_range (noise (sim w))) <= snd (log_delay_range (noise (sim w))) ->
        rng_randint (fst (log_delay_range (noise (sim w))))
                    (snd (log_delay_range (noise (sim w)))) (rng w2)
          = (delay_days, g') ->
        EventLog.day event + delay_days < 0 ->
        log_event event w = Raise (ValueError "day must be non-negative")).
Proof.
  intros Hdrop Hdelay.
  assert (E : log_event event w =
              bind (random_delay (fst (log_delay_range (noise (sim w))))
                                 (snd (log_delay_range (noise (sim w)))))
                (fun delay_days =>
                   bind (lift_res
                           (EventLog.new (EventLog.day event + delay_days)
                              (EventLog.task_id event) (EventLog.event_type event)
                              (EventLog.reason event)))
                     (fun delayed_event =>
                        modify_sim (fun s =>
                          set_delayed_logs (delayed_logs s ++ [delayed_event]) s)))
                w2).
  { unfold log_event. unfold bind at 1. unfold get_sim at 1.
    unfold bind at 1. rewrite Hdrop. unfold bind at 1. rewrite Hdelay. reflexivity. }
  rewrite E. unfold random_delay, randint. split.
  - intros Hlt. destruct (Z.ltb_spec (snd (log_delay_range (noise (sim w))))
                                     (fst (log_delay_range (noise (sim w))))); [|lia].
    unfold bind, raise. eauto.
  - intros dd g' Hle Hdraw Hneg.
    destruct (Z.ltb_spec (snd (log_delay_range (noise (sim w))))
                         (fst (log_delay_range (noise (sim w))))); [lia|].
    unfold bind at 1. unfold draw. rewrite Hdraw. unfold bind, lift_res, EventLog.new.
    destruct (Z.ltb_spec (EventLog.day event + dd) 0); [done|lia].
Qed.

End RunFacts.

Section RunWitnesses.
Import Simulator Invariants Runs Samples MoreSamples.

Lemma tape_randint_lower : randint_lower (G := Tape.gen).
Proof.
  intros a b g Hab. simpl. unfold Tape.randint.
  destruct (Tape.random g) as [x rest]. simpl. destruct (x <? 0.5)%float; lia.
Qed.

Lemma run_returns_witness :
  exists w, simulate (G := Tape.gen) [T1; T2] [R1] 42 None 100 Tape.draws = Ok (tt, w).
Proof.
  apply (run_returns (G := Tape.gen) [T1; T2] [R1] 42 None 100 Tape.draws).
  - exact tape_randint_lower.
  - repeat constructor.
  - repeat constructor. exists T1. split; [|reflexivity]. apply elem_of_cons. by left.
  - unfold delay_range_ok. simpl. lia.
Defined.

Lemma unknown_dependency_raises_witness :
  process_task (G := Tape.gen) "T3" (init (G := Tape.gen) [T3] [R1] 42 None Tape.draws)
    = Raise (KeyError "T9").
Proof.
  eapply (unknown_dependency_raises (G := Tape.gen) "T3" _ _ T3 [] "T9" []).
  - reflexivity.
  - discriminate.
  - reflexivity.
  - reflexivity.
  - constructor.
  - reflexivity.
Defined.

Lemma run_halfway : run (G := Tape.gen) 12 project = Ok (tt, halfway).
Proof. vm_compute. reflexivity. Qed.

Lemma run_finished : run (G := Tape.gen) 100 project = Ok (tt, finished).
Proof. vm_compute. reflexivity. Qed.

Lemma completed_is_final_witness :
  exists w' t,
    run (G := Tape.gen) 2 finished = Ok (tt, w')
    /\ day (sim finished) < day (sim w')
    /\ Task.status t = TaskStatus.COMPLETED
    /\ dict_get "T1" (tasks (sim finished)) = Some t
    /\ dict_get "T1" (tasks (sim w')) = Some t.
Proof.
  destruct (run (G := Tape.gen) 2 finished) as [[[] w']|e] eqn:E;
    [|vm_compute in E; discriminate].
  destruct (dict_get "T1" (tasks (sim finished))) as [t|] eqn:Et;
    [|vm_compute in Et; discriminate].
  assert (Hc : Task.status t = TaskStatus.COMPLETED).
  { vm_compute in Et. injection Et as <-. reflexivity. }
  exists w', t. split; [reflexivity|]. split.
  { pose proof E as E'. unfold run in E'.
    apply run_loop_inv in E' as (k & _ & Hd & _ & Hpos & _).
    destruct Hpos as [Hpos _]; [simpl; lia|]. lia. }
  split; [exact Hc|]. split; [reflexivity|].
  apply (completed_is_final (G := Tape.gen) finished w' "T1" t); [|exact Et|exact Hc].
  exact (run_reachable _ _ _ _ _ (reach_init _) E).
Defined.


Lemma reachable_finished : reachable project finished.
Proof.
  exact (run_reachable project 100 project finished tt (reach_init project)
           run_finished).
Qed.

Lemma run_keeps_tasks_witness :
  reachable project finished /\ (tasks (sim finished)).*1 = ["T1"; "T2"].
Proof.
  split; [exact reachable_finished|].
  exact (proj1 (run_keeps_tasks (G := Tape.gen) [T1; T2] [R1] 42 None Tape.draws
                  finished reachable_finished)).
Defined.

Lemma logs_append_only_witness :
  run (G := Tape.gen) 88 halfway = Ok (tt, finished)
  /\ logs (sim halfway) <> []
  /\ logs (sim halfway) `prefix_of` logs (sim finished).
Proof.
  assert (E : run (G := Tape.gen) 88 halfway = Ok (tt, finished))
    by (vm_compute; reflexivity).
  split; [exact E|]. split; [discriminate|].
  apply (logs_append_only (G := Tape.gen) halfway finished).
  exact (run_reachable _ _ _ _ _ (reach_init _) E).
Defined.

Lemma logged_events_well_formed_witness :
  reachable project finished
  /\ Forall (fun e => EventLog.day e <= day (sim finished)) (logs (sim finished)).
Proof.
  split; [exact reachable_finished|].
  exact (proj1 (logged_events_well_formed (G := Tape.gen) [T1; T2] [R1] 42 None
                  Tape.draws finished reachable_finished)).
Defined.

Lemma run_releases_resources_witness :
  run (G := Tape.gen) 100 project = Ok (tt, finished)
  /\ resources (sim finished) = [R1].
Proof.
  split; [exact run_finished|].
  apply (proj1 (run_releases_resources (G := Tape.gen) 100 project finished
                  run_finished)). lia.
Defined.

Lemma run_day_count_witness :
  run (G := Tape.gen) 100 project = Ok (tt, finished)
  /\ day (sim finished) = 28
  /\ all_tasks_completed (sim finished) = true.
Proof.
  split; [exact run_finished|]. split; [reflexivity|].
  apply (proj2 (proj2 (run_day_count (G := Tape.gen) 100 project finished
                         run_finished))).
  simpl. lia.
Defined.

Lemma task_days_ordered_witness :
  reachable project finished
  /\ Forall (fun kv => timing (day (sim finished)) kv.2) (tasks (sim finished)).
Proof.
  split; [exact reachable_finished|].
  eapply Forall_impl;
    [apply (task_days_ordered (G := Tape.gen) [T1; T2] [R1] 42 None Tape.draws
              finished); [repeat constructor|exact reachable_finished]|].
  intros kv H. apply H.
Defined.


Lemma bad_delay_range_raises_witness :
  exists msg,
    log_event (G := Tape.gen) (EventLog.mk 1 "T1" EventType.START None) misconfigured
    = Raise (ValueError msg).
Proof.
  refine (proj1 (bad_delay_range_raises (G := Tape.gen)
                   (EventLog.mk 1 "T1" EventType.START None) misconfigured
                   (mkWorld (G := Tape.gen) (sim misconfigured) [0.07; 0.62]%float)
                   (mkWorld (G := Tape.gen) (sim misconfigured) [0.62; 0.07]%float)
                   _ _) _).
  - reflexivity.
  - reflexivity.
  - simpl. lia.
Defined.

End RunWitnesses.

(* ===================================================================== *)
(** * Decision support *)
(* ===================================================================== *)

Section DecisionFacts.
Import Rules SpecWords WhatIf Actions Impact.

(** The actions are the rules, one for one, in the order of the rules. *)
Lemma actions_fields :
  map (fun a => (Actions.field a, Actions.threshold a)) ACTIONS
  = map (fun r => (Rules.field r, Rules.threshold r)) RULES.
Proof. reflexivity. Qed.

Lemma insert_by_length {A : Type} (key : A -> Z) x l :
  length (insert_by key x l) = S (length l).
Proof.
  induction l as [|y l IH]; simpl; [done|].
  destruct (key x <=? key y); simpl; [done|]. by rewrite IH.
Qed.

Lemma sort_by_length {A : Type} (key : A -> Z) l : length (sort_by key l) = length l.
Proof.
  induction l as [|x l IH]; simpl; [done|]. by rewrite insert_by_length, IH.
Qed.

Lemma insert_by_perm {A : Type} (key : A -> Z) x l : insert_by key x l ≡ₚ x :: l.
Proof.
  induction l as [|y l IH]; simpl; [done|].
  destruct (key x <=? key y); [done|]. rewrite IH. apply Permutation_swap.
Qed.

Lemma sort_by_perm {A : Type} (key : A -> Z) l : sort_by key l ≡ₚ l.
Proof.
  induction l as [|x l IH]; simpl; [done|]. by rewrite insert_by_perm, IH.
Qed.

Lemma insert_by_sorted {A : Type} (key : A -> Z) x l :
  Sorted (fun a b => key a <= key b) l ->
  Sorted (fun a b => key a <= key b) (insert_by key x l).
Proof.
  induction 1 as [|y l Hs IH Hd]; simpl.
  - repeat constructor.
  - destruct (Z.leb_spec (key x) (key y)).
    + constructor; [by constructor|]. constructor. lia.
    + constructor; [exact IH|].
      destruct Hd as [|z l Hyz]; simpl.
      * constructor. lia.
      * destruct (key x <=? key z); constructor; lia.
Qed.

Lemma sort_by_sorted {A : Type} (key : A -> Z) l :
  Sorted (fun a b => key a <= key b) (sort_by key l).
Proof.
  induction l as [|x l IH]; simpl; [constructor|]. by apply insert_by_sorted.
Qed.


Lemma ACTIONS_of_rules : ACTIONS = map action_of RULES.
Proof. vm_compute. reflexivity. Qed.

Lemma filter_select {A : Type} (f : A -> bool) (l : list A) :
  List.filter f l = select (map f l) l.
Proof. induction l as [|x l IH]; simpl; [done|]. by rewrite IH. Qed.

Lemma filter_map_comm {A B : Type} (p : B -> bool) (f : A -> B) (l : list A) :
  List.filter p (map f l) = map f (List.filter (fun x => p (f x)) l).
Proof.
  induction l as [|x l IH]; simpl; [done|]. rewrite IH. by destruct (p (f x)).
Qed.

Lemma triggered_fired (row : gmap string Z) :
  triggered row = map action_of (fired_rules row).
Proof.
  unfold triggered. rewrite ACTIONS_of_rules, filter_map_comm. reflexivity.
Qed.

Lemma insert_by_map {A B : Type} (key : B -> Z) (f : A -> B) x l :
  insert_by key (f x) (map f l) = map f (insert_by (fun a => key (f a)) x l).
Proof.
  induction l as [|y l IH]; simpl; [done|].
  destruct (key (f x) <=? key (f y)); simpl; [done|]. by rewrite IH.
Qed.

Lemma sort_by_map {A B : Type} (key : B -> Z) (f : A -> B) l :
  sort_by key (map f l) = map f (sort_by (fun a => key (f a)) l).
Proof.
  induction l as [|x l IH]; simpl; [done|]. by rewrite IH, insert_by_map.
Qed.

(** The fields that triggered the entries of [get_action_details], in the
    order of the entries. *)
Lemma details_fields (row : gmap string Z) :
  map triggered_by (get_action_details row)
  = map Actions.field
      (sort_by (fun a => priority_key (Actions.priority a)) (triggered row)).
Proof.
  unfold get_action_details. rewrite sort_by_map, <- list_fmap_compose. done.
Qed.

(** Every function of the fired rules is a function of five flags. *)
Lemma fired_rules_select (row : gmap string Z) :
  exists b1 b2 b3 b4 b5, fired_rules row = select [b1; b2; b3; b4; b5] RULES.
Proof.
  unfold fired_rules. rewrite filter_select. unfold RULES at 1. cbn [map].
  eauto 10.
Qed.

Lemma risk_of_fired (row : gmap string Z) :
  rule_based_risk row
  = (Z.min (sum_scores (fired_rules row)) 100, map reason_of (fired_rules row)).
Proof.
  unfold rule_based_risk. rewrite apply_rules_spec. fold (fired_rules row).
  cbv beta iota. by rewrite Z.add_0_l, app_nil_l.
Qed.

(** X12.  The recommended actions follow the rules: an action is
    triggered by exactly the rules that fire, so [get_action_details]
    returns as many entries as [rule_based_risk] returns reasons, one for
    the field of each; [recommend_actions] never returns an empty list, and
    it returns the line that no action is required exactly when the rule
    score is 0; otherwise it returns one line per reason. *)
Theorem actions_follow_rules (row : gmap string Z) :
  map triggered_by (get_action_details row)
    ≡ₚ map Rules.field (fired_rules row)
  /\ length (get_action_details row) = length (snd (rule_based_risk row))
  /\ recommend_actions row <> []
  /\ (recommend_actions row = [NO_ACTION] <-> fst (rule_based_risk row) = 0)
  /\ (fst (rule_based_risk row) <> 0 ->
      length (recommend_actions row) = length (snd (rule_based_risk row))).
Proof.
  split; [|split].
  - rewrite details_fields, sort_by_perm, triggered_fired, <- list_fmap_compose.
    done.
  - unfold get_action_details.
    rewrite sort_by_length, length_fmap, triggered_fired, length_fmap, risk_of_fired.
    simpl. by rewrite length_fmap.
  - unfold recommend_actions. rewrite triggered_fired, risk_of_fired.
    destruct (fired_rules_select row) as (b1 & b2 & b3 & b4 & b5 & ->).
    destruct b1, b2, b3, b4, b5; vm_compute; (split; [|split]); try split;
      congruence.
Qed.

(** X13.  The recommendations are in priority order, and within a
    priority in the order of the rules: [recommend_actions] returns the
    lines of the triggered HIGH actions followed by the lines of the
    triggered MEDIUM actions (no action has another priority), and
    [get_action_details] returns its entries in the same order. *)
Theorem actions_by_priority (row : gmap string Z) :
  recommend_actions row =
    match by_priority row with
    | [] => [NO_ACTION]
    | _ => map format_action (by_priority row)
    end
  /\ map triggered_by (get_action_details row)
     = map Actions.field (by_priority row)
  /\ Sorted (fun a b => priority_key (detail_priority a)
                        <= priority_key (detail_priority b))
            (get_action_details row).
Proof.
  unfold by_priority. split; [|split].
  - unfold recommend_actions. rewrite triggered_fired.
    destruct (fired_rules_select row) as (b1 & b2 & b3 & b4 & b5 & ->).
    destruct b1, b2, b3, b4, b5; vm_compute; reflexivity.
  - rewrite details_fields, triggered_fired.
    destruct (fired_rules_select row) as (b1 & b2 & b3 & b4 & b5 & ->).
    destruct b1, b2, b3, b4, b5; vm_compute; reflexivity.
  - apply sort_by_sorted.
Qed.


(** ** What-if scenarios *)

Lemma scenario_cases (scenario : string) (sc : Scenario) :
  dict_get scenario SCENARIOS = Some sc ->
  (scenario, sc) ∈ SCENARIOS /\ scenario ∈ scenario_names.
Proof.
  intros H. apply dict_get_Some_elem in H. split; [done|].
  rewrite <- scenarios_keys. apply list_elem_of_fmap. by exists (scenario, sc).
Qed.

Lemma what_if_get0 (row : gmap string Z) (sc : Scenario) scenario f :
  dict_get scenario SCENARIOS = Some sc ->
  get0 (apply_effects (effects sc) row) f =
    match dict_get f (effects sc) with
    | Some delta => Z.max 0 (int64_wrap (get0 row f + delta))
    | None => get0 row f
    end.
Proof.
  intros Hsc. destruct (scenario_effects _ _ Hsc) as [Hnd Hneg].
  unfold get0. rewrite apply_effects_lookup by done.
  destruct (dict_get f (effects sc)) as [delta|] eqn:E; [|done].
  apply dict_get_Some_elem in E. rewrite Forall_forall in Hneg.
  specialize (Hneg _ E). simpl in Hneg.
  destruct (row !! f); simpl; [done|].
  rewrite int64_wrap_id by (unfold INT64_MIN, INT64_MAX; lia). lia.
Qed.

(** The arithmetic of one entry of the estimate, where nothing wraps. *)
Lemma impact_in_range (o delta : Z) :
  INT64_MIN + 2 <= o <= INT64_MAX -> -2 <= delta <= 0 ->
  int64_wrap (Z.max 0 (int64_wrap (o + delta)) - o)
    = Z.max 0 (int64_wrap (o + delta)) - o
  /\ (0 <= o -> Z.max 0 (int64_wrap (o + delta)) <= o).
Proof.
  intros Ho Hd. rewrite (int64_wrap_id (o + delta)) by lia.
  rewrite int64_wrap_id; unfold INT64_MIN, INT64_MAX in *; lia.
Qed.

(** X14.  [estimate_scenario_impact] and [simulate_what_if] agree: the
    estimate is the error record exactly when the simulation raises, that
    is for a scenario name that is not defined (the estimate does not
    raise); for a defined scenario the estimate lists the features of the
    scenario's mapping, in its order, each with the value the record has
    (0 when absent) as original and the value the simulated record has (0
    when absent) as new, which is never negative.  On a record whose values
    stay inside the int64 range under the deltas, change is new minus
    original, and new is never above a non-negative original. *)
Theorem estimate_agrees_with_what_if (row : gmap string Z) (scenario : string) :
  match estimate_scenario_impact row scenario, simulate_what_if row scenario with
  | EstimateOf name text impacts, Ok out =>
      name = scenario /\ scenario ∈ scenario_names
      /\ (exists sc, dict_get scenario SCENARIOS = Some sc
                     /\ text = description sc
                     /\ impacts.*1 = (effects sc).*1)
      /\ Forall (fun fi =>
                   original fi.2 = get0 row fi.1
                   /\ new fi.2 = get0 out fi.1
                   /\ 0 <= new fi.2
                   /\ (no_wrap row ->
                       change fi.2 = new fi.2 - original fi.2
                       /\ (0 <= original fi.2 -> new fi.2 <= original fi.2)))
                impacts
  | EstimateError msg, Raise e =>
      (scenario ∉ scenario_names)
      /\ msg = ("Unknown scenario: " ++ scenario)%string
      /\ e = unknown_scenario_error scenario
  | _, _ => False
  end.
Proof.
  unfold estimate_scenario_impact, simulate_what_if, unknown_scenario_error.
  destruct (dict_get scenario SCENARIOS) as [sc|] eqn:Hsc.
  2:{ apply dict_get_None in Hsc. by rewrite scenarios_keys in Hsc. }
  destruct (scenario_cases _ _ Hsc) as [Hin Hname].
  split; [done|]. split; [done|].
  assert (Hget := fun f => what_if_get0 row sc scenario f Hsc).
  assert (Hrange := no_wrap_get0 row).
  unfold SCENARIOS in Hin.
  repeat (apply elem_of_cons in Hin as [[= -> ->]|Hin]);
    try (by apply elem_of_nil in Hin);
    (split; [eexists; split; [reflexivity|split; reflexivity]|]);
    cbn [effects fold_left dict_set String.eqb Ascii.eqb Bool.eqb];
    repeat (apply Forall_cons; split); try (by apply Forall_nil);
    cbn [fst snd original new change];
    rewrite ?Hget; cbn [effects dict_get String.eqb Ascii.eqb Bool.eqb];
    (split; [reflexivity|]; split; [reflexivity|]; split; [lia|]);
    (intros Hnw; apply impact_in_range; [by apply Hrange|lia]).
Qed.

Lemma fires_after_what_if (row : gmap string Z) (sc : Scenario) scenario rule :
  no_wrap row ->
  dict_get scenario SCENARIOS = Some sc ->
  rule ∈ RULES ->
  fires (apply_effects (effects sc) row) rule = true -> fires row rule = true.
Proof.
  intros Hnw Hsc Hrule. unfold fires. fold (get0 row (Rules.field rule)).
  fold (get0 (apply_effects (effects sc) row) (Rules.field rule)).
  rewrite (what_if_get0 _ _ _ _ Hsc).
  assert (Hthr : 0 < Rules.threshold rule).
  { unfold RULES in Hrule.
    repeat (apply elem_of_cons in Hrule as [->|Hrule]); try (simpl; lia).
    by apply elem_of_nil in Hrule. }
  destruct (dict_get _ (effects sc)) as [delta|] eqn:E; [|done].
  destruct (scenario_effects _ _ Hsc) as [_ Hneg].
  apply dict_get_Some_elem in E. rewrite Forall_forall in Hneg.
  specialize (Hneg _ E). simpl in Hneg.
  pose proof (no_wrap_get0 row (Rules.field rule) Hnw) as Hf.
  rewrite int64_wrap_id by lia.
  rewrite !Z.leb_le. lia.
Qed.

Lemma filter_weaker (f g : Rule -> bool) (rules : list Rule) :
  (forall r, r ∈ rules -> f r = true -> g r = true) ->
  Forall (fun r => 0 <= Rules.score r) rules ->
  sum_scores (List.filter f rules) <= sum_scores (List.filter g rules)
  /\ List.filter f rules `sublist_of` List.filter g rules.
Proof.
  intros Hfg Hpos. induction Hpos as [|r rules Hr Hpos IH]; simpl.
  - split; [lia|constructor].
  - destruct IH as [IHs IHl].
    { intros x Hx. apply Hfg. apply elem_of_cons. by right. }
    assert (Hrfg := Hfg r ltac:(apply elem_of_cons; by left)).
    assert (Hnn : 0 <= sum_scores (List.filter g rules)).
    { clear -Hpos. induction Hpos as [|x l Hx _ IH]; simpl; [lia|].
      destruct (g x); simpl; lia. }
    destruct (f r) eqn:Ef.
    + rewrite (Hrfg eq_refl). simpl. split; [lia|by constructor].
    + destruct (g r); simpl; split; try lia; try done. by constructor.
Qed.

(** X15.  On a record whose values stay inside the int64 range under the
    deltas, no what-if scenario raises the rule score: on the record that
    [simulate_what_if] returns, the rules that fire are rules that fired on
    the original record, so the rule score is at most the original one and
    the reasons are a sublist of the original reasons. *)
Theorem what_if_lowers_rule_score (row out : gmap string Z) (scenario : string) :
  no_wrap row ->
  simulate_what_if row scenario = Ok out ->
  fst (rule_based_risk out) <= fst (rule_based_risk row)
  /\ snd (rule_based_risk out) `sublist_of` snd (rule_based_risk row)
  /\ fired_rules out `sublist_of` fired_rules row.
Proof.
  intros Hnw. unfold simulate_what_if.
  destruct (dict_get scenario SCENARIOS) as [sc|] eqn:Hsc; [|discriminate].
  intros [= <-]. rewrite !risk_of_fired. simpl.
  destruct (filter_weaker (fires (apply_effects (effects sc) row)) (fires row) RULES)
    as [Hsum Hsub].
  { intros r Hr. by apply (fires_after_what_if _ _ scenario). }
  { unfold RULES. repeat constructor; simpl; lia. }
  fold (fired_rules (apply_effects (effects sc) row)) in Hsum, Hsub.
  fold (fired_rules row) in Hsum, Hsub.
  split; [lia|]. split; [|done]. by apply fmap_sublist.
Qed.

(** The range matters.  On the integer Series that holds the least int64
    under total_blocked_events, the sum with -1 wraps to the greatest
    int64: the scenario add_resource turns a record on which no rule fires
    into one with the rule score 25, and the estimate reports the change
    -1. *)
Example what_if_wraps_at_int64_min :
  let row : gmap string Z := <["total_blocked_events" := INT64_MIN]> ∅ in
  simulate_what_if row "add_resource"
    = Ok (<["total_blocked_events" := INT64_MAX]> ∅)
  /\ fst (rule_based_risk row) = 0
  /\ fst (rule_based_risk (<["total_blocked_events" := INT64_MAX]> ∅)) = 25
  /\ estimate_scenario_impact row "add_resource"
     = EstimateOf "add_resource" "Add one resource to the project"
         [("no_resource_available", mkFeatureImpact 0 0 0);
          ("total_blocked_events", mkFeatureImpact INT64_MIN INT64_MAX (-1))].
Proof. vm_compute. repeat split. Qed.

End DecisionFacts.

(* ===================================================================== *)
(** * Task labels and features *)
(* ===================================================================== *)

Section LabelFacts.
Import Pipeline Features.

Lemma string_compare_refl s : String.compare s s = Eq.
Proof.
  induction s as [|c s IH]; simpl; [done|].
  unfold Ascii.compare. by rewrite N.compare_refl.
Qed.

Lemma string_compare_trans a b c :
  String.compare a b = Lt -> String.compare b c = Lt -> String.compare a c = Lt.
Proof.
  revert b c. induction a as [|x a IH]; intros [|y b] [|z c]; simpl; try done.
  destruct (Ascii.compare x y) eqn:Exy; try done;
    destruct (Ascii.compare y z) eqn:Eyz; try done.
  - apply Ascii.compare_eq_iff in Exy, Eyz. subst.
    unfold Ascii.compare. rewrite N.compare_refl. apply IH.
  - apply Ascii.compare_eq_iff in Exy. subst. by rewrite Eyz.
  - apply Ascii.compare_eq_iff in Eyz. subst. by rewrite Exy.
  - unfold Ascii.compare in *. rewrite N.compare_lt_iff in Exy, Eyz.
    assert (E : (Ascii.N_of_ascii x ?= Ascii.N_of_ascii z)%N = Lt)
      by (apply N.compare_lt_iff; lia).
    by rewrite E.
Qed.

Lemma insert_label_elem k ks x : x ∈ insert_label k ks <-> x = k \/ x ∈ ks.
Proof.
  induction ks as [|k' ks IH]; simpl.
  - rewrite list_elem_of_singleton, elem_of_nil. tauto.
  - destruct (String.compare k k') eqn:E.
    + apply String.compare_eq_iff in E as ->. rewrite elem_of_cons. tauto.
    + rewrite !elem_of_cons. tauto.
    + rewrite !elem_of_cons, IH. tauto.
Qed.

Lemma insert_label_sorted k ks :
  StronglySorted string_lt ks -> StronglySorted string_lt (insert_label k ks).
Proof.
  induction 1 as [|k' ks Hs IH Hall]; simpl.
  - repeat constructor.
  - destruct (String.compare k k') eqn:E.
    + by constructor.
    + constructor; [by constructor|]. constructor; [done|].
      eapply Forall_impl; [exact Hall|]. intros y Hy.
      by eapply string_compare_trans.
    + constructor; [done|]. apply Forall_forall. intros y Hy.
      apply insert_label_elem in Hy as [->|Hy].
      * unfold string_lt. rewrite String.compare_antisym, E. done.
      * rewrite Forall_forall in Hall. auto.
Qed.

Lemma group_labels_elem ks x : x ∈ group_labels ks <-> x ∈ ks.
Proof.
  induction ks as [|k ks IH]; simpl; [done|].
  rewrite insert_label_elem, IH, elem_of_cons. tauto.
Qed.

Lemma group_labels_sorted ks : StronglySorted string_lt (group_labels ks).
Proof.
  induction ks as [|k ks IH]; simpl; [constructor|]. by apply insert_label_sorted.
Qed.

Lemma sorted_NoDup ks : StronglySorted string_lt ks -> NoDup ks.
Proof.
  induction 1 as [|k ks Hs IH Hall]; constructor; [|done].
  intros Hin. rewrite Forall_forall in Hall. specialize (Hall _ Hin).
  unfold string_lt in Hall. by rewrite string_compare_refl in Hall.
Qed.

Lemma group_labels_NoDup ks : NoDup (group_labels ks).
Proof. apply sorted_NoDup, group_labels_sorted. Qed.

#[local] Instance string_lt_antisym : AntiSymm (=) string_lt.
Proof.
  intros a b Hab Hba. unfold string_lt in *.
  rewrite String.compare_antisym, Hba in Hab. discriminate.
Qed.

(** The labels of a group-by do not depend on the order of the rows. *)
Lemma group_labels_perm ks1 ks2 : ks1 ≡ₚ ks2 -> group_labels ks1 = group_labels ks2.
Proof.
  intros Hp. apply (StronglySorted_unique string_lt);
    try apply group_labels_sorted.
  apply NoDup_Permutation; try apply group_labels_NoDup.
  intros x. rewrite !group_labels_elem. by rewrite Hp.
Qed.

End LabelFacts.

Section BlockFacts.
Import Pipeline Features.

Lemma counts_lookup (f : string -> Z) (reasons : list string) (c : string) :
  (list_to_map (map (fun r => (r, f r)) reasons) : gmap string Z) !! c
  = if decide (c ∈ reasons) then Some (f c) else None.
Proof.
  induction reasons as [|r reasons IH].
  - destruct (decide (c ∈ [])) as [H|_]; [by apply elem_of_nil in H|].
    apply lookup_empty.
  - cbn [map]. rewrite list_to_map_cons.
    destruct (decide (c = r)) as [->|Hne].
    + rewrite lookup_insert_eq.
      destruct (decide (r ∈ r :: reasons)) as [_|Hout]; [done|].
      exfalso. apply Hout, elem_of_cons. by left.
    + rewrite lookup_insert_ne by done. rewrite IH.
      destruct (decide (c ∈ reasons)) as [Hin|Hout];
        destruct (decide (c ∈ r :: reasons)) as [Hin'|Hout']; try done.
      * exfalso. apply Hout', elem_of_cons. by right.
      * exfalso. apply elem_of_cons in Hin' as [?|?]; done.
Qed.

Lemma length_filter_cons {A : Type} (P : A -> Prop) `{!forall x, Decision (P x)} x l :
  Z.of_nat (length (filter P (x :: l)))
  = (if decide (P x) then 1 else 0) + Z.of_nat (length (filter P l)).
Proof. rewrite filter_cons. destruct (decide (P x)); simpl; lia. Qed.

Lemma group_size_blocked events tid c :
  group_size (grouped_rows events) tid c = blocked_for events tid c.
Proof.
  unfold group_size, blocked_for, grouped_rows.
  induction events as [|e events IH]; [done|].
  rewrite length_filter_cons, <- IH. clear IH.
  rewrite (filter_cons _ e events).
  destruct (decide (EventRow.event_type e = EventType.BLOCKED)) as [Hb|Hb].
  - rewrite (filter_cons _ e).
    destruct (decide (EventRow.reason e <> None)) as [Hr|Hr].
    + rewrite length_filter_cons.
      destruct (decide (EventRow.task_id e = tid /\ EventRow.reason e = Some c));
        destruct (decide (_ /\ _ /\ _)); try lia; tauto.
    + rewrite decide_False; [lia|]. intros (_ & _ & E). apply Hr. by rewrite E.
  - rewrite decide_False; [lia|]. tauto.
Qed.

Lemma blocked_known_sum events tid :
  blocked_known events tid
  = blocked_for events tid "dependencies"
    + blocked_for events tid "no_resource_available"
    + blocked_for events tid "skill_mismatch"
    + blocked_for events tid "external_block"
    + blocked_for events tid "random_disruption".
Proof.
  unfold blocked_known, blocked_for.
  induction events as [|e events IH]; [done|].
  rewrite !length_filter_cons, IH. clear IH.
  assert (Hv : forall r, r ∈ Some <$> REASON_COLUMNS <->
            r = Some "dependencies" \/ r = Some "no_resource_available"
            \/ r = Some "skill_mismatch" \/ r = Some "external_block"
            \/ r = Some "random_disruption").
  { intros r. unfold REASON_COLUMNS. rewrite !fmap_cons, fmap_nil.
    rewrite !elem_of_cons, elem_of_nil. tauto. }
  destruct (decide (EventRow.event_type e = EventType.BLOCKED)) as [Hb|Hb].
  2:{ rewrite !decide_False by tauto. lia. }
  destruct (decide (EventRow.task_id e = tid)) as [Ht|Ht].
  2:{ rewrite !decide_False by tauto. lia. }
  destruct (EventRow.reason e) as [r|] eqn:Er.
  2:{ rewrite !decide_False; try lia; try (intros (_ & _ & [=])).
      intros (_ & _ & H). apply Hv in H.
      destruct H as [H|[H|[H|[H|H]]]]; discriminate. }
  destruct (decide (Some r ∈ Some <$> REASON_COLUMNS)) as [Hin|Hout].
  - rewrite (decide_True (P := _ /\ _ /\ _ ∈ _)) by done.
    apply Hv in Hin.
    destruct Hin as [E|[E|[E|[E|E]]]]; injection E as ->;
      repeat match goal with
             | |- context [decide (?P)] =>
                 first [ rewrite (decide_True (P := P)) by done
                       | rewrite (decide_False (P := P)) by (intros (_ & _ & [=])) ]
             end; lia.
  - rewrite (decide_False (P := _ /\ _ /\ _ ∈ _)) by tauto.
    rewrite !decide_False; try lia;
      intros (_ & _ & E); apply Hout, Hv; rewrite E; tauto.
Qed.


Lemma block_row_lookup events tid c :
  c ∈ REASON_COLUMNS ->
  fold_left ensure_column REASON_COLUMNS
    (list_to_map (map (fun r => (r, group_size (grouped_rows events) tid r))
                      (group_labels (omap EventRow.reason (grouped_rows events)))))
    !! c = Some (blocked_for events tid c).
Proof.
  intros Hc. rewrite ensure_columns_lookup, counts_lookup.
  destruct (decide (c ∈ group_labels _)) as [Hin|Hout].
  - by rewrite group_size_blocked.
  - rewrite decide_True by done. f_equal.
    rewrite <- group_size_blocked. symmetry. apply group_size_zero.
    apply Forall_forall. intros e He Hr. apply Hout.
    apply group_labels_elem. apply list_elem_of_omap. by exists e.
Qed.

Lemma find_block_row (rows : list BlockRow) tid :
  match List.find (fun r => String.eqb (block_task_id r) tid) rows with
  | Some r => r ∈ rows /\ block_task_id r = tid
  | None => tid ∉ map block_task_id rows
  end.
Proof.
  induction rows as [|r rows IH]; simpl; [apply not_elem_of_nil|].
  destruct (String.eqb_spec (block_task_id r) tid) as [E|E].
  - split; [|done]. apply elem_of_cons. by left.
  - destruct (find _ rows) as [r'|].
    + destruct IH. split; [|done]. apply elem_of_cons. by right.
    + intros Hin. apply elem_of_cons in Hin as [?|?]; [congruence|done].
Qed.

(** The task ids of the rows of the block features. *)
Lemma block_features_ids (events : list EventRow.t) :
  map block_task_id (compute_block_features events)
  = group_labels (map EventRow.task_id (grouped_rows events)).
Proof.
  unfold compute_block_features. fold (grouped_rows events).
  rewrite <- list_fmap_compose. apply list_fmap_id.
Qed.

Lemma block_ids_elem (events : list EventRow.t) (tid : string) :
  tid ∈ group_labels (map EventRow.task_id (grouped_rows events)) <->
  exists e, e ∈ events /\ EventRow.event_type e = EventType.BLOCKED
            /\ EventRow.reason e <> None /\ EventRow.task_id e = tid.
Proof.
  rewrite group_labels_elem, list_elem_of_fmap. split.
  - intros (e & -> & He). unfold grouped_rows in He.
    apply list_elem_of_filter in He as [Hr He].
    apply list_elem_of_filter in He as [Hb He]. by exists e.
  - intros (e & He & Hb & Hr & <-). exists e. split; [done|].
    unfold grouped_rows. apply list_elem_of_filter. split; [done|].
    by apply list_elem_of_filter.
Qed.

(** What the columns of a row of the block features hold. *)
Lemma block_features_values (events : list EventRow.t) :
  Forall (fun r =>
            (forall c, c ∈ REASON_COLUMNS ->
               block_counts r !! c
               = Some (blocked_for events (block_task_id r) c))
            /\ total_blocked_events r
               = blocked_known events (block_task_id r))
         (compute_block_features events).
Proof.
  unfold compute_block_features. fold (grouped_rows events).
  apply Forall_fmap, Forall_true. intros tid. unfold compose.
  cbn [block_counts total_blocked_events block_task_id].
  split; [intros c Hc; by apply block_row_lookup|].
  rewrite blocked_known_sum. unfold REASON_COLUMNS at 2. cbn [fold_left].
  rewrite !block_row_lookup
    by (unfold REASON_COLUMNS; rewrite !elem_of_cons; tauto).
  simpl. lia.
Qed.


End BlockFacts.

Section ProgressFacts.
Import Pipeline Features.

Lemma minimum_spec x l :
  minimum (x :: l) ∈ x :: l /\ Forall (fun y => minimum (x :: l) <= y) (x :: l).
Proof.
  simpl. induction l as [|y l [IHin IHall]]; simpl.
  - split; [apply elem_of_cons; by left|]. repeat constructor. lia.
  - apply Forall_cons in IHall as [Hx Hl]. split.
    + destruct (Z.min_spec y (foldr Z.min x l)) as [[_ ->]|[_ ->]].
      * apply elem_of_cons. right. apply elem_of_cons. by left.
      * apply elem_of_cons in IHin as [E|Hin]; [apply elem_of_cons; by left|].
        apply elem_of_cons. right. apply elem_of_cons. by right.
    + constructor; [lia|]. constructor; [lia|].
      eapply Forall_impl; [exact Hl|]. intros z Hz. simpl in Hz. lia.
Qed.

Lemma maximum_spec x l :
  maximum (x :: l) ∈ x :: l /\ Forall (fun y => y <= maximum (x :: l)) (x :: l).
Proof.
  simpl. induction l as [|y l [IHin IHall]]; simpl.
  - split; [apply elem_of_cons; by left|]. repeat constructor. lia.
  - apply Forall_cons in IHall as [Hx Hl]. split.
    + destruct (Z.max_spec y (foldr Z.max x l)) as [[_ ->]|[_ ->]].
      * apply elem_of_cons in IHin as [E|Hin]; [apply elem_of_cons; by left|].
        apply elem_of_cons. right. apply elem_of_cons. by right.
      * apply elem_of_cons. right. apply elem_of_cons. by left.
    + constructor; [lia|]. constructor; [lia|].
      eapply Forall_impl; [exact Hl|]. intros z Hz. simpl in Hz. lia.
Qed.

Lemma minimum_perm l1 l2 : l1 ≡ₚ l2 -> minimum l1 = minimum l2.
Proof.
  intros Hp. destruct l1 as [|x1 l1], l2 as [|x2 l2]; [done| | |].
  - by apply Permutation_nil_l in Hp.
  - by apply Permutation_nil_r in Hp.
  - destruct (minimum_spec x1 l1) as [Hin1 Hall1].
    destruct (minimum_spec x2 l2) as [Hin2 Hall2].
    remember (minimum (x1 :: l1)) as m1. remember (minimum (x2 :: l2)) as m2.
    rewrite Hp in Hin1. rewrite <- Hp in Hin2.
    rewrite Forall_forall in Hall1, Hall2.
    specialize (Hall1 _ Hin2). specialize (Hall2 _ Hin1). lia.
Qed.

Lemma maximum_perm l1 l2 : l1 ≡ₚ l2 -> maximum l1 = maximum l2.
Proof.
  intros Hp. destruct l1 as [|x1 l1], l2 as [|x2 l2]; [done| | |].
  - by apply Permutation_nil_l in Hp.
  - by apply Permutation_nil_r in Hp.
  - destruct (maximum_spec x1 l1) as [Hin1 Hall1].
    destruct (maximum_spec x2 l2) as [Hin2 Hall2].
    remember (maximum (x1 :: l1)) as m1. remember (maximum (x2 :: l2)) as m2.
    rewrite Hp in Hin1. rewrite <- Hp in Hin2.
    rewrite Forall_forall in Hall1, Hall2.
    specialize (Hall1 _ Hin2). specialize (Hall2 _ Hin1). lia.
Qed.

(** A gap between neighbours of a sorted list is the difference of two of
    its elements, the smaller one first. *)
Lemma consecutive_gaps_sorted (days : list Z) g :
  Sorted Z.le days -> g ∈ consecutive_gaps days ->
  exists a b, a ∈ days /\ b ∈ days /\ a <= b /\ g = b - a.
Proof.
  unfold consecutive_gaps.
  induction 1 as [|a days Hs IH Hd]; simpl; [by intros ?%elem_of_nil|].
  destruct Hd as [|b days' Hab]; simpl; [by intros ?%elem_of_nil|].
  intros Hg. apply elem_of_cons in Hg as [->|Hg].
  - exists a, b. split; [apply elem_of_cons; by left|].
    split; [|done]. apply elem_of_cons. right. apply elem_of_cons. by left.
  - destruct (IH Hg) as (x & y & Hx & Hy & Hxy & ->).
    exists x, y. split; [apply elem_of_cons; by right|].
    split; [apply elem_of_cons; by right|done].
Qed.

Lemma max_gap_bounds (days : list Z) :
  days <> [] -> 0 <= max_gap days <= maximum days - minimum days.
Proof.
  intros Hne. unfold max_gap.
  pose proof (merge_sort_Permutation Z.le days) as Hp.
  pose proof (Sorted_merge_sort Z.le days) as Hs.
  destruct days as [|d days]; [done|].
  destruct (minimum_spec d days) as [_ Hmin].
  destruct (maximum_spec d days) as [_ Hmax].
  rewrite Forall_forall in Hmin, Hmax.
  assert (Hle : minimum (d :: days) <= maximum (d :: days)).
  { specialize (Hmin d ltac:(apply elem_of_cons; by left)).
    specialize (Hmax d ltac:(apply elem_of_cons; by left)). lia. }
  destruct (length _ <=? 1)%nat eqn:El; [lia|].
  apply Nat.leb_gt in El.
  destruct (consecutive_gaps (merge_sort Z.le (d :: days))) as [|g gs] eqn:Eg.
  { unfold consecutive_gaps in Eg.
    destruct (merge_sort Z.le (d :: days)) as [|a [|b l]]; simpl in *;
      try lia; try discriminate. }
  destruct (maximum_spec g gs) as [Hin _]. rewrite <- Eg in Hin.
  destruct (consecutive_gaps_sorted _ _ Hs Hin) as (a & b & Ha & Hb & Hab & E).
  rewrite Eg in E. rewrite E. rewrite Hp in Ha, Hb.
  specialize (Hmin _ Ha). specialize (Hmax _ Hb). lia.
Qed.

Lemma max_gap_single (days : list Z) : (length days <= 1)%nat -> max_gap days = 0.
Proof.
  intros Hl. unfold max_gap.
  rewrite (Permutation_length (merge_sort_Permutation Z.le days)).
  by apply Nat.leb_le in Hl as ->.
Qed.

Lemma merge_sort_perm (l1 l2 : list Z) :
  l1 ≡ₚ l2 -> merge_sort Z.le l1 = merge_sort Z.le l2.
Proof.
  intros Hp. apply (Sorted_unique Z.le); try apply Sorted_merge_sort; try apply _.
  by rewrite !merge_sort_Permutation.
Qed.

Lemma days_of_nonempty rows tid :
  tid ∈ map EventRow.task_id rows -> days_of rows tid <> [].
Proof.
  intros Hin. apply list_elem_of_fmap in Hin as (e & -> & He).
  unfold days_of. intros E. apply fmap_nil_inv in E.
  assert (Hin : e ∈ filter (fun e0 => EventRow.task_id e0 = EventRow.task_id e) rows)
    by (by apply list_elem_of_filter).
  rewrite E in Hin. by apply elem_of_nil in Hin.
Qed.

(** X17.  The progress and the stagnation features have the same tasks
    in the same order, those with at least one progress event, each once;
    for each of them [first_progress_day <= last_progress_day], the count
    of progress events is at least 1, and the largest gap is between 0 and
    [last_progress_day - first_progress_day]; it is 0 for a task with a
    single progress event. *)
Theorem stagnation_within_progress_span (events : list EventRow.t) :
  NoDup (map progress_task_id (compute_progress_features events))
  /\ (forall tid, tid ∈ map progress_task_id (compute_progress_features events) <->
        exists e, e ∈ events /\ EventRow.event_type e = EventType.PROGRESS
                  /\ EventRow.task_id e = tid)
  /\ Forall2 (fun s p =>
                stagnation_task_id s = progress_task_id p
                /\ 1 <= progress_events p
                /\ first_progress_day p <= last_progress_day p
                /\ 0 <= max_progress_gap s
                     <= last_progress_day p - first_progress_day p
                /\ (progress_events p = 1 -> max_progress_gap s = 0)
                /\ 0 <= rework_count p)
             (compute_stagnation_features events)
             (compute_progress_features events).
Proof.
  unfold compute_stagnation_features, compute_progress_features.
  set (progress := filter (fun e => EventRow.event_type e = EventType.PROGRESS) events).
  set (rework := filter (fun e => EventRow.event_type e = EventType.REWORK) events).
  rewrite <- list_fmap_compose.
  assert (Hid : forall l : list string,
            (progress_task_id ∘ (fun tid =>
               mkProgressRow tid (Z.of_nat (length (days_of progress tid)))
                 (minimum (days_of progress tid)) (maximum (days_of progress tid))
                 (Z.of_nat (length (filter (fun e => EventRow.task_id e = tid) rework)))))
            <$> l = l).
  { intros l. apply list_fmap_id. }
  rewrite Hid. split; [apply group_labels_NoDup|]. split.
  - intros tid. rewrite group_labels_elem, list_elem_of_fmap. split.
    + intros (e & -> & He). apply list_elem_of_filter in He as [Hp He]. by exists e.
    + intros (e & He & Hp & <-). exists e. split; [done|].
      by apply list_elem_of_filter.
  - apply Forall2_fmap, Forall_Forall2_diag, Forall_forall.
    intros tid Htid. apply (proj1 (group_labels_elem _ _)) in Htid.
    pose proof (days_of_nonempty _ _ Htid) as Hne.
    cbn [stagnation_task_id progress_task_id progress_events first_progress_day
         last_progress_day max_progress_gap rework_count].
    pose proof (max_gap_bounds _ Hne) as Hb.
    split; [done|]. split.
    { destruct (days_of progress tid); [done|]. simpl. lia. }
    split; [lia|]. split; [lia|]. split; [|lia].
    intros Hone. apply max_gap_single. lia.
Qed.

(** The largest gap of the days 1, 3, 5, 15, in any order, is 10. *)
Example max_gap_of_test_days : max_gap [15; 1; 5; 3] = 10.
Proof. vm_compute. reflexivity. Qed.

End ProgressFacts.

Section OrderFacts.
Import Pipeline Features.

Lemma group_size_perm rows1 rows2 tid r :
  rows1 ≡ₚ rows2 -> group_size rows1 tid r = group_size rows2 tid r.
Proof. intros Hp. unfold group_size. by rewrite Hp. Qed.

Lemma days_of_perm rows1 rows2 tid :
  rows1 ≡ₚ rows2 -> days_of rows1 tid ≡ₚ days_of rows2 tid.
Proof. intros Hp. unfold days_of. by rewrite Hp. Qed.

Lemma max_gap_perm days1 days2 : days1 ≡ₚ days2 -> max_gap days1 = max_gap days2.
Proof. intros Hp. unfold max_gap. by rewrite (merge_sort_perm _ _ Hp). Qed.

(** X18.  The three feature frames do not depend on the order of the
    event rows: two permutations of the same rows give the same block,
    progress and stagnation features, row for row.  So the features do not
    depend on how [sort_values] orders the rows with the same
    [observed_day] in [normalize_events]. *)
Theorem features_ignore_row_order (events1 events2 : list EventRow.t) :
  events1 ≡ₚ events2 ->
  compute_block_features events1 = compute_block_features events2
  /\ compute_progress_features events1 = compute_progress_features events2
  /\ compute_stagnation_features events1 = compute_stagnation_features events2
  /\ forall (FS1 FS2 : FrameSort) key,
       let rows1 := sort_values (FrameSort := FS1) key events1 in
       let rows2 := sort_values (FrameSort := FS2) key events2 in
       compute_block_features rows1 = compute_block_features rows2
       /\ compute_progress_features rows1 = compute_progress_features rows2
       /\ compute_stagnation_features rows1 = compute_stagnation_features rows2.
Proof.
  assert (Hgen : forall ev1 ev2 : list EventRow.t, ev1 ≡ₚ ev2 ->
            compute_block_features ev1 = compute_block_features ev2
            /\ compute_progress_features ev1 = compute_progress_features ev2
            /\ compute_stagnation_features ev1 = compute_stagnation_features ev2).
  { clear. intros ev1 ev2 Hp. split; [|split].
    - unfold compute_block_features.
      set (g1 := filter (fun e => EventRow.reason e <> None) (filter _ ev1)).
      set (g2 := filter (fun e => EventRow.reason e <> None) (filter _ ev2)).
      assert (Hg : g1 ≡ₚ g2) by (unfold g1, g2; by rewrite Hp).
      rewrite (group_labels_perm (map EventRow.task_id g1) (map EventRow.task_id g2))
        by (by rewrite Hg).
      rewrite (group_labels_perm (omap EventRow.reason g1) (omap EventRow.reason g2))
        by (by rewrite Hg).
      apply map_ext. intros tid.
      rewrite (map_ext (fun r => (r, group_size g1 tid r))
                       (fun r => (r, group_size g2 tid r)))
        by (intros r; by rewrite (group_size_perm _ _ _ _ Hg)).
      reflexivity.
    - unfold compute_progress_features.
      set (p1 := filter (fun e => EventRow.event_type e = EventType.PROGRESS) ev1).
      set (p2 := filter (fun e => EventRow.event_type e = EventType.PROGRESS) ev2).
      set (r1 := filter (fun e => EventRow.event_type e = EventType.REWORK) ev1).
      set (r2 := filter (fun e => EventRow.event_type e = EventType.REWORK) ev2).
      assert (Hpp : p1 ≡ₚ p2) by (unfold p1, p2; by rewrite Hp).
      assert (Hr : r1 ≡ₚ r2) by (unfold r1, r2; by rewrite Hp).
      rewrite (group_labels_perm (map EventRow.task_id p1) (map EventRow.task_id p2))
        by (by rewrite Hpp).
      apply map_ext. intros tid.
      pose proof (days_of_perm _ _ tid Hpp) as Hd.
      rewrite (Permutation_length Hd), (minimum_perm _ _ Hd), (maximum_perm _ _ Hd).
      f_equal. by rewrite Hr.
    - unfold compute_stagnation_features.
      set (p1 := filter (fun e => EventRow.event_type e = EventType.PROGRESS) ev1).
      set (p2 := filter (fun e => EventRow.event_type e = EventType.PROGRESS) ev2).
      assert (Hpp : p1 ≡ₚ p2) by (unfold p1, p2; by rewrite Hp).
      rewrite (group_labels_perm (map EventRow.task_id p1) (map EventRow.task_id p2))
        by (by rewrite Hpp).
      apply map_ext. intros tid.
      by rewrite (max_gap_perm _ _ (days_of_perm _ _ tid Hpp)). }
  intros Hp. destruct (Hgen _ _ Hp) as (Hb & Hpr & Hs).
  split; [done|]. split; [done|]. split; [done|].
  intros FS1 FS2 key rows1 rows2. apply Hgen. unfold rows1, rows2.
  by rewrite !sort_values_perm.
Qed.

End OrderFacts.

(* ===================================================================== *)
(** * The tables of a run *)
(* ===================================================================== *)


Section RunTables.
Import Simulator Invariants Runs Pipeline Normalize Features.
Context {G : PyRandom} {FS : FrameSort}.

Local Abbreviation T w := (tasks (sim w)).

Lemma filter_none {A : Type} (P : A -> Prop) `{!forall x, Decision (P x)} (l : list A) :
  Forall (fun x => ~ P x) l -> filter P l = [].
Proof.
  induction 1 as [|x l Hx _ IH]; [done|].
  rewrite filter_cons. by rewrite decide_False.
Qed.

(** The value of a reason column and of the total in the row of a task
    after the left merge and the fill with 0. *)
Lemma merged_block_counts (events : list EventRow.t) (tid : string) :
  merged_total_blocked_events (compute_block_features events) tid
    = blocked_known events tid
  /\ forall c, c ∈ REASON_COLUMNS ->
       merged_block_feature (compute_block_features events) tid c
         = blocked_for events tid c.
Proof.
  pose proof (block_features_values events) as Hrows.
  assert (Hids := fun tid => block_ids_elem events tid).
  rewrite <- block_features_ids in Hids.
  unfold merged_total_blocked_events, merged_block_feature.
  pose proof (find_block_row (compute_block_features events) tid) as Hfind.
  destruct (find _ _) as [r|].
  - destruct Hfind as [Hin <-]. rewrite Forall_forall in Hrows.
    destruct (Hrows _ Hin) as [Hc Ht]. split; [done|].
    intros c Hcin. by rewrite (Hc _ Hcin).
  - assert (Hnone : forall e, e ∈ events ->
              EventRow.event_type e = EventType.BLOCKED ->
              EventRow.task_id e = tid -> EventRow.reason e = None).
    { intros e He Hb Ht. destruct (EventRow.reason e) eqn:Er; [|done].
      exfalso. apply Hfind, Hids. exists e. rewrite Er. done. }
    split.
    + unfold blocked_known. rewrite filter_none; [done|].
      apply Forall_forall. intros e He (Hb & Ht & Hr).
      rewrite (Hnone _ He Hb Ht) in Hr.
      apply list_elem_of_fmap in Hr as (c & [=] & _).
    + intros c _. unfold blocked_for. rewrite filter_none; [done|].
      apply Forall_forall. intros e He (Hb & Ht & Hr).
      rewrite (Hnone _ He Hb Ht) in Hr. discriminate.
Qed.

Lemma blocked_known_all (events : list EventRow.t) (tid : string) :
  Forall (fun e => EventRow.event_type e = EventType.BLOCKED ->
                   EventRow.reason e ∈ Some <$> REASON_COLUMNS) events ->
  blocked_known events tid = blocked_events events tid.
Proof.
  intros H. unfold blocked_known, blocked_events.
  induction H as [|e events He _ IH]; [done|].
  rewrite !length_filter_cons, IH.
  destruct (decide (EventRow.event_type e = EventType.BLOCKED /\ EventRow.task_id e = tid))
    as [[Hb Ht]|Hn].
  - rewrite decide_True; [done|]. auto.
  - rewrite decide_False; [done|]. tauto.
Qed.

Lemma blocked_events_perm events1 events2 tid :
  events1 ≡ₚ events2 -> blocked_events events1 tid = blocked_events events2 tid.
Proof. intros Hp. unfold blocked_events. by rewrite Hp. Qed.

(** A blocked event that the loop body logs has one of four reasons of the
    vocabulary. *)
Lemma blocked_shape ty r :
  (ty, r) ∈ EVENT_SHAPES -> ty = EventType.BLOCKED -> r ∈ Some <$> REASON_COLUMNS.
Proof.
  unfold EVENT_SHAPES, REASON_COLUMNS. rewrite !fmap_cons, !elem_of_cons.
  intros H ->. repeat (destruct H as [[= <-]|H]); try discriminate; try tauto.
  by apply elem_of_nil in H.
Qed.


(** X19.  The block features of a run count its blocked events: in every
    state reached from the constructed simulator, every blocked event of
    the log has a reason of the vocabulary.  So when the ingested and
    normalized events hold a progress event, [build_task_features] returns
    a frame in which the cells of a task hold, for each reason of the
    vocabulary, the number of the task's blocked events with that reason,
    and as [total_blocked_events] the number of all its blocked events in
    the log (0 for a task without); and when they hold no progress event,
    [build_task_features] raises the KeyError of its third merge. *)
Theorem run_block_totals ts rs seed noise_config (g : rng_state) w rows :
  reachable (init ts rs seed noise_config g) w ->
  normalize_events (raw_events (ingest_simulation (sim w))) = Ok rows ->
  Forall (fun e => EventLog.event_type e = EventType.BLOCKED ->
                   EventLog.reason e ∈ Some <$> REASON_COLUMNS) (logs (sim w))
  /\ forall tid,
       cell_is rows (build_task_features_total rows tid) (blocked_events rows tid)
       /\ blocked_events rows tid
          = Z.of_nat (length (filter (fun e =>
                EventLog.event_type e = EventType.BLOCKED
                /\ EventLog.task_id e = tid) (logs (sim w))))
       /\ (forall c, c ∈ REASON_COLUMNS ->
             cell_is rows (build_task_features_block rows tid c)
               (blocked_for rows tid c)).
Proof.
  intros Hr Hrows.
  assert (Hlogs : Forall (fun e => EventLog.event_type e = EventType.BLOCKED ->
                    EventLog.reason e ∈ Some <$> REASON_COLUMNS) (logs (sim w))).
  { destruct (reachable_log_inv _ _ Hr) as [Hl _]; [split; constructor|].
    eapply Forall_impl; [exact Hl|].
    intros e [(k & t & _ & _ & _ & _ & Hshape) _]. by apply blocked_shape. }
  split; [exact Hlogs|].
  pose proof (normalize_ingested (sim w)) as Hn. rewrite Hrows in Hn.
  destruct Hn as [_ Hp].
  assert (Hrows_ok : Forall (fun e => EventRow.event_type e = EventType.BLOCKED ->
                       EventRow.reason e ∈ Some <$> REASON_COLUMNS) rows).
  { rewrite Hp, Forall_fmap. exact Hlogs. }
  intros tid. destruct (merged_block_counts rows tid) as [Ht Hc].
  split; [|split].
  - rewrite <- (blocked_known_all rows tid Hrows_ok), <- Ht.
    apply build_task_features_total_cell.
  - rewrite (blocked_events_perm _ _ tid Hp). unfold blocked_events. f_equal.
    generalize (logs (sim w)). clear. intros l.
    induction l as [|e l IH]; [done|].
    rewrite fmap_cons, (filter_cons _ (normalized_row e)), (filter_cons _ e).
    destruct (decide (EventRow.event_type (normalized_row e) = EventType.BLOCKED
                      /\ EventRow.task_id (normalized_row e) = tid)) as [H1|H1];
      destruct (decide (EventLog.event_type e = EventType.BLOCKED
                        /\ EventLog.task_id e = tid)) as [H2|H2];
      simpl in H1; try tauto; simpl; try f_equal; exact IH.
  - intros c Hcin. rewrite <- (Hc c Hcin). apply build_task_features_block_cell.
Qed.

(** X10.  The delay labels of a run: from tasks in the default execution
    state, in every state a run reaches, [normalize_tasks] of the ingested
    tasks gives one row per task, with a label that is 0 or 1; the label is
    1 exactly for a completed task with [actual_end - actual_start] above
    the planned duration; a task that is not completed has -1 as end day
    and the label 0; a completed task has its two days, in order and not
    after the current day. *)
Theorem delay_labels_of_run ts rs seed noise_config (g : rng_state) w rows :
  Forall (fun t => Task.status t = TaskStatus.NOT_STARTED
                   /\ Task.actual_start t = None
                   /\ Task.actual_end t = None) ts ->
  reachable (init ts rs seed noise_config g) w ->
  normalize_tasks (raw_tasks (ingest_simulation (sim w))) = Ok rows ->
  map (fun r => TaskRow.task_id (raw r)) rows = map (fun kv => Task.task_id kv.2) (tasks (sim w))
  /\ Forall (fun r =>
       (delay r = 0 \/ delay r = 1)
       /\ (delay r = 1 <->
           TaskRow.status (raw r) = TaskStatus.COMPLETED
           /\ TaskRow.planned_duration (raw r) < actual_end r - actual_start r)
       /\ (TaskRow.status (raw r) <> TaskStatus.COMPLETED ->
           actual_end r = -1 /\ delay r = 0)
       /\ (TaskRow.status (raw r) = TaskStatus.COMPLETED ->
           0 <= actual_start r <= actual_end r /\ actual_end r <= day (sim w)))
     rows.
Proof.
  intros Hts Hr Hrows.
  assert (Hc0 : Forall (fun kv => completion_inv kv.2)
                  (T (init ts rs seed noise_config g))).
  { apply init_tasks_Forall. eapply Forall_impl; [exact Hts|].
    intros t (Hs & _ & He). split.
    - rewrite Hs. discriminate.
    - rewrite He. intros [? [=]]. }
  assert (Ht0 : Forall (fun kv => timing (day (sim (init ts rs seed noise_config g))) kv.2)
                  (T (init ts rs seed noise_config g))).
  { apply init_tasks_Forall. eapply Forall_impl; [exact Hts|].
    intros t (_ & Hs & He). split.
    - rewrite Hs. discriminate.
    - rewrite He. discriminate. }
  pose proof (reachable_completion _ _ Hr Hc0) as Hc.
  destruct (reachable_timing _ _ Hr ltac:(simpl; lia) Hc0 Ht0) as [Hd Ht].
  unfold normalize_tasks, ingest_simulation in Hrows. simpl in Hrows.
  destruct (T w) as [|kv0 d] eqn:Ed; [discriminate|]. rewrite <- Ed in *.
  assert (E : rows = map (fun kv =>
                let r := TaskRow.mk (Task.task_id kv.2) (Task.planned_duration kv.2)
                           (Task.complexity kv.2) (Task.priority kv.2)
                           (Task.required_skill kv.2)
                           (Z.of_nat (length (Task.dependencies kv.2)))
                           (Task.actual_start kv.2) (Task.actual_end kv.2)
                           (Task.status kv.2) (Task.progress kv.2) in
                mkRow r (default (-1) (Task.actual_start kv.2))
                  (default (-1) (Task.actual_end kv.2))
                  (compute_delay (Task.planned_duration kv.2)
                     (default (-1) (Task.actual_start kv.2))
                     (default (-1) (Task.actual_end kv.2)))) (T w)).
  { rewrite Ed in Hrows |- *. simpl in Hrows |- *. injection Hrows as <-.
    f_equal. by rewrite <- list_fmap_compose. }
  rewrite E. split; [by rewrite <- list_fmap_compose|].
  rewrite Forall_fmap. apply Forall_forall. intros kv Hin.
  rewrite Forall_forall in Hc, Ht.
  destruct (Hc _ Hin) as [Hc1 Hc2]. destruct (Ht _ Hin) as [Hs He].
  cbn [compose raw actual_start actual_end delay TaskRow.status
       TaskRow.planned_duration].
  unfold compute_delay.
  destruct (status_eqb_spec (Task.status kv.2) TaskStatus.COMPLETED) as [Hdone|Hnot].
  - destruct (Hc1 Hdone) as [[e Ee] _]. destruct (He _ Ee) as (s & Es & Hse).
    specialize (Hs _ Es). rewrite Es, Ee. simpl.
    destruct (Z.ltb_spec e 0); [lia|]. destruct (Z.ltb_spec s 0); [lia|]. simpl.
    destruct (Z.ltb_spec (Task.planned_duration kv.2) (e - s));
      repeat split; try tauto; try lia; try (intros; lia).
  - assert (Hnone : Task.actual_end kv.2 = None).
    { destruct (Task.actual_end kv.2) eqn:E'; [|done]. exfalso. apply Hnot, Hc2. eauto. }
    rewrite Hnone. simpl. repeat split; try tauto; try lia; try (intros; lia).
Qed.

(** X11.  A task that was blocked before it started has no duration: when
    a task has left NOT_STARTED without a start day (its first pass ended
    blocked, and resuming from BLOCKED sets no start day), every later
    state in which it is completed has [actual_start = actual_end], the day
    of completion, so that [compute_delay] labels it 0 whatever the planned
    duration (not negative) and however long it was blocked or in work. *)
Theorem blocked_before_start_has_no_duration w w' key t t' :
  reachable w w' ->
  dict_get key (tasks (sim w)) = Some t ->
  Task.actual_start t = None ->
  Task.status t <> TaskStatus.NOT_STARTED ->
  Task.status t <> TaskStatus.COMPLETED ->
  dict_get key (tasks (sim w')) = Some t' ->
  Task.status t' = TaskStatus.COMPLETED ->
  is_Some (Task.actual_start t')
  /\ Task.actual_start t' = Task.actual_end t'
  /\ (0 <= Task.planned_duration t' ->
      compute_delay (Task.planned_duration t')
        (default (-1) (Task.actual_start t'))
        (default (-1) (Task.actual_end t')) = 0).
Proof.
  intros Hr Ht Hstart Hns Hnc Ht' Hdone.
  assert (Hinv : exists x, dict_get key (T w') = Some x
            /\ ((Task.actual_start x = None
                 /\ Task.status x <> TaskStatus.NOT_STARTED
                 /\ Task.status x <> TaskStatus.COMPLETED)
                \/ (Task.status x = TaskStatus.COMPLETED
                    /\ is_Some (Task.actual_start x)
                    /\ Task.actual_start x = Task.actual_end x))).
  { clear t' Ht' Hdone.
    induction Hr as [|w1 w2 Hr IH H|key' w1 w2 Hr IH H|w1 w2 Hr IH H].
    - exists t. split; [done|]. left. done.
    - apply flush_delayed_inv in H as (-> & _). exact IH.
    - destruct IH as (x & Hx & Hcase).
      pose proof (process_task_tasks _ _ _ H) as Htasks.
      apply process_task_frame in H
        as (t1 & Ht1 & [[Hc ->]|(Hc & t2 & HT & _ & Hst & _)]); [by exists x|].
      destruct Htasks as (t0 & Ht0 & [[Hc0 _]|(_ & t3 & HT3 & _ & Hstep)]).
      { rewrite Ht1 in Ht0. congruence. }
      assert (t3 = t2) as ->.
      { assert (E : dict_get key' (T w2) = Some t3)
          by (rewrite HT3; apply dict_get_set_eq).
        rewrite HT, dict_get_set_eq in E. congruence. }
      rewrite HT. destruct (String.eqb_spec key key') as [<-|Hne].
      + rewrite dict_get_set_eq. exists t2. split; [done|].
        rewrite Hx in Ht1. injection Ht1 as <-.
        destruct Hcase as [(Hsx & Hnsx & Hncx)|(Hcx & _)]; [|done].
        destruct Hst as (Hs1 & Hs2 & Hs3).
        destruct (status_eqb_spec (Task.status t2) TaskStatus.COMPLETED) as [Hc2|Hc2].
        * right. split; [done|]. split; [auto|].
          destruct Hstep as [E _|E _ _|_ E _ _]; [congruence|congruence|].
          rewrite E. destruct Hs1 as [E1|[_ E1]]; [|done].
          destruct (Hs2 Hc2) as [s Es]. congruence.
        * left. split; [rewrite (Hs3 Hnsx Hc2); done|]. split; [|done].
          destruct Hstep as [E _|E _ _|E _ _ _]; rewrite E; discriminate.
      + rewrite dict_get_set_ne by done. by exists x.
    - apply release_resources_inv in H as (-> & _). exact IH. }
  destruct Hinv as (x & Hx & Hcase). rewrite Ht' in Hx. injection Hx as <-.
  destruct Hcase as [(_ & _ & Hn)|(_ & Hsome & Heq)]; [done|].
  split; [done|]. split; [done|]. intros Hpd.
  rewrite <- Heq. destruct Hsome as [s ->]. simpl. unfold compute_delay.
  destruct (s <? 0); simpl; [done|].
  destruct (Z.ltb_spec (Task.planned_duration t') (s - s)); [lia|done].
Qed.

End RunTables.

Section TableWitnesses.
Import Simulator Invariants Runs Pipeline Normalize Features Samples MoreSamples.
Import Rules SpecWords WhatIf Impact.

Lemma estimate_agrees_with_what_if_witness :
  no_wrap two_fields
  /\ estimate_scenario_impact two_fields "add_resource"
     = EstimateOf "add_resource" "Add one resource to the project"
         [("no_resource_available", mkFeatureImpact 2 1 (-1));
          ("total_blocked_events", mkFeatureImpact 5 4 (-1))]
  /\ Forall (fun fi => original fi.2 = get0 two_fields fi.1
                       /\ change fi.2 = new fi.2 - original fi.2)
       [("no_resource_available", mkFeatureImpact 2 1 (-1));
        ("total_blocked_events", mkFeatureImpact 5 4 (-1))].
Proof.
  assert (E1 : estimate_scenario_impact two_fields "add_resource"
               = EstimateOf "add_resource" "Add one resource to the project"
                   [("no_resource_available", mkFeatureImpact 2 1 (-1));
                    ("total_blocked_events", mkFeatureImpact 5 4 (-1))])
    by (vm_compute; reflexivity).
  assert (E2 : simulate_what_if two_fields "add_resource"
               = Ok (apply_effects
                       [("no_resource_available", -1); ("total_blocked_events", -1)]
                       two_fields)) by reflexivity.
  split; [exact no_wrap_two_fields|]. split; [exact E1|].
  pose proof (estimate_agrees_with_what_if two_fields "add_resource") as H.
  rewrite E1, E2 in H. destruct H as (_ & _ & _ & HF).
  eapply Forall_impl; [exact HF|].
  intros fi (Ho & _ & _ & Hc). split; [exact Ho|].
  exact (proj1 (Hc no_wrap_two_fields)).
Defined.

Lemma what_if_lowers_rule_score_witness :
  no_wrap two_fields
  /\ exists out,
       simulate_what_if two_fields "add_resource" = Ok out
       /\ fst (rule_based_risk out) <= fst (rule_based_risk two_fields).
Proof.
  split; [exact no_wrap_two_fields|].
  exists (apply_effects
            [("no_resource_available", -1); ("total_blocked_events", -1)]
            two_fields).
  assert (E : simulate_what_if two_fields "add_resource"
              = Ok (apply_effects
                      [("no_resource_available", -1); ("total_blocked_events", -1)]
                      two_fields)) by reflexivity.
  split; [exact E|].
  exact (proj1 (what_if_lowers_rule_score two_fields _ "add_resource"
                  no_wrap_two_fields E)).
Defined.

Lemma features_ignore_row_order_witness :
  [E2; E1; E3] ≡ₚ [E1; E2; E3]
  /\ compute_stagnation_features [E2; E1; E3] = compute_stagnation_features [E1; E2; E3].
Proof.
  assert (Hp : [E2; E1; E3] ≡ₚ [E1; E2; E3]) by apply perm_swap.
  split; [exact Hp|].
  exact (proj1 (proj2 (proj2 (features_ignore_row_order _ _ Hp)))).
Defined.

Lemma run_block_totals_witness :
  exists rows,
    normalize_events (FS := insertion_frame_sort)
      (raw_events (ingest_simulation (sim finished))) = Ok rows
    /\ build_task_features_total rows "T2" = Ok 10
    /\ blocked_events rows "T2" = 10
    /\ Exists (fun e => EventRow.event_type e = EventType.PROGRESS) rows.
Proof.
  assert (Hcell :
    match normalize_events (FS := insertion_frame_sort)
            (raw_events (ingest_simulation (sim finished))) with
    | Ok rows => build_task_features_total rows "T2"
    | Raise e => Raise e
    end = Ok 10) by (vm_compute; reflexivity).
  destruct (normalize_events (FS := insertion_frame_sort)
              (raw_events (ingest_simulation (sim finished))))
    as [rows|e] eqn:E; [|discriminate].
  exists rows. split; [reflexivity|]. split; [exact Hcell|].
  pose proof (proj1 (proj2 (run_block_totals (G := Tape.gen)
                              (FS := insertion_frame_sort)
                              [T1; T2] [R1] 42 None Tape.draws finished rows
                              reachable_finished E) "T2")) as Hc.
  rewrite Hcell in Hc. destruct Hc as [Hv Hp]. split; [by rewrite <- Hv|exact Hp].
Defined.

Lemma delay_labels_of_run_witness :
  exists rows,
    normalize_tasks (raw_tasks (ingest_simulation (sim finished))) = Ok rows
    /\ map (fun r => TaskRow.task_id (raw r)) rows = ["T1"; "T2"].
Proof.
  destruct (normalize_tasks (raw_tasks (ingest_simulation (sim finished))))
    as [rows|e] eqn:E; [|vm_compute in E; discriminate].
  exists rows. split; [reflexivity|].
  exact (proj1 (delay_labels_of_run (G := Tape.gen) [T1; T2] [R1] 42 None Tape.draws
                  finished rows ltac:(repeat constructor) reachable_finished E)).
Defined.

Lemma reachable_halfway_finished : reachable halfway finished.
Proof.
  assert (E : run (G := Tape.gen) 88 halfway = Ok (tt, finished))
    by (vm_compute; reflexivity).
  exact (run_reachable _ _ _ _ _ (reach_init _) E).
Qed.

Lemma blocked_before_start_has_no_duration_witness :
  exists t t',
    dict_get "T2" (tasks (sim halfway)) = Some t
    /\ Task.status t = TaskStatus.BLOCKED
    /\ dict_get "T2" (tasks (sim finished)) = Some t'
    /\ Task.actual_start t' = Task.actual_end t'.
Proof.
  destruct (dict_get "T2" (tasks (sim halfway))) as [t|] eqn:Et;
    [|vm_compute in Et; discriminate].
  destruct (dict_get "T2" (tasks (sim finished))) as [t'|] eqn:Et';
    [|vm_compute in Et'; discriminate].
  assert (Hs : Task.status t = TaskStatus.BLOCKED
               /\ Task.actual_start t = None)
    by (vm_compute in Et; injection Et as <-; split; reflexivity).
  assert (Hd : Task.status t' = TaskStatus.COMPLETED)
    by (vm_compute in Et'; injection Et' as <-; reflexivity).
  destruct Hs as [Hs Hn].
  exists t, t'. split; [reflexivity|]. split; [exact Hs|]. split; [reflexivity|].
  refine (proj1 (proj2 (blocked_before_start_has_no_duration (G := Tape.gen)
            halfway finished "T2" t t' reachable_halfway_finished Et Hn _ _ Et' Hd))).
  - rewrite Hs. discriminate.
  - rewrite Hs. discriminate.
Defined.

End TableWitnesses.
